(** * aws-infra-copilot: a shallow embedding of the query tools

    The repository is a set of read-only query tools over the AWS control
    plane (IAM, ECS, S3, Lambda, Health).  Every tool calls the provider,
    reshapes the answer into a JSON-like dictionary (the envelope) and
    returns it; a [ClientError] raised by the provider is caught and turned
    into an [{"error": str(e)}] envelope.

    The embedding keeps that structure:
    - envelopes are values of a JSON-like type [value], dictionaries being
      association lists in insertion order, as Python dictionaries are;
    - the provider is a record of clients, one per service, each a record
      of response oracles, one per API operation;
    - a tool body is a computation in a small monad [M] that yields the
      trace of the requests it issued and a result or a [ClientError];
    - [try ... except ClientError] is [try_except].

    Scope of the model:
    - the provider answers with well-formed records (the fields the tools
      read with [d[k]] are there) and its answer is a function of the
      request: the account does not change during one call;
    - a computation in [M] ends with a result or with botocore's
      [ClientError], the exception the tools catch.  An exception of
      another class leaves the tool without an envelope: the client that
      cannot be created, the request botocore refuses or cannot send, the
      [OverflowError] of the window arithmetic.  These are the [Hazards]
      of [returned_envelope], which tells what the caller receives;
      [invoke] is the run as far as no such exception occurs.  The
      [OverflowError] of float arithmetic on a byte count that no S3
      object reaches is not modelled;
    - strings are ASCII: [lower] and [title] act on the letters A-Z, a-z.
      On ASCII text they are [str.lower] and [str.title]; a letter
      outside ASCII, which Python would fold, is left as it is, so what is
      proved about case holds for ASCII text only. *)

From Stdlib Require Import ZArith List String Ascii Bool Lia Arith.
From Stdlib Require Import DecimalString Permutation Sorted.
Import ListNotations.
Local Open Scope string_scope.
Local Open Scope Z_scope.

Set Implicit Arguments.

(** ** JSON-like values returned by the tools *)

(** [VFloat h] stands for the Python float nearest to [h / 100]; the only
    floats the tools produce are results of [round(x, 2)]. *)
#[warnings="-register-all"]
Inductive value : Type :=
| VNone
| VBool (b : bool)
| VInt (z : Z)
| VFloat (hundredths : Z)
| VStr (s : string)
| VList (l : list value)
| VDict (d : list (string * value)).

Definition VStrs (l : list string) : value := VList (map VStr l).

(** [d.get(k)] on an association list. *)
Fixpoint assoc {A : Type} (k : string) (d : list (string * A)) : option A :=
  match d with
  | [] => None
  | (k', v) :: d' => if String.eqb k k' then Some v else assoc k d'
  end.

(** [k in d] *)
Definition has_key {A : Type} (k : string) (d : list (string * A)) : bool :=
  match assoc k d with Some _ => true | None => false end.

Definition keys {A : Type} (d : list (string * A)) : list string := map fst d.

(** [d[k] = v]: replaces the binding in place, or appends a new one, as a
    Python dictionary does. *)
Fixpoint dict_set {A : Type} (k : string) (v : A) (d : list (string * A))
  : list (string * A) :=
  match d with
  | [] => [(k, v)]
  | (k', v') :: d' =>
      if String.eqb k k' then (k', v) :: d' else (k', v') :: dict_set k v d'
  end.

(** Top-level lookup in an envelope. *)
Definition field (k : string) (env : value) : option value :=
  match env with
  | VDict d => assoc k d
  | _ => None
  end.

Definition has_field (k : string) (env : value) : bool :=
  match field k env with Some _ => true | None => false end.


(** ** Strings *)

Definition string_of_Z (z : Z) : string := NilZero.string_of_int (Z.to_int z).

Definition digit_char (d : Z) : ascii := ascii_of_nat (48 + Z.to_nat d).

(** ASCII model of [str.lower] and [str.upper]: exact on ASCII text; a
    cased letter outside ASCII is left as it is. *)
Definition lower_ascii (c : ascii) : ascii :=
  let n := nat_of_ascii c in
  if andb (Nat.leb 65 n) (Nat.leb n 90) then ascii_of_nat (n + 32) else c.

Definition upper_ascii (c : ascii) : ascii :=
  let n := nat_of_ascii c in
  if andb (Nat.leb 97 n) (Nat.leb n 122) then ascii_of_nat (n - 32) else c.

Definition is_alpha (c : ascii) : bool :=
  let n := nat_of_ascii c in
  orb (andb (Nat.leb 65 n) (Nat.leb n 90)) (andb (Nat.leb 97 n) (Nat.leb n 122)).

Fixpoint lower (s : string) : string :=
  match s with
  | EmptyString => EmptyString
  | String c s' => String (lower_ascii c) (lower s')
  end.

(** [needle in hay] *)
Fixpoint contains (needle hay : string) : bool :=
  if String.prefix needle hay then true
  else match hay with
       | EmptyString => false
       | String _ hay' => contains needle hay'
       end.

(** [s.split(sep)[-1]] for a one-character separator: the text after the
    last separator, the whole string when there is none. *)
Fixpoint last_segment_from (sep : ascii) (s acc : string) : string :=
  match s with
  | EmptyString => acc
  | String c s' =>
      if Ascii.eqb c sep then last_segment_from sep s' s'
      else last_segment_from sep s' acc
  end.

Definition last_segment (sep : ascii) (s : string) : string :=
  last_segment_from sep s s.

(** [s.split(sep)] for a one-character separator. *)
Fixpoint split_on (sep : ascii) (s : string) : list string :=
  match s with
  | EmptyString => [EmptyString]
  | String c s' =>
      if Ascii.eqb c sep then EmptyString :: split_on sep s'
      else match split_on sep s' with
           | [] => [String c EmptyString]
           | w :: ws => String c w :: ws
           end
  end.

(** [s.replace(a, b)] for single characters. *)
Fixpoint replace_char (a b : ascii) (s : string) : string :=
  match s with
  | EmptyString => EmptyString
  | String c s' => String (if Ascii.eqb c a then b else c) (replace_char a b s')
  end.

(** ASCII model of [str.title]: a letter is upper-cased when it follows a
    non-letter (or starts the string) and lower-cased otherwise. *)
Fixpoint title_from (prev_alpha : bool) (s : string) : string :=
  match s with
  | EmptyString => EmptyString
  | String c s' =>
      String (if prev_alpha then lower_ascii c else upper_ascii c)
             (title_from (is_alpha c) s')
  end.

Definition title (s : string) : string := title_from false s.

(** ** Python floats, as far as the tools use them

    Every true division in the tools divides a non-negative integer by a
    power of 1024.  A binary64 float is modelled by its exact value
    [fnum / 2^fshift]; [int_truediv_pow2] rounds the integer numerator to
    53 significant bits, to nearest and ties to even, which is what
    CPython's correctly rounded [int / int] gives.  The exponent range is
    taken unbounded: byte counts stay far below [2^1024]. *)

Record pyfloat : Type := { fnum : Z; fshift : Z }.

(** Nearest integer to [num / den], ties to even ([den > 0]). *)
Definition round_half_even (num den : Z) : Z :=
  let q := num / den in
  let r := num mod den in
  if 2 * r <? den then q
  else if den <? 2 * r then q + 1
  else if Z.even q then q else q + 1.

Definition round53 (n : Z) : Z :=
  let bits := Z.log2 n + 1 in
  if bits <=? 53 then n
  else let s := bits - 53 in round_half_even n (2 ^ s) * 2 ^ s.

Definition int_truediv_pow2 (n shift : Z) : pyfloat :=
  {| fnum := round53 n; fshift := shift |}.

(** The hundredths [h] such that [h / 100] is the decimal with two places
    nearest to the float; Python's [:.2f] and [round(x, 2)] both produce
    it, correctly rounded with ties to even. *)
Definition hundredths (x : pyfloat) : Z :=
  round_half_even (100 * fnum x) (2 ^ fshift x).

Definition two_places (h : Z) : string :=
  string_of_Z (h / 100) ++ "."
    ++ String (digit_char (h mod 100 / 10))
         (String (digit_char (h mod 10)) EmptyString).

(** [f"{x:.2f}"] for a non-negative float. *)
Definition format_2f (x : pyfloat) : string := two_places (hundredths x).

(** [round(x, 2)] *)
Definition round2 (x : pyfloat) : value := VFloat (hundredths x).

(** ** tools/s3.py: the size formatter *)

Definition _human_readable_size (size_bytes : Z) : string :=
  if size_bytes <? 1024 then
    string_of_Z size_bytes ++ " B"
  else if size_bytes <? 1024 ^ 2 then
    format_2f (int_truediv_pow2 size_bytes 10) ++ " KB"
  else if size_bytes <? 1024 ^ 3 then
    format_2f (int_truediv_pow2 size_bytes 20) ++ " MB"
  else if size_bytes <? 1024 ^ 4 then
    format_2f (int_truediv_pow2 size_bytes 30) ++ " GB"
  else
    format_2f (int_truediv_pow2 size_bytes 40) ++ " TB".

(** ** Provider responses and the tool monad *)

(** A botocore [ClientError]: [err_code] is [e.response["Error"]["Code"]],
    [err_text] is [str(e)]. *)
Record ClientError : Type := { err_code : string; err_text : string }.

Inductive response (A : Type) : Type :=
| Ok (a : A)
| Err (e : ClientError).
Arguments Ok {A} a.
Arguments Err {A} e.

(** A paginator: the pages it yields, in order, and the error raised by
    the fetch after the last of them, if any. *)
Record paginator (A : Type) : Type :=
  { pg_pages : list A; pg_failure : option ClientError }.

(** A timezone-aware [datetime]: its position on the time line, in
    microseconds since the epoch, and the text [isoformat()] renders it as
    (the same instant renders differently in different zones). *)
Record datetime : Type := { instant : Z; isoformat : string }.

Definition microseconds_per_day : Z := 86400 * 1000000.

(** [(a - b).days]: [timedelta.days] is the floor of the difference in days. *)
Definition days_between (a b : datetime) : Z :=
  (instant a - instant b) / microseconds_per_day.

(** The instant of [t + timedelta(days=d)]. *)
Definition plus_days (t : datetime) (d : Z) : Z :=
  instant t + d * microseconds_per_day.

(** Requests sent to the provider.  A paginated operation contributes one
    request per page fetched. *)
Inductive op : Type :=
| ListUsers (page : nat)
| ListAccessKeys (user : string)
| ListAttachedUserPolicies (user : string)
| ListGroupsForUser (user : string)
| ListAttachedGroupPolicies (group : string)
| ListRoles (path_prefix : string) (page : nat)
| GetRole (role : string)
| GetAccessKeyLastUsed (key_id : string)
| ListClusters (page : nat)
| DescribeClusters (arns : list string)
| ListServices (cluster : string) (page : nat)
| DescribeServices (cluster : string) (batch : list string)
| ListTasks (cluster : string) (service : option string) (page : nat)
| DescribeTasks (cluster : string) (batch : list string)
| DescribeTaskDefinition (task_definition : string)
| DescribeEvents (page : nat)
| DescribeAffectedEntities (event_arn : string)
| ListBuckets
| GetBucketLocation (bucket : string)
| ListObjectsV2 (bucket : string) (page : nat)
| GetPublicAccessBlock (bucket : string)
| GetBucketEncryption (bucket : string)
| ListFunctions (region : option string) (page : nat)
| GetFunction (name : string).

(** One entry of the call trace: the request and the error it raised, if
    it failed. *)
Record event : Type := { ev_op : op; ev_error : option ClientError }.

Definition trace : Type := list event.

Inductive outcome (A : Type) : Type :=
| Returned (a : A)
| Raised (e : ClientError).
Arguments Returned {A} a.
Arguments Raised {A} e.

(** A computation yields the requests it issued, in order, and either a
    result or the [ClientError] that interrupted it. *)
Definition M (A : Type) : Type := trace * outcome A.

Definition ret {A : Type} (a : A) : M A := ([], Returned a).

Definition bind {A B : Type} (m : M A) (f : A -> M B) : M B :=
  match m with
  | (t, Returned a) => let (t', r) := f a in ((t ++ t')%list, r)
  | (t, Raised e) => (t, Raised e)
  end.

Declare Scope tool_scope.
Delimit Scope tool_scope with tool.
Notation "x <- m ;; k" := (bind m (fun x => k))
  (at level 100, m at next level, right associativity) : tool_scope.
Notation "m ;; k" := (bind m (fun _ => k))
  (at level 100, right associativity) : tool_scope.
Local Open Scope tool_scope.

(** Issue request [o], whose answer is [r]. *)
Definition request {A : Type} (o : op) (r : response A) : M A :=
  match r with
  | Ok a => ([{| ev_op := o; ev_error := None |}], Returned a)
  | Err e => ([{| ev_op := o; ev_error := Some e |}], Raised e)
  end.

(** [try: m  except ClientError as e: h e] *)
Definition try_except {A : Type} (m : M A) (h : ClientError -> M A) : M A :=
  match m with
  | (t, Returned a) => (t, Returned a)
  | (t, Raised e) => let (t', r) := h e in ((t ++ t')%list, r)
  end.

(** [for x in xs: s = body x s] *)
Fixpoint for_each {X St : Type} (xs : list X) (body : X -> St -> M St) (s : St) : M St :=
  match xs with
  | [] => ret s
  | x :: xs' => s' <- body x s ;; for_each xs' body s'
  end.

(** [for page in paginator.paginate(...): s = body page s]; page [i] is
    fetched just before it is processed. *)
Fixpoint paginate_from {P St : Type} (fetch : nat -> op) (i : nat)
    (pages : list P) (failure : option ClientError)
    (body : P -> St -> M St) (s : St) : M St :=
  match pages with
  | [] =>
      match failure with
      | None => ret s
      | Some e => _ <- request (fetch i) (@Err unit e) ;; ret s
      end
  | p :: pages' =>
      _ <- request (fetch i) (Ok tt) ;;
      s' <- body p s ;;
      paginate_from fetch (S i) pages' failure body s'
  end.

Definition paginate {P St : Type} (fetch : nat -> op) (pg : paginator P)
    (body : P -> St -> M St) (s : St) : M St :=
  paginate_from fetch 0 (pg_pages pg) (pg_failure pg) body s.

(** A tool run: the requests issued and the envelope returned.  [None]
    stands for a [ClientError] that escaped the tool. *)
Definition calls {A : Type} (m : M A) : trace := fst m.

Definition envelope (m : M value) : option value :=
  match snd m with
  | Returned v => Some v
  | Raised _ => None
  end.

(** [{"error": str(e)}] *)
Definition error_envelope (e : ClientError) : value :=
  VDict [("error", VStr (err_text e))].

Definition return_error (e : ClientError) : M value := ret (error_envelope e).

Definition VLen {A : Type} (l : list A) : value := VInt (Z.of_nat (List.length l)).

(** [x if x else None] for a list that goes into the envelope. *)
Definition or_none (l : list value) : value :=
  match l with [] => VNone | _ => VList l end.

(** Truthiness of an optional string argument. *)
Definition truthy (s : option string) : bool :=
  match s with
  | Some s' => negb (String.eqb s' "")
  | None => false
  end.

(** ** Raw provider records

    Each record lists the fields the tools read; a field read with
    [.get(...)] is optional. *)

Record User : Type :=
  { UserName : string;
    UserId : string;
    user_CreateDate : datetime;
    PasswordLastUsed : option datetime }.

Record AccessKeyMetadata : Type :=
  { AccessKeyId : string;
    key_Status : string;
    key_CreateDate : datetime }.

Record AttachedPolicy : Type := { PolicyArn : string }.

Record Group : Type := { GroupName : string }.

Record Role : Type :=
  { RoleName : string;
    RoleId : string;
    role_Path : string;
    role_CreateDate : datetime;
    role_Description : option string;
    AssumeRolePolicyDocument : value }.

Record AccessKeyLastUsed : Type :=
  { LastUsedDate : option datetime;
    ServiceName : option string }.

Record Cluster : Type :=
  { clusterName : string;
    cluster_status : string;
    runningTasksCount : Z;
    pendingTasksCount : Z;
    activeServicesCount : Z;
    registeredContainerInstancesCount : Z }.

Record Deployment : Type :=
  { dep_id : string;
    dep_status : string;
    dep_desiredCount : Z;
    dep_runningCount : Z;
    dep_pendingCount : Z;
    dep_createdAt : datetime;
    dep_taskDefinition : string }.

Record ServiceEvent : Type :=
  { sev_createdAt : datetime;
    sev_message : string }.

Record Service : Type :=
  { serviceName : string;
    service_status : string;
    desiredCount : Z;
    runningCount : Z;
    pendingCount : Z;
    service_launchType : option string;
    taskDefinition : string;
    deployments : option (list Deployment);
    events : option (list ServiceEvent) }.

Record Task : Type :=
  { taskArn : string;
    taskDefinitionArn : string;
    lastStatus : string;
    healthStatus : option string;
    task_launchType : option string;
    task_cpu : option string;
    task_memory : option string;
    startedAt : option datetime }.

Record ContainerDefinition : Type :=
  { container_name : string;
    image : string;
    container_cpu : option Z;
    container_memory : option Z;
    memoryReservation : option Z;
    essential : option bool;
    portMappings : option value }.

Record TaskDefinition : Type :=
  { family : string;
    revision : Z;
    td_status : string;
    taskRoleArn : option string;
    executionRoleArn : option string;
    networkMode : option string;
    td_cpu : option string;
    td_memory : option string;
    containerDefinitions : list ContainerDefinition }.

Record HealthEvent : Type :=
  { event_arn : string;
    eventTypeCode : option string;
    startTime : option datetime;
    endTime : option datetime }.

Record AffectedEntity : Type :=
  { entityValue : option string;
    statusCode : option string }.

Record Bucket : Type :=
  { bucket_Name : string;
    bucket_CreationDate : datetime }.

Record S3Object : Type :=
  { Key : string;
    Size : Z;
    LastModified : datetime }.

(** A page of [list_objects_v2]; [Contents] is absent from an empty page. *)
Record ObjectPage : Type := { Contents : option (list S3Object) }.

Record PublicAccessBlockConfiguration : Type :=
  { BlockPublicAcls : option bool;
    IgnorePublicAcls : option bool;
    BlockPublicPolicy : option bool;
    RestrictPublicBuckets : option bool }.

Record SSEByDefault : Type :=
  { SSEAlgorithm : option string;
    KMSMasterKeyID : option string }.

Record EncryptionRule : Type :=
  { ApplyServerSideEncryptionByDefault : option SSEByDefault }.

(** The answer of [get_bucket_encryption]:
    [ServerSideEncryptionConfiguration] and its [Rules] are both optional. *)
Record BucketEncryption : Type :=
  { ServerSideEncryptionConfiguration : option (option (list EncryptionRule)) }.

Record Layer : Type := { layer_Arn : string }.

Record LambdaFunction : Type :=
  { FunctionName : string;
    FunctionArn : string;
    Runtime : option string;
    MemorySize : option Z;
    Timeout : option Z;
    CodeSize : option Z;
    fn_LastModified : option string;
    fn_Description : option string;
    Handler : option string;
    fn_Role : option string;
    fn_State : option string;
    Architectures : option (list string);
    Environment : option (option (list (string * string)));
    VpcConfig : option (option string);
    Layers : option (list Layer) }.

Record FunctionDetails : Type :=
  { Configuration : LambdaFunction;
    Tags : option (list (string * string)) }.

(** ** The provider

    One client per service, as [get_client] hands them out; a client is a
    record of response oracles, one per API operation, each a function of
    the request's arguments.  [health_client_failure] is the text of the
    exception raised when the Health client cannot be created. *)

Record IamClient : Type :=
  { iam_list_users : paginator (list User);
    iam_list_access_keys : string -> response (list AccessKeyMetadata);
    iam_list_attached_user_policies : string -> response (list AttachedPolicy);
    iam_list_groups_for_user : string -> response (list Group);
    iam_list_attached_group_policies : string -> response (list AttachedPolicy);
    iam_list_roles : string -> paginator (list Role);
    iam_get_role : string -> response Role;
    iam_get_access_key_last_used : string -> response (option AccessKeyLastUsed) }.

Record EcsClient : Type :=
  { ecs_list_clusters : paginator (list string);
    ecs_describe_clusters : list string -> response (list Cluster);
    ecs_list_services : string -> paginator (list string);
    ecs_describe_services : string -> list string -> response (list Service);
    ecs_list_tasks : string -> option string -> paginator (list string);
    ecs_describe_tasks : string -> list string -> response (list Task);
    ecs_describe_task_definition : string -> response TaskDefinition }.

Record HealthClient : Type :=
  { health_describe_events : paginator (list HealthEvent);
    health_describe_affected_entities :
      string -> response (option (list AffectedEntity)) }.

Record S3Client : Type :=
  { s3_list_buckets : response (list Bucket);
    s3_get_bucket_location : string -> response (option string);
    s3_list_objects_v2 : string -> paginator ObjectPage;
    s3_get_public_access_block :
      string -> response PublicAccessBlockConfiguration;
    s3_get_bucket_encryption : string -> response BucketEncryption }.

(** [lambda_list_functions] takes the region of the client: [None] for
    the shared client, [Some region] for one created for that region. *)
Record LambdaClient : Type :=
  { lambda_list_functions : option string -> paginator (list LambdaFunction);
    lambda_get_function : string -> response FunctionDetails }.

Record Provider : Type :=
  { iam : IamClient;
    ecs : EcsClient;
    health_client_failure : option string;
    health : HealthClient;
    s3 : S3Client;
    lambda : LambdaClient }.

(** [t.isoformat() if t else default] *)
Definition iso_or (default : string) (t : option datetime) : value :=
  match t with
  | Some t' => VStr (isoformat t')
  | None => VStr default
  end.

(** [d.get(k, default)] for a string field. *)
Definition str_or (default : string) (s : option string) : value :=
  VStr (match s with Some s' => s' | None => default end).

(** [d.get(k)] for a string field. *)
Definition str_opt (s : option string) : value :=
  match s with Some s' => VStr s' | None => VNone end.

Definition int_opt (z : option Z) : value :=
  match z with Some z' => VInt z' | None => VNone end.

(** [d.get(k, "N/A")] for an integer field. *)
Definition int_or_na (z : option Z) : value :=
  match z with Some z' => VInt z' | None => VStr "N/A" end.

(** ** tools/iam.py *)

Definition list_iam_users (w : Provider) : M value :=
  try_except
    (users <- paginate ListUsers (iam_list_users (iam w))
       (fun page users =>
          for_each page
            (fun user users =>
               ret (users ++
                 [VDict [("username", VStr (UserName user));
                         ("user_id", VStr (UserId user));
                         ("created", VStr (isoformat (user_CreateDate user)));
                         ("password_last_used",
                          iso_or "Never" (PasswordLastUsed user))]])%list)
            users)
       [] ;;
     ret (VDict [("user_count", VLen users); ("users", VList users)]))
    return_error.

(** [(now - key["CreateDate"]).days] *)
Definition key_age (now : datetime) (key : AccessKeyMetadata) : Z :=
  days_between now (key_CreateDate key).

Definition stale_entry (now : datetime) (username : string)
    (key : AccessKeyMetadata) : value :=
  VDict [("username", VStr username);
         ("access_key_id", VStr (AccessKeyId key));
         ("key_age_days", VInt (key_age now key));
         ("status", VStr (key_Status key));
         ("created", VStr (isoformat (key_CreateDate key)))].

Definition list_users_with_stale_credentials (w : Provider) (now : datetime)
    (days : Z) : M value :=
  try_except
    (stale_users <- paginate ListUsers (iam_list_users (iam w))
       (fun page stale_users =>
          for_each page
            (fun user stale_users =>
               let username := UserName user in
               keys_response <-
                 request (ListAccessKeys username) (iam_list_access_keys (iam w) username) ;;
               for_each keys_response
                 (fun key stale_users =>
                    if days <? key_age now key
                    then ret (stale_users ++ [stale_entry now username key])%list
                    else ret stale_users)
                 stale_users)
            stale_users)
       [] ;;
     ret (VDict [("threshold_days", VInt days);
                 ("stale_credential_count", VLen stale_users);
                 ("users", VList stale_users)]))
    return_error.

Definition admin_policy_arn : string :=
  "arn:aws:iam::aws:policy/AdministratorAccess".

Definition list_users_with_admin_access (w : Provider) : M value :=
  try_except
    (admin_users <- paginate ListUsers (iam_list_users (iam w))
       (fun page admin_users =>
          for_each page
            (fun user admin_users =>
               let username := UserName user in
               attached <-
                 request (ListAttachedUserPolicies username)
                         (iam_list_attached_user_policies (iam w) username) ;;
               st <- for_each attached
                 (fun policy '(has_admin, admin_source) =>
                    if String.eqb (PolicyArn policy) admin_policy_arn
                    then ret (true, (admin_source ++ ["direct_attachment"])%list)
                    else ret (has_admin, admin_source))
                 (false, []) ;;
               groups <-
                 request (ListGroupsForUser username)
                         (iam_list_groups_for_user (iam w) username) ;;
               st <- for_each groups
                 (fun group st =>
                    group_policies <-
                      request (ListAttachedGroupPolicies (GroupName group))
                              (iam_list_attached_group_policies (iam w) (GroupName group)) ;;
                    for_each group_policies
                      (fun policy '(has_admin, admin_source) =>
                         if String.eqb (PolicyArn policy) admin_policy_arn
                         then ret (true,
                                   (admin_source ++ [("group:" ++ GroupName group)%string])%list)
                         else ret (has_admin, admin_source))
                      st)
                 st ;;
               let '(has_admin, admin_source) := st in
               if has_admin : bool
               then ret (admin_users ++
                      [VDict [("username", VStr username);
                              ("admin_source", VStrs admin_source)]])%list
               else ret admin_users)
            admin_users)
       [] ;;
     ret (VDict [("admin_user_count", VLen admin_users);
                 ("users", VList admin_users)]))
    return_error.

Definition list_iam_roles (w : Provider) (path_prefix : string) : M value :=
  try_except
    (roles <- paginate (ListRoles path_prefix) (iam_list_roles (iam w) path_prefix)
       (fun page roles =>
          for_each page
            (fun role roles =>
               ret (roles ++
                 [VDict [("role_name", VStr (RoleName role));
                         ("role_id", VStr (RoleId role));
                         ("path", VStr (role_Path role));
                         ("created", VStr (isoformat (role_CreateDate role)));
                         ("description", str_or "" (role_Description role))]])%list)
            roles)
       [] ;;
     ret (VDict [("role_count", VLen roles); ("roles", VList roles)]))
    return_error.

Definition get_role_trust_policy (w : Provider) (role_name : string) : M value :=
  try_except
    (role <- request (GetRole role_name) (iam_get_role (iam w) role_name) ;;
     ret (VDict [("role_name", VStr (RoleName role));
                 ("trust_policy", AssumeRolePolicyDocument role)]))
    return_error.

Definition list_access_keys (w : Provider) (now : datetime)
    (username : option string) : M value :=
  try_except
    (users <-
       (if truthy username
        then ret [match username with Some u => u | None => "" end]
        else paginate ListUsers (iam_list_users (iam w))
               (fun page users => ret (users ++ map UserName page)%list) []) ;;
     all_keys <- for_each users
       (fun uname all_keys =>
          keys_response <-
            request (ListAccessKeys uname) (iam_list_access_keys (iam w) uname) ;;
          for_each keys_response
            (fun key all_keys =>
               last_used_response <-
                 request (GetAccessKeyLastUsed (AccessKeyId key))
                         (iam_get_access_key_last_used (iam w) (AccessKeyId key)) ;;
               let last_used :=
                 match last_used_response with
                 | Some lu => lu
                 | None => {| LastUsedDate := None; ServiceName := None |}
                 end in
               ret (all_keys ++
                 [VDict [("username", VStr uname);
                         ("access_key_id", VStr (AccessKeyId key));
                         ("status", VStr (key_Status key));
                         ("created", VStr (isoformat (key_CreateDate key)));
                         ("age_days", VInt (key_age now key));
                         ("last_used", iso_or "Never" (LastUsedDate last_used));
                         ("last_used_service",
                          str_or "N/A" (ServiceName last_used))]])%list)
            all_keys)
       [] ;;
     ret (VDict [("key_count", VLen all_keys); ("access_keys", VList all_keys)]))
    return_error.

(** ** tools/ecs.py *)

(** [range(start, stop, step)] for a positive [step]: the loop
    [i = start; while i < stop: yield i; i += step], which ends within
    [stop - start] rounds. *)
Fixpoint range_loop (fuel i stop step : nat) : list nat :=
  match fuel with
  | O => []
  | S fuel' =>
      if Nat.ltb i stop then i :: range_loop fuel' (i + step) stop step else []
  end.

Definition py_range (start stop step : nat) : list nat :=
  range_loop (stop - start) start stop step.

(** [l[i:j]] for [0 <= i <= j] *)
Definition slice {A : Type} (l : list A) (i j : nat) : list A :=
  firstn (j - i) (skipn i l).

Definition cluster_summary (cluster : Cluster) : value :=
  VDict [("name", VStr (clusterName cluster));
         ("status", VStr (cluster_status cluster));
         ("running_tasks", VInt (runningTasksCount cluster));
         ("pending_tasks", VInt (pendingTasksCount cluster));
         ("active_services", VInt (activeServicesCount cluster));
         ("registered_instances",
          VInt (registeredContainerInstancesCount cluster))].

Definition list_ecs_clusters (w : Provider) : M value :=
  try_except
    (cluster_arns <- paginate ListClusters (ecs_list_clusters (ecs w))
       (fun page cluster_arns => ret (cluster_arns ++ page)%list) [] ;;
     match cluster_arns with
     | [] => ret (VDict [("cluster_count", VInt 0); ("clusters", VList [])])
     | _ =>
         clusters_response <-
           request (DescribeClusters cluster_arns)
                   (ecs_describe_clusters (ecs w) cluster_arns) ;;
         clusters <- for_each clusters_response
           (fun cluster clusters => ret (clusters ++ [cluster_summary cluster])%list)
           [] ;;
         ret (VDict [("cluster_count", VLen clusters);
                     ("clusters", VList clusters)])
     end)
    return_error.

Definition service_summary (service : Service) : value :=
  VDict [("name", VStr (serviceName service));
         ("status", VStr (service_status service));
         ("desired_count", VInt (desiredCount service));
         ("running_count", VInt (runningCount service));
         ("pending_count", VInt (pendingCount service));
         ("launch_type", str_or "EC2" (service_launchType service));
         ("task_definition", VStr (last_segment "/" (taskDefinition service)))].

(** The describe loop of [list_ecs_services]: one [describe_services]
    request per ten ARNs. *)
Definition describe_services_batched (w : Provider) (cluster_name : string)
    (service_arns : list string) : M (list value) :=
  for_each (py_range 0 (List.length service_arns) 10)
    (fun i services =>
       let batch := slice service_arns i (i + 10) in
       services_response <-
         request (DescribeServices cluster_name batch)
                 (ecs_describe_services (ecs w) cluster_name batch) ;;
       for_each services_response
         (fun service services => ret (services ++ [service_summary service])%list)
         services)
    [].

Definition list_ecs_services (w : Provider) (cluster_name : string) : M value :=
  try_except
    (service_arns <-
       paginate (ListServices cluster_name) (ecs_list_services (ecs w) cluster_name)
         (fun page service_arns => ret (service_arns ++ page)%list) [] ;;
     match service_arns with
     | [] => ret (VDict [("cluster", VStr cluster_name);
                         ("service_count", VInt 0);
                         ("services", VList [])])
     | _ =>
         services <- describe_services_batched w cluster_name service_arns ;;
         ret (VDict [("cluster", VStr cluster_name);
                     ("service_count", VLen services);
                     ("services", VList services)])
     end)
    return_error.

Definition deployment_summary (dep : Deployment) : value :=
  VDict [("id", VStr (dep_id dep));
         ("status", VStr (dep_status dep));
         ("desired_count", VInt (dep_desiredCount dep));
         ("running_count", VInt (dep_runningCount dep));
         ("pending_count", VInt (dep_pendingCount dep));
         ("created", VStr (isoformat (dep_createdAt dep)));
         ("task_definition", VStr (last_segment "/" (dep_taskDefinition dep)))].

Definition event_summary (event : ServiceEvent) : value :=
  VDict [("timestamp", VStr (isoformat (sev_createdAt event)));
         ("message", VStr (sev_message event))].

Definition or_empty {A : Type} (l : option (list A)) : list A :=
  match l with Some l' => l' | None => [] end.

Definition not_found_message (service_name cluster_name : string) : string :=
  "Service '" ++ service_name ++ "' not found in cluster '" ++ cluster_name ++ "'".

Definition get_ecs_service_status (w : Provider)
    (cluster_name service_name : string) : M value :=
  try_except
    (response <-
       request (DescribeServices cluster_name [service_name])
               (ecs_describe_services (ecs w) cluster_name [service_name]) ;;
     match response with
     | [] =>
         ret (VDict [("error",
                      VStr (not_found_message service_name cluster_name))])
     | service :: _ =>
         deployments <- for_each (or_empty (deployments service))
           (fun dep deployments => ret (deployments ++ [deployment_summary dep])%list)
           [] ;;
         events <- for_each (firstn 5 (or_empty (events service)))
           (fun event events => ret (events ++ [event_summary event])%list)
           [] ;;
         ret (VDict [("cluster", VStr cluster_name);
                     ("service_name", VStr (serviceName service));
                     ("status", VStr (service_status service));
                     ("desired_count", VInt (desiredCount service));
                     ("running_count", VInt (runningCount service));
                     ("pending_count", VInt (pendingCount service));
                     ("launch_type", str_or "EC2" (service_launchType service));
                     ("task_definition",
                      VStr (last_segment "/" (taskDefinition service)));
                     ("deployments", VList deployments);
                     ("recent_events", VList events)])
     end)
    return_error.

Definition task_summary (task : Task) : value :=
  VDict [("task_id", VStr (last_segment "/" (taskArn task)));
         ("task_definition", VStr (last_segment "/" (taskDefinitionArn task)));
         ("status", VStr (lastStatus task));
         ("health_status", str_or "UNKNOWN" (healthStatus task));
         ("launch_type", str_or "EC2" (task_launchType task));
         ("cpu", str_or "N/A" (task_cpu task));
         ("memory", str_or "N/A" (task_memory task));
         ("started_at", iso_or "Not started" (startedAt task))].

(** The describe loop of [list_ecs_tasks]: one [describe_tasks] request
    per hundred ARNs. *)
Definition describe_tasks_batched (w : Provider) (cluster_name : string)
    (task_arns : list string) : M (list value) :=
  for_each (py_range 0 (List.length task_arns) 100)
    (fun i tasks =>
       let batch := slice task_arns i (i + 100) in
       tasks_response <-
         request (DescribeTasks cluster_name batch)
                 (ecs_describe_tasks (ecs w) cluster_name batch) ;;
       for_each tasks_response
         (fun task tasks => ret (tasks ++ [task_summary task])%list)
         tasks)
    [].

Definition list_ecs_tasks (w : Provider) (cluster_name : string)
    (service_name : option string) : M value :=
  try_except
    (let service_filter := if truthy service_name then service_name else None in
     task_arns <-
       paginate (ListTasks cluster_name service_filter)
         (ecs_list_tasks (ecs w) cluster_name service_filter)
         (fun page task_arns => ret (task_arns ++ page)%list) [] ;;
     match task_arns with
     | [] => ret (VDict [("cluster", VStr cluster_name);
                         ("task_count", VInt 0);
                         ("tasks", VList [])])
     | _ =>
         tasks <- describe_tasks_batched w cluster_name task_arns ;;
         ret (VDict [("cluster", VStr cluster_name);
                     ("task_count", VLen tasks);
                     ("tasks", VList tasks)])
     end)
    return_error.

Definition container_summary (container : ContainerDefinition) : value :=
  VDict [("name", VStr (container_name container));
         ("image", VStr (image container));
         ("cpu", int_or_na (container_cpu container));
         ("memory", int_or_na (container_memory container));
         ("memory_reservation", int_or_na (memoryReservation container));
         ("essential",
          VBool (match essential container with Some b => b | None => true end));
         ("port_mappings",
          match portMappings container with Some v => v | None => VList [] end)].

Definition role_name_of (arn : option string) : value :=
  VStr (last_segment "/" (match arn with Some a => a | None => "None" end)).

Definition describe_task_definition (w : Provider) (task_definition : string)
  : M value :=
  try_except
    (task_def <-
       request (DescribeTaskDefinition task_definition)
               (ecs_describe_task_definition (ecs w) task_definition) ;;
     containers <- for_each (containerDefinitions task_def)
       (fun container containers =>
          ret (containers ++ [container_summary container])%list)
       [] ;;
     ret (VDict [("family", VStr (family task_def));
                 ("revision", VInt (revision task_def));
                 ("status", VStr (td_status task_def));
                 ("task_role", role_name_of (taskRoleArn task_def));
                 ("execution_role", role_name_of (executionRoleArn task_def));
                 ("network_mode", str_or "bridge" (networkMode task_def));
                 ("cpu", str_or "N/A" (td_cpu task_def));
                 ("memory", str_or "N/A" (td_memory task_def));
                 ("containers", VList containers)]))
    return_error.

(** One entry of [retirements]. *)
Record Retirement : Type :=
  { ret_task_arn : string;
    ret_event_type : option string;
    ret_status : option string;
    ret_scheduled_start : option datetime;
    ret_scheduled_end : option datetime;
    ret_description : string }.

Definition iso_opt (t : option datetime) : value :=
  match t with Some t' => VStr (isoformat t') | None => VNone end.

Definition retirement_value (r : Retirement) : value :=
  VDict [("task_arn", VStr (ret_task_arn r));
         ("event_type", str_opt (ret_event_type r));
         ("status", str_opt (ret_status r));
         ("scheduled_start", iso_opt (ret_scheduled_start r));
         ("scheduled_end", iso_opt (ret_scheduled_end r));
         ("description", VStr (ret_description r))].

Definition str_default (s : option string) : string :=
  match s with Some s' => s' | None => "" end.

Definition retirement_of (event : HealthEvent) (entity : AffectedEntity)
  : Retirement :=
  {| ret_task_arn := str_default (entityValue entity);
     ret_event_type := eventTypeCode event;
     ret_status := statusCode entity;
     ret_scheduled_start := startTime event;
     ret_scheduled_end := endTime event;
     ret_description :=
       title (replace_char "_" " " (str_default (eventTypeCode event))) |}.

(** [arn_parts[1] if len(arn_parts) > 1 else "unknown"] *)
Definition cluster_of_task_arn (task_arn : string) : string :=
  match split_on "/" task_arn with
  | _ :: cluster :: _ => cluster
  | _ => "unknown"
  end.

(** [if k not in d: d[k] = []] followed by [d[k].append(v)] *)
Definition dict_append {A : Type} (k : string) (v : A)
    (d : list (string * list A)) : list (string * list A) :=
  match assoc k d with
  | Some l => dict_set k (l ++ [v])%list d
  | None => dict_set k [v] d
  end.

Definition group_by_cluster (retirements : list Retirement)
  : list (string * list value) :=
  fold_left
    (fun by_cluster r =>
       dict_append (cluster_of_task_arn (ret_task_arn r)) (retirement_value r)
                   by_cluster)
    retirements [].

Definition is_fargate_entity (event : HealthEvent) (entity : AffectedEntity)
  : bool :=
  orb (contains "/task/" (str_default (entityValue entity)))
      (contains "fargate" (lower (str_default (eventTypeCode event)))).

Definition entitlement_envelope : value :=
  VDict [("error", VStr "AWS Health API requires Business or Enterprise support plan");
         ("suggestion",
          VStr "Upgrade your AWS support plan or check the AWS Health Dashboard in the console manually")].

Definition list_fargate_retirements (w : Provider) (now : datetime) (days : Z)
  : M value :=
  match health_client_failure w with
  | Some msg =>
      ret (VDict [("error", VStr ("Failed to create Health client: " ++ msg))])
  | None =>
      let end_time := plus_days now days in
      try_except
        (events <- paginate DescribeEvents (health_describe_events (health w))
           (fun page events =>
              for_each page
                (fun event events =>
                   match startTime event with
                   | Some event_start =>
                       if instant event_start <=? end_time
                       then ret (events ++ [event])%list
                       else ret events
                   | None => ret events
                   end)
                events)
           [] ;;
         match events with
         | [] =>
             ret (VDict [("days_checked", VInt days);
                         ("retirement_count", VInt 0);
                         ("message",
                          VStr "No Fargate task retirements scheduled in the specified time window");
                         ("retirements", VList [])])
         | _ =>
             retirements <- for_each events
               (fun event retirements =>
                  try_except
                    (affected <-
                       request (DescribeAffectedEntities (event_arn event))
                         (health_describe_affected_entities (health w) (event_arn event)) ;;
                     for_each (or_empty affected)
                       (fun entity retirements =>
                          if is_fargate_entity event entity
                          then ret (retirements ++ [retirement_of event entity])%list
                          else ret retirements)
                       retirements)
                    (fun _ => ret retirements))
               [] ;;
             let by_cluster := group_by_cluster retirements in
             ret (VDict [("days_checked", VInt days);
                         ("retirement_count", VLen retirements);
                         ("retirements_by_cluster",
                          VDict (map (fun kv => (fst kv, VList (snd kv))) by_cluster));
                         ("retirements", VList (map retirement_value retirements))])
         end)
        (fun e =>
           if String.eqb (err_code e) "SubscriptionRequiredException"
           then ret entitlement_envelope
           else return_error e)
  end.

(** ** tools/s3.py *)

(** [location["LocationConstraint"] or "us-east-1"] *)
Definition region_of (location : option string) : string :=
  match location with
  | Some r => if String.eqb r "" then "us-east-1" else r
  | None => "us-east-1"
  end.

Definition list_s3_buckets (w : Provider) : M value :=
  try_except
    (response <- request ListBuckets (s3_list_buckets (s3 w)) ;;
     buckets <- for_each response
       (fun bucket buckets =>
          let bucket_name := bucket_Name bucket in
          region <-
            try_except
              (location <-
                 request (GetBucketLocation bucket_name)
                         (s3_get_bucket_location (s3 w) bucket_name) ;;
               ret (region_of location))
              (fun _ => ret "unknown") ;;
          ret (buckets ++
            [VDict [("name", VStr bucket_name);
                    ("region", VStr region);
                    ("created", VStr (isoformat (bucket_CreationDate bucket)))]])%list)
       [] ;;
     ret (VDict [("bucket_count", VLen buckets); ("buckets", VList buckets)]))
    return_error.

Definition get_bucket_size (w : Provider) (bucket_name : string) : M value :=
  try_except
    (totals <-
       paginate (ListObjectsV2 bucket_name) (s3_list_objects_v2 (s3 w) bucket_name)
         (fun page totals =>
            match Contents page with
            | Some objects =>
                for_each objects
                  (fun obj '(total_size, object_count) =>
                     ret (total_size + Size obj, object_count + 1))
                  totals
            | None => ret totals
            end)
         (0, 0) ;;
     let '(total_size, object_count) := totals in
     ret (VDict [("bucket", VStr bucket_name);
                 ("object_count", VInt object_count);
                 ("total_size_bytes", VInt total_size);
                 ("total_size_human", VStr (_human_readable_size total_size))]))
    return_error.

(** The [bucket_info] dictionary of [check_bucket_public_access]. *)
Record BucketInfo : Type :=
  { info_bucket : string;
    public_access_blocked : bool;
    issues : list string }.

Definition bucket_info_value (info : BucketInfo) : value :=
  VDict [("bucket", VStr (info_bucket info));
         ("public_access_blocked", VBool (public_access_blocked info));
         ("issues", VStrs (issues info))].

(** [if not config.get(setting, False): issues.append(...); blocked = False] *)
Definition check_setting (setting : option bool) (issue : string)
    (info : BucketInfo) : BucketInfo :=
  if match setting with Some b => b | None => false end
  then info
  else {| info_bucket := info_bucket info;
          public_access_blocked := false;
          issues := (issues info ++ [issue])%list |}.

Definition check_config (config : PublicAccessBlockConfiguration)
    (info : BucketInfo) : BucketInfo :=
  let info := check_setting (BlockPublicAcls config)
                "BlockPublicAcls is disabled" info in
  let info := check_setting (IgnorePublicAcls config)
                "IgnorePublicAcls is disabled" info in
  let info := check_setting (BlockPublicPolicy config)
                "BlockPublicPolicy is disabled" info in
  check_setting (RestrictPublicBuckets config)
    "RestrictPublicBuckets is disabled" info.

(** The [except ClientError] branch of the per-bucket check. *)
Definition check_failed (e : ClientError) (info : BucketInfo) : BucketInfo :=
  if contains "NoSuchPublicAccessBlockConfiguration" (err_text e)
  then {| info_bucket := info_bucket info;
          public_access_blocked := false;
          issues := (issues info ++ ["No public access block configured"])%list |}
  else {| info_bucket := info_bucket info;
          public_access_blocked := public_access_blocked info;
          issues := (issues info ++ [("Error checking: " ++ err_text e)%string])%list |}.

Definition check_bucket (w : Provider) (name : string) : M BucketInfo :=
  let bucket_info :=
    {| info_bucket := name; public_access_blocked := true; issues := [] |} in
  try_except
    (pab <- request (GetPublicAccessBlock name) (s3_get_public_access_block (s3 w) name) ;;
     ret (check_config pab bucket_info))
    (fun e => ret (check_failed e bucket_info)).

(** [[bucket_name] if bucket_name else [b["Name"] for b in list_buckets()]] *)
Definition buckets_to_check (w : Provider) (bucket_name : option string)
  : M (list string) :=
  if truthy bucket_name
  then ret [str_default bucket_name]
  else response <- request ListBuckets (s3_list_buckets (s3 w)) ;;
       ret (map bucket_Name response).

Definition check_bucket_public_access (w : Provider)
    (bucket_name : option string) : M value :=
  try_except
    (bucket_names <- buckets_to_check w bucket_name ;;
     results <- for_each bucket_names
       (fun name results =>
          bucket_info <- check_bucket w name ;;
          ret (results ++ [bucket_info])%list)
       [] ;;
     let public_buckets :=
       filter (fun r => negb (public_access_blocked r)) results in
     ret (VDict [("buckets_checked", VLen results);
                 ("potentially_public_count", VLen public_buckets);
                 ("buckets", VList (map bucket_info_value results))]))
    return_error.

(** *** find_object *)

Definition match_limit : nat := 50.

Definition is_match (object_name : string) (exact_match : bool) (key : string)
  : bool :=
  if exact_match then String.eqb key object_name
  else contains (lower object_name) (lower key).

Definition match_entry (bucket_name : string) (obj : S3Object) : value :=
  VDict [("bucket", VStr bucket_name);
         ("key", VStr (Key obj));
         ("size", VStr (_human_readable_size (Size obj)));
         ("last_modified", VStr (isoformat (LastModified obj)))].

(** How the scan of a bucket ended: all pages read, the limit reached
    (the [return] inside the loops), or a [ClientError] from a page fetch.
    [matches] is a list mutated in place, so what was appended before the
    error stays; the scan therefore hands back the list in every case. *)
Inductive scan_end : Type :=
| Exhausted
| LimitReached
| Failed (e : ClientError).

(** [for obj in page["Contents"]: ...]; [true] when the limit was reached. *)
Fixpoint scan_objects (object_name : string) (exact_match : bool)
    (bucket_name : string) (objects : list S3Object) (matches : list value)
  : list value * bool :=
  match objects with
  | [] => (matches, false)
  | obj :: objects' =>
      if is_match object_name exact_match (Key obj) then
        let matches := (matches ++ [match_entry bucket_name obj])%list in
        if Nat.leb match_limit (List.length matches) then (matches, true)
        else scan_objects object_name exact_match bucket_name objects' matches
      else scan_objects object_name exact_match bucket_name objects' matches
  end.

(** [for page in paginator.paginate(Bucket=bucket_name): ...] *)
Fixpoint scan_pages (object_name : string) (exact_match : bool)
    (bucket_name : string) (i : nat) (pages : list ObjectPage)
    (failure : option ClientError) (matches : list value)
  : trace * (list value * scan_end) :=
  match pages with
  | [] =>
      match failure with
      | None => ([], (matches, Exhausted))
      | Some e =>
          ([{| ev_op := ListObjectsV2 bucket_name i; ev_error := Some e |}],
           (matches, Failed e))
      end
  | page :: pages' =>
      let fetched := {| ev_op := ListObjectsV2 bucket_name i; ev_error := None |} in
      match Contents page with
      | None =>
          let (t, r) := scan_pages object_name exact_match bucket_name (S i)
                          pages' failure matches in
          (fetched :: t, r)
      | Some objects =>
          match scan_objects object_name exact_match bucket_name objects matches with
          | (matches, true) => ([fetched], (matches, LimitReached))
          | (matches, false) =>
              let (t, r) := scan_pages object_name exact_match bucket_name (S i)
                              pages' failure matches in
              (fetched :: t, r)
          end
      end
  end.

Definition truncated_result (object_name : string) (exact_match : bool)
    (matches : list value) (buckets_searched : Z) : value :=
  VDict [("search_term", VStr object_name);
         ("exact_match", VBool exact_match);
         ("match_count", VLen matches);
         ("truncated", VBool true);
         ("message", VStr "Results limited to 50 matches");
         ("buckets_searched", VInt buckets_searched);
         ("matches", VList matches)].

Definition complete_result (object_name : string) (exact_match : bool)
    (matches : list value) (buckets_searched : Z)
    (buckets_with_errors : list value) : value :=
  VDict [("search_term", VStr object_name);
         ("exact_match", VBool exact_match);
         ("match_count", VLen matches);
         ("truncated", VBool false);
         ("buckets_searched", VInt buckets_searched);
         ("buckets_with_errors", or_none buckets_with_errors);
         ("matches", VList matches)].

Definition bucket_error (bucket_name : string) (e : ClientError) : value :=
  VDict [("bucket", VStr bucket_name); ("error", VStr (err_text e))].

(** [for bucket_name in bucket_names: ...] and the final [return]. *)
Fixpoint scan_buckets (w : Provider) (object_name : string) (exact_match : bool)
    (bucket_names : list string) (matches : list value) (buckets_searched : Z)
    (buckets_with_errors : list value) : trace * value :=
  match bucket_names with
  | [] =>
      ([], complete_result object_name exact_match matches buckets_searched
             buckets_with_errors)
  | bucket_name :: bucket_names' =>
      let buckets_searched := buckets_searched + 1 in
      let pg := s3_list_objects_v2 (s3 w) bucket_name in
      match scan_pages object_name exact_match bucket_name 0
              (pg_pages pg) (pg_failure pg) matches with
      | (t, (matches, LimitReached)) =>
          (t, truncated_result object_name exact_match matches buckets_searched)
      | (t, (matches, Exhausted)) =>
          let (t', v) := scan_buckets w object_name exact_match bucket_names'
                           matches buckets_searched buckets_with_errors in
          ((t ++ t')%list, v)
      | (t, (matches, Failed e)) =>
          let (t', v) := scan_buckets w object_name exact_match bucket_names'
                           matches buckets_searched
                           (buckets_with_errors ++ [bucket_error bucket_name e])%list in
          ((t ++ t')%list, v)
      end
  end.

Definition find_object (w : Provider) (object_name : string)
    (exact_match : bool) : M value :=
  try_except
    (response <- request ListBuckets (s3_list_buckets (s3 w)) ;;
     let bucket_names := map bucket_Name response in
     let (t, v) := scan_buckets w object_name exact_match bucket_names [] 0 [] in
     (t, Returned v))
    return_error.

(** *** get_bucket_encryption *)

(** The [bucket_info] dictionary of [get_bucket_encryption]; the keys
    [kms_key_id] and [error] are present only when set. *)
Record EncryptionInfo : Type :=
  { enc_bucket : string;
    encryption_enabled : bool;
    encryption_type : option string;
    kms_key_id : option string;
    enc_error : option string }.

Definition encryption_info_value (info : EncryptionInfo) : value :=
  VDict ([("bucket", VStr (enc_bucket info));
          ("encryption_enabled", VBool (encryption_enabled info));
          ("encryption_type", str_opt (encryption_type info))]
         ++ match kms_key_id info with
            | Some k => [("kms_key_id", VStr k)]
            | None => []
            end
         ++ match enc_error info with
            | Some e => [("error", VStr e)]
            | None => []
            end)%list.

Definition encryption_rules (encryption : BucketEncryption)
  : list EncryptionRule :=
  match ServerSideEncryptionConfiguration encryption with
  | Some (Some rules) => rules
  | _ => []
  end.

Definition encryption_of (name : string) (encryption : BucketEncryption)
  : EncryptionInfo :=
  match encryption_rules encryption with
  | [] => {| enc_bucket := name; encryption_enabled := false;
             encryption_type := None; kms_key_id := None; enc_error := None |}
  | rule :: _ =>
      let sse :=
        match ApplyServerSideEncryptionByDefault rule with
        | Some sse => sse
        | None => {| SSEAlgorithm := None; KMSMasterKeyID := None |}
        end in
      {| enc_bucket := name; encryption_enabled := true;
         encryption_type :=
           Some (match SSEAlgorithm sse with Some a => a | None => "Unknown" end);
         kms_key_id :=
           if truthy (KMSMasterKeyID sse) then KMSMasterKeyID sse else None;
         enc_error := None |}
  end.

Definition encryption_failed (name : string) (e : ClientError) : EncryptionInfo :=
  if contains "ServerSideEncryptionConfigurationNotFoundError" (err_text e)
  then {| enc_bucket := name; encryption_enabled := false;
          encryption_type := Some "None"; kms_key_id := None; enc_error := None |}
  else {| enc_bucket := name; encryption_enabled := false;
          encryption_type := None; kms_key_id := None;
          enc_error := Some (err_text e) |}.

Definition bucket_encryption (w : Provider) (name : string) : M EncryptionInfo :=
  try_except
    (encryption <-
       request (GetBucketEncryption name) (s3_get_bucket_encryption (s3 w) name) ;;
     ret (encryption_of name encryption))
    (fun e => ret (encryption_failed name e)).

Definition is_some {A : Type} (o : option A) : bool :=
  match o with Some _ => true | None => false end.

Definition get_bucket_encryption (w : Provider) (bucket_name : option string)
  : M value :=
  try_except
    (bucket_names <- buckets_to_check w bucket_name ;;
     results <- for_each bucket_names
       (fun name results =>
          bucket_info <- bucket_encryption w name ;;
          ret (results ++ [bucket_info])%list)
       [] ;;
     let encrypted := filter encryption_enabled results in
     let unencrypted :=
       map (fun r => VStr (enc_bucket r))
         (filter (fun r => andb (negb (encryption_enabled r))
                                (negb (is_some (enc_error r))))
                 results) in
     ret (VDict [("buckets_checked", VLen results);
                 ("encrypted_count", VLen encrypted);
                 ("unencrypted_count", VLen unencrypted);
                 ("unencrypted_buckets", or_none unencrypted);
                 ("buckets", VList (map encryption_info_value results))]))
    return_error.

(** ** tools/lambda_tools.py *)

Definition DEPRECATED_RUNTIMES : list (string * string) :=
  [("python2.7", "Deprecated since July 2022");
   ("python3.6", "Deprecated since July 2022");
   ("python3.7", "Deprecated since December 2023");
   ("nodejs", "Deprecated (legacy)");
   ("nodejs4.3", "Deprecated since April 2020");
   ("nodejs4.3-edge", "Deprecated since April 2020");
   ("nodejs6.10", "Deprecated since August 2019");
   ("nodejs8.10", "Deprecated since March 2020");
   ("nodejs10.x", "Deprecated since July 2021");
   ("nodejs12.x", "Deprecated since March 2023");
   ("nodejs14.x", "Deprecated since December 2023");
   ("nodejs16.x", "Deprecated since June 2024");
   ("ruby2.5", "Deprecated since July 2021");
   ("ruby2.7", "Deprecated since December 2023");
   ("java8", "Deprecated (Amazon Linux 1) - use java8.al2");
   ("dotnetcore1.0", "Deprecated since July 2019");
   ("dotnetcore2.0", "Deprecated since May 2019");
   ("dotnetcore2.1", "Deprecated since January 2022");
   ("dotnetcore3.1", "Deprecated since April 2023");
   ("dotnet5.0", "Deprecated since May 2022");
   ("dotnet6", "Deprecated since November 2024");
   ("go1.x", "Deprecated since January 2024 - use provided.al2")].

Definition APPROACHING_EOL_RUNTIMES : list (string * string) :=
  [("nodejs18.x", "EOL expected 2025");
   ("python3.8", "EOL expected 2025");
   ("python3.9", "EOL expected 2026");
   ("java11", "EOL expected 2025");
   ("dotnet7", "EOL expected 2025")].

Definition deprecation_status (runtime : string) : option string :=
  if has_key runtime DEPRECATED_RUNTIMES then Some "DEPRECATED"
  else if has_key runtime APPROACHING_EOL_RUNTIMES then Some "APPROACHING_EOL"
  else None.

(** [round(func.get("CodeSize", 0) / (1024 * 1024), 2)] *)
Definition code_size_mb (func : LambdaFunction) : value :=
  round2 (int_truediv_pow2
            (match CodeSize func with Some n => n | None => 0 end) 20).

Definition runtime_or (default : string) (func : LambdaFunction) : string :=
  match Runtime func with Some r => r | None => default end.

(** A shaped function together with the two fields the sort key reads. *)
Record FunctionSummary : Type :=
  { fs_status : option string;
    fs_name : string;
    fs_value : value }.

Definition function_summary (func : LambdaFunction) : FunctionSummary :=
  let runtime := runtime_or "N/A (container or custom)" func in
  {| fs_status := deprecation_status runtime;
     fs_name := FunctionName func;
     fs_value :=
       VDict [("name", VStr (FunctionName func));
              ("runtime", VStr runtime);
              ("deprecation_status", str_opt (deprecation_status runtime));
              ("memory_mb", int_opt (MemorySize func));
              ("timeout_seconds", int_opt (Timeout func));
              ("code_size_mb", code_size_mb func);
              ("last_modified", str_opt (fn_LastModified func));
              ("description", str_or "" (fn_Description func))] |}.

(** Order of the keys [(x["deprecation_status"] is None, x["name"])]. *)
Definition summary_le (a b : FunctionSummary) : bool :=
  match fs_status a, fs_status b with
  | Some _, None => true
  | None, Some _ => false
  | _, _ => String.leb (fs_name a) (fs_name b)
  end.

(** [list.sort] is stable; so is insertion before the first element that
    is not smaller. *)
Fixpoint insert_summary (x : FunctionSummary) (l : list FunctionSummary)
  : list FunctionSummary :=
  match l with
  | [] => [x]
  | y :: l' => if summary_le x y then x :: l else y :: insert_summary x l'
  end.

Definition sort_summaries (l : list FunctionSummary) : list FunctionSummary :=
  fold_right insert_summary [] l.

Definition list_lambda_functions (w : Provider) (region : option string)
  : M value :=
  let client_region := if truthy region then region else None in
  try_except
    (functions <-
       paginate (ListFunctions client_region) (lambda_list_functions (lambda w) client_region)
         (fun page functions =>
            for_each page
              (fun func functions => ret (functions ++ [function_summary func])%list)
              functions)
         [] ;;
     let functions := map fs_value (sort_summaries functions) in
     ret (VDict [("function_count", VLen functions);
                 ("functions", VList functions)]))
    return_error.

Definition runtime_entry (table : list (string * string)) (runtime : string)
    (func : LambdaFunction) : value :=
  VDict [("name", VStr (FunctionName func));
         ("runtime", VStr runtime);
         ("reason", VStr (str_default (assoc runtime table)));
         ("last_modified", str_opt (fn_LastModified func))].

(** [runtime_summary[rt] = runtime_summary.get(rt, 0) + 1] *)
Definition count_runtime (rt : string) (runtime_summary : list (string * Z))
  : list (string * Z) :=
  dict_set rt (match assoc rt runtime_summary with Some n => n | None => 0 end + 1)
           runtime_summary.

(** The loop state of [find_deprecated_runtimes]. *)
Record Scan : Type :=
  { deprecated_functions : list value;
    deprecated_runtimes : list string;
    approaching_eol_functions : list value;
    total_functions : Z }.

Definition scan_function (include_approaching_eol : bool) (func : LambdaFunction)
    (s : Scan) : Scan :=
  let runtime := runtime_or "" func in
  if has_key runtime DEPRECATED_RUNTIMES then
    {| deprecated_functions :=
         (deprecated_functions s
            ++ [runtime_entry DEPRECATED_RUNTIMES runtime func])%list;
       deprecated_runtimes := (deprecated_runtimes s ++ [runtime])%list;
       approaching_eol_functions := approaching_eol_functions s;
       total_functions := total_functions s + 1 |}
  else if andb include_approaching_eol (has_key runtime APPROACHING_EOL_RUNTIMES) then
    {| deprecated_functions := deprecated_functions s;
       deprecated_runtimes := deprecated_runtimes s;
       approaching_eol_functions :=
         (approaching_eol_functions s
            ++ [runtime_entry APPROACHING_EOL_RUNTIMES runtime func])%list;
       total_functions := total_functions s + 1 |}
  else
    {| deprecated_functions := deprecated_functions s;
       deprecated_runtimes := deprecated_runtimes s;
       approaching_eol_functions := approaching_eol_functions s;
       total_functions := total_functions s + 1 |}.

Definition deprecated_report (include_approaching_eol : bool) (s : Scan) : value :=
  let runtime_summary :=
    fold_left (fun summary rt => count_runtime rt summary)
              (deprecated_runtimes s) [] in
  VDict ([("total_functions_scanned", VInt (total_functions s));
          ("deprecated_count", VLen (deprecated_functions s));
          ("deprecated_functions", VList (deprecated_functions s))]
         ++ (if include_approaching_eol
             then [("approaching_eol_count", VLen (approaching_eol_functions s));
                   ("approaching_eol_functions",
                    VList (approaching_eol_functions s))]
             else [])
         ++ match runtime_summary with
            | [] => []
            | _ => [("deprecated_runtime_summary",
                     VDict (map (fun kv => (fst kv, VInt (snd kv))) runtime_summary))]
            end)%list.

Definition find_deprecated_runtimes (w : Provider)
    (include_approaching_eol : bool) : M value :=
  try_except
    (s <- paginate (ListFunctions None) (lambda_list_functions (lambda w) None)
       (fun page s =>
          for_each page
            (fun func s => ret (scan_function include_approaching_eol func s))
            s)
       {| deprecated_functions := []; deprecated_runtimes := [];
          approaching_eol_functions := []; total_functions := 0 |} ;;
     ret (deprecated_report include_approaching_eol s))
    return_error.

Definition deprecation_info (runtime : string) : value :=
  if has_key runtime DEPRECATED_RUNTIMES then
    VDict [("status", VStr "DEPRECATED");
           ("message", VStr (str_default (assoc runtime DEPRECATED_RUNTIMES)));
           ("action_required", VStr "Upgrade to a supported runtime immediately")]
  else if has_key runtime APPROACHING_EOL_RUNTIMES then
    VDict [("status", VStr "APPROACHING_EOL");
           ("message", VStr (str_default (assoc runtime APPROACHING_EOL_RUNTIMES)));
           ("action_required", VStr "Plan upgrade to newer runtime")]
  else VNone.

(** [parts[-2]]; layer ARNs always have the seven colons of
    [arn:aws:lambda:region:account:layer:name:version], so the list has
    two elements at least. *)
Fixpoint second_last (parts : list string) : string :=
  match parts with
  | [a; _] => a
  | _ :: parts' => second_last parts'
  | [] => ""
  end.

Definition get_lambda_function (w : Provider) (function_name : string)
  : M value :=
  try_except
    (config <-
       request (GetFunction function_name) (lambda_get_function (lambda w) function_name) ;;
     let func := Configuration config in
     let runtime := runtime_or "N/A (container or custom)" func in
     let tags := match Tags config with Some t => t | None => [] end in
     let env_vars :=
       match Environment func with
       | Some (Some variables) => map (fun kv => VStr (fst kv)) variables
       | _ => []
       end in
     ret (VDict
       [("name", VStr (FunctionName func));
        ("arn", VStr (FunctionArn func));
        ("runtime", VStr runtime);
        ("deprecation_info", deprecation_info runtime);
        ("handler", str_opt (Handler func));
        ("role", VStr (last_segment "/" (str_default (fn_Role func))));
        ("memory_mb", int_opt (MemorySize func));
        ("timeout_seconds", int_opt (Timeout func));
        ("code_size_mb", code_size_mb func);
        ("last_modified", str_opt (fn_LastModified func));
        ("description", str_or "" (fn_Description func));
        ("state", str_opt (fn_State func));
        ("architectures",
         VStrs (match Architectures func with Some a => a | None => ["x86_64"] end));
        ("environment_variables", or_none env_vars);
        ("vpc_config",
         str_opt (match VpcConfig func with Some v => v | None => None end));
        ("layers",
         VStrs (map (fun layer => second_last (split_on ":" (layer_Arn layer)))
                    (or_empty (Layers func))));
        ("tags",
         match tags with
         | [] => VNone
         | _ => VDict (map (fun kv => (fst kv, VStr (snd kv))) tags)
         end)]))
    return_error.

Definition supported_runtimes : list string :=
  ["python3.13"; "python3.12"; "python3.11"; "python3.10";
   "nodejs22.x"; "nodejs20.x";
   "java21"; "java17";
   "ruby3.3"; "ruby3.2";
   "dotnet8";
   "provided.al2023"; "provided.al2"].

Definition list_lambda_runtimes : M value :=
  ret (VDict
    [("supported_runtimes", VStrs supported_runtimes);
     ("approaching_eol",
      VDict (map (fun kv => (fst kv, VStr (snd kv))) APPROACHING_EOL_RUNTIMES));
     ("deprecated_runtimes",
      VDict (map (fun kv => (fst kv, VStr (snd kv))) DEPRECATED_RUNTIMES));
     ("recommendation",
      VStr "Use the latest supported runtime for your language. Prefer Amazon Linux 2023 (al2023) based runtimes.")]).

(** ** The tool registry

    [server.py] imports the four tool modules, which registers every
    function decorated with [@mcp.tool()]; the invocation boundary then
    dispatches a tool name with its arguments.  [now] is the instant
    [datetime.now(timezone.utc)] returns during the call.  [invoke] is
    the run of the tool as long as every exception is a [ClientError];
    [returned_envelope] below adds the exceptions that leave the tool. *)

Inductive invocation : Type :=
| call_list_iam_users
| call_list_users_with_stale_credentials (days : Z)
| call_list_users_with_admin_access
| call_list_iam_roles (path_prefix : string)
| call_get_role_trust_policy (role_name : string)
| call_list_access_keys (username : option string)
| call_list_ecs_clusters
| call_list_ecs_services (cluster_name : string)
| call_get_ecs_service_status (cluster_name service_name : string)
| call_list_ecs_tasks (cluster_name : string) (service_name : option string)
| call_describe_task_definition (task_definition : string)
| call_list_fargate_retirements (days : Z)
| call_list_s3_buckets
| call_get_bucket_size (bucket_name : string)
| call_check_bucket_public_access (bucket_name : option string)
| call_find_object (object_name : string) (exact_match : bool)
| call_get_bucket_encryption (bucket_name : option string)
| call_list_lambda_functions (region : option string)
| call_find_deprecated_runtimes (include_approaching_eol : bool)
| call_get_lambda_function (function_name : string)
| call_list_lambda_runtimes.

Definition invoke (w : Provider) (now : datetime) (c : invocation) : M value :=
  match c with
  | call_list_iam_users => list_iam_users w
  | call_list_users_with_stale_credentials days =>
      list_users_with_stale_credentials w now days
  | call_list_users_with_admin_access => list_users_with_admin_access w
  | call_list_iam_roles path_prefix => list_iam_roles w path_prefix
  | call_get_role_trust_policy role_name => get_role_trust_policy w role_name
  | call_list_access_keys username => list_access_keys w now username
  | call_list_ecs_clusters => list_ecs_clusters w
  | call_list_ecs_services cluster_name => list_ecs_services w cluster_name
  | call_get_ecs_service_status cluster_name service_name =>
      get_ecs_service_status w cluster_name service_name
  | call_list_ecs_tasks cluster_name service_name =>
      list_ecs_tasks w cluster_name service_name
  | call_describe_task_definition task_definition =>
      describe_task_definition w task_definition
  | call_list_fargate_retirements days => list_fargate_retirements w now days
  | call_list_s3_buckets => list_s3_buckets w
  | call_get_bucket_size bucket_name => get_bucket_size w bucket_name
  | call_check_bucket_public_access bucket_name =>
      check_bucket_public_access w bucket_name
  | call_find_object object_name exact_match =>
      find_object w object_name exact_match
  | call_get_bucket_encryption bucket_name => get_bucket_encryption w bucket_name
  | call_list_lambda_functions region => list_lambda_functions w region
  | call_find_deprecated_runtimes include_approaching_eol =>
      find_deprecated_runtimes w include_approaching_eol
  | call_get_lambda_function function_name => get_lambda_function w function_name
  | call_list_lambda_runtimes => list_lambda_runtimes
  end.

(** The keys of each tool's success envelopes, read off its [return]
    statements. *)
Definition success_fields (c : invocation) : list string :=
  match c with
  | call_list_iam_users => ["user_count"; "users"]
  | call_list_users_with_stale_credentials _ =>
      ["threshold_days"; "stale_credential_count"; "users"]
  | call_list_users_with_admin_access => ["admin_user_count"; "users"]
  | call_list_iam_roles _ => ["role_count"; "roles"]
  | call_get_role_trust_policy _ => ["role_name"; "trust_policy"]
  | call_list_access_keys _ => ["key_count"; "access_keys"]
  | call_list_ecs_clusters => ["cluster_count"; "clusters"]
  | call_list_ecs_services _ => ["cluster"; "service_count"; "services"]
  | call_get_ecs_service_status _ _ =>
      ["cluster"; "service_name"; "status"; "desired_count"; "running_count";
       "pending_count"; "launch_type"; "task_definition"; "deployments";
       "recent_events"]
  | call_list_ecs_tasks _ _ => ["cluster"; "task_count"; "tasks"]
  | call_describe_task_definition _ =>
      ["family"; "revision"; "status"; "task_role"; "execution_role";
       "network_mode"; "cpu"; "memory"; "containers"]
  | call_list_fargate_retirements _ =>
      ["days_checked"; "retirement_count"; "message"; "retirements_by_cluster";
       "retirements"]
  | call_list_s3_buckets => ["bucket_count"; "buckets"]
  | call_get_bucket_size _ =>
      ["bucket"; "object_count"; "total_size_bytes"; "total_size_human"]
  | call_check_bucket_public_access _ =>
      ["buckets_checked"; "potentially_public_count"; "buckets"]
  | call_find_object _ _ =>
      ["search_term"; "exact_match"; "match_count"; "truncated"; "message";
       "buckets_searched"; "buckets_with_errors"; "matches"]
  | call_get_bucket_encryption _ =>
      ["buckets_checked"; "encrypted_count"; "unencrypted_count";
       "unencrypted_buckets"; "buckets"]
  | call_list_lambda_functions _ => ["function_count"; "functions"]
  | call_find_deprecated_runtimes _ =>
      ["total_functions_scanned"; "deprecated_count"; "deprecated_functions";
       "approaching_eol_count"; "approaching_eol_functions";
       "deprecated_runtime_summary"]
  | call_get_lambda_function _ =>
      ["name"; "arn"; "runtime"; "deprecation_info"; "handler"; "role";
       "memory_mb"; "timeout_seconds"; "code_size_mb"; "last_modified";
       "description"; "state"; "architectures"; "environment_variables";
       "vpc_config"; "layers"; "tags"]
  | call_list_lambda_runtimes =>
      ["supported_runtimes"; "approaching_eol"; "deprecated_runtimes";
       "recommendation"]
  end.

(** ** tools/__init__.py: the client cache

    [_clients] maps a service name to the client created for it.  A
    client object is identified by the service it talks to and by its
    serial number, the number of clients [boto3.client] had created
    before it.  [boto3_client] tells for which services a client can be
    created; for the others [boto3.client] raises and nothing is stored. *)

Record Handle : Type := { handle_service : string; handle_serial : nat }.

Record Clients : Type :=
  { _clients : list (string * Handle);
    clients_created : nat }.

Definition no_clients : Clients := {| _clients := []; clients_created := 0 |}.

(** [None] stands for the exception of [boto3.client]. *)
Definition get_client (boto3_client : string -> bool) (service_name : string)
    (st : Clients) : option Handle * Clients :=
  match assoc service_name (_clients st) with
  | Some client => (Some client, st)
  | None =>
      if boto3_client service_name then
        let client := {| handle_service := service_name;
                         handle_serial := clients_created st |} in
        (Some client,
         {| _clients := dict_set service_name client (_clients st);
            clients_created := S (clients_created st) |})
      else (None, st)
  end.

(** A sequence of [get_client] calls: the clients handed out, in order,
    and the cache at the end. *)
Fixpoint get_clients (boto3_client : string -> bool) (names : list string)
    (st : Clients) : list (option Handle) * Clients :=
  match names with
  | [] => ([], st)
  | name :: names' =>
      let (client, st1) := get_client boto3_client name st in
      let (clients, st2) := get_clients boto3_client names' st1 in
      (client :: clients, st2)
  end.

(** ** Exceptions the tools do not catch

    Inside its [try] a tool catches botocore's [ClientError] and nothing
    else, so an exception of another class leaves the tool and no
    envelope is returned.  Three places can raise one.
    - The creation of the client, which comes before the [try]:
      [get_client(service)] in every tool but three.
      [list_lambda_functions] with a region calls
      [boto3.client("lambda", region_name=region)], also before its
      [try]; [list_fargate_retirements] creates its client inside
      [try ... except Exception], which is [health_client_failure];
      [list_lambda_runtimes] creates none.
    - A request that raises an exception of another class: botocore
      refuses its parameters before sending ([ParamValidationError], as
      for an empty bucket name), or the credentials or the connection
      fail.
    - The window arithmetic of [list_fargate_retirements],
      [now + timedelta(days=days)], which comes after the creation of the
      client and before the [try]: [timedelta] raises [OverflowError]
      beyond 999999999 days, and so does the sum when it leaves the years
      1 to 9999. *)

(** [client_fails service region] tells that the creation of the client
    raises; [request_escapes o] that the request [o] raises an exception
    that is not a [ClientError]. *)
Record Hazards : Type :=
  { client_fails : string -> option string -> bool;
    request_escapes : op -> bool }.

Definition no_hazards : Hazards :=
  {| client_fails := fun _ _ => false; request_escapes := fun _ => false |}.

(** The client a tool creates before its [try]: the service and the
    region given, if any. *)
Definition client_of (c : invocation) : option (string * option string) :=
  match c with
  | call_list_iam_users
  | call_list_users_with_stale_credentials _
  | call_list_users_with_admin_access
  | call_list_iam_roles _
  | call_get_role_trust_policy _
  | call_list_access_keys _ => Some ("iam", None)
  | call_list_ecs_clusters
  | call_list_ecs_services _
  | call_get_ecs_service_status _ _
  | call_list_ecs_tasks _ _
  | call_describe_task_definition _ => Some ("ecs", None)
  | call_list_fargate_retirements _ => None
  | call_list_s3_buckets
  | call_get_bucket_size _
  | call_check_bucket_public_access _
  | call_find_object _ _
  | call_get_bucket_encryption _ => Some ("s3", None)
  | call_list_lambda_functions region =>
      Some ("lambda", if truthy region then region else None)
  | call_find_deprecated_runtimes _
  | call_get_lambda_function _ => Some ("lambda", None)
  | call_list_lambda_runtimes => None
  end.

(** [timedelta.max.days], and the instants of [datetime.min] and
    [datetime.max] in microseconds since the epoch. *)
Definition timedelta_max_days : Z := 999999999.

Definition datetime_min_instant : Z := - 62135596800 * 1000000.

Definition datetime_max_instant : Z := 253402300799 * 1000000 + 999999.

(** [now + timedelta(days=days)] raises [OverflowError]. *)
Definition window_overflows (now : datetime) (days : Z) : bool :=
  orb (timedelta_max_days <? Z.abs days)
      (orb (plus_days now days <? datetime_min_instant)
           (datetime_max_instant <? plus_days now days)).

(** An exception leaves the tool: the client cannot be created, the
    window overflows, or one of the requests of the run raises an
    exception that is not a [ClientError].  The run up to the first such
    request is the run [invoke] describes, so the request is among the
    calls of [invoke]. *)
Definition escapes (hz : Hazards) (w : Provider) (now : datetime)
    (c : invocation) : bool :=
  orb match client_of c with
      | Some (service, region) => client_fails hz service region
      | None => false
      end
      (orb match c with
           | call_list_fargate_retirements days =>
               match health_client_failure w with
               | Some _ => false
               | None => window_overflows now days
               end
           | _ => false
           end
           (existsb (fun ev => request_escapes hz (ev_op ev))
                    (calls (invoke w now c)))).

(** What the caller of a tool receives: the envelope, or nothing when an
    exception left the tool. *)
Definition returned_envelope (hz : Hazards) (w : Provider) (now : datetime)
    (c : invocation) : option value :=
  if escapes hz w now c then None else envelope (invoke w now c).

(** botocore refuses an empty bucket name before sending anything. *)
Definition refuses_empty_bucket : Hazards :=
  {| client_fails := fun _ _ => false;
     request_escapes :=
       fun o =>
         match o with
         | ListObjectsV2 bucket _
         | GetBucketLocation bucket
         | GetPublicAccessBlock bucket
         | GetBucketEncryption bucket => String.eqb bucket ""
         | _ => false
         end |}.

(** No client can be created: there are no credentials or no region. *)
Definition no_clients_available : Hazards :=
  {| client_fails := fun _ _ => true; request_escapes := fun _ => false |}.

(** * Specification vocabulary *)

Unset Implicit Arguments.

(** A string of the form [<integer>.<d1><d2> <unit>] whose number is the
    two-place decimal nearest to [num / den]. *)
Definition two_place_rendering (s unit : string) (num den : Z) : Prop :=
  exists ip d1 d2 : Z,
    0 <= ip /\ 0 <= d1 <= 9 /\ 0 <= d2 <= 9 /\
    s = string_of_Z ip ++ "."
          ++ String (digit_char d1) (String (digit_char d2) EmptyString)
          ++ " " ++ unit /\
    2 * Z.abs ((100 * ip + 10 * d1 + d2) * den - 100 * num) <= den.


(** The trace of a paginator whose page body issues no request: one fetch
    per page, then the failing fetch if there is one. *)
Fixpoint page_events (fetch : nat -> op) (i : nat) (n : nat)
    (failure : option ClientError) : trace :=
  match n with
  | O => match failure with
         | None => []
         | Some e => [{| ev_op := fetch i; ev_error := Some e |}]
         end
  | S n' => {| ev_op := fetch i; ev_error := None |}
            :: page_events fetch (S i) n' failure
  end.


(** *** Providers for examples *)

Definition one_page {A : Type} (page : A) : paginator A :=
  {| pg_pages := [page]; pg_failure := None |}.

Definition client_error (code message : string) : ClientError :=
  {| err_code := code;
     err_text := "An error occurred (" ++ code ++ "): " ++ message |}.

Definition at_day (d : Z) (text : string) : datetime :=
  {| instant := d * microseconds_per_day; isoformat := text |}.

(** An account with nothing in it. *)
Definition quiet_iam : IamClient :=
  {| iam_list_users := one_page [];
     iam_list_access_keys := fun _ => Ok [];
     iam_list_attached_user_policies := fun _ => Ok [];
     iam_list_groups_for_user := fun _ => Ok [];
     iam_list_attached_group_policies := fun _ => Ok [];
     iam_list_roles := fun _ => one_page [];
     iam_get_role := fun _ => Err (client_error "NoSuchEntity" "no such role");
     iam_get_access_key_last_used := fun _ => Ok None |}.

Definition quiet_ecs : EcsClient :=
  {| ecs_list_clusters := one_page [];
     ecs_describe_clusters := fun _ => Ok [];
     ecs_list_services := fun _ => one_page [];
     ecs_describe_services := fun _ _ => Ok [];
     ecs_list_tasks := fun _ _ => one_page [];
     ecs_describe_tasks := fun _ _ => Ok [];
     ecs_describe_task_definition :=
       fun _ => Err (client_error "ClientException" "no such task definition") |}.

Definition quiet_health : HealthClient :=
  {| health_describe_events := one_page [];
     health_describe_affected_entities := fun _ => Ok None |}.

Definition quiet_s3 : S3Client :=
  {| s3_list_buckets := Ok [];
     s3_get_bucket_location := fun _ => Ok None;
     s3_list_objects_v2 := fun _ => one_page {| Contents := None |};
     s3_get_public_access_block :=
       fun _ => Err (client_error "NoSuchPublicAccessBlockConfiguration"
                                  "no configuration");
     s3_get_bucket_encryption :=
       fun _ => Ok {| ServerSideEncryptionConfiguration := None |} |}.

Definition quiet_lambda : LambdaClient :=
  {| lambda_list_functions := fun _ => one_page [];
     lambda_get_function :=
       fun _ => Err (client_error "ResourceNotFoundException" "no such function") |}.

Definition quiet_provider : Provider :=
  {| iam := quiet_iam; ecs := quiet_ecs; health_client_failure := None;
     health := quiet_health; s3 := quiet_s3; lambda := quiet_lambda |}.

(** Accounts that differ from the quiet one in a single service. *)
Definition iam_account (client : IamClient) : Provider :=
  {| iam := client; ecs := quiet_ecs; health_client_failure := None;
     health := quiet_health; s3 := quiet_s3; lambda := quiet_lambda |}.

Definition ecs_account (client : EcsClient) : Provider :=
  {| iam := quiet_iam; ecs := client; health_client_failure := None;
     health := quiet_health; s3 := quiet_s3; lambda := quiet_lambda |}.

Definition health_account (client : HealthClient) : Provider :=
  {| iam := quiet_iam; ecs := quiet_ecs; health_client_failure := None;
     health := client; s3 := quiet_s3; lambda := quiet_lambda |}.

Definition s3_account (client : S3Client) : Provider :=
  {| iam := quiet_iam; ecs := quiet_ecs; health_client_failure := None;
     health := quiet_health; s3 := client; lambda := quiet_lambda |}.

(** ** Stale credentials *)

Definition all_users (w : Provider) : list User :=
  List.concat (pg_pages (iam_list_users (iam w))).

(** The [users] list of a tool's envelope. *)
Definition users_field (m : M value) : option value :=
  match envelope m with
  | Some env => field "users" env
  | None => None
  end.

Definition access_keys_of (w : Provider) (user : User) : list AccessKeyMetadata :=
  match iam_list_access_keys (iam w) (UserName user) with
  | Ok keys => keys
  | Err _ => []
  end.

Definition stale_entries_of (w : Provider) (now : datetime) (days : Z)
    (user : User) : list value :=
  map (stale_entry now (UserName user))
      (filter (fun key => days <? key_age now key) (access_keys_of w user)).

(** The scenario of the specification: three users, A with a key created
    91 days ago, B with a key created 90 days ago, C without keys. *)
Definition scenario_now : datetime := at_day 20000 "2024-10-04T00:00:00+00:00".

Definition scenario_user (name : string) : User :=
  {| UserName := name; UserId := "AIDA" ++ name;
     user_CreateDate := at_day 19000 "2022-01-08T00:00:00+00:00";
     PasswordLastUsed := None |}.

Definition scenario_key (id : string) (age : Z) (created : string)
  : AccessKeyMetadata :=
  {| AccessKeyId := id; key_Status := "Active";
     key_CreateDate := at_day (20000 - age) created |}.

Definition stale_scenario : Provider :=
  iam_account
    {| iam_list_users :=
         one_page [scenario_user "A"; scenario_user "B"; scenario_user "C"];
       iam_list_access_keys :=
         fun username =>
           if String.eqb username "A"
           then Ok [scenario_key "AKIA-A" 91 "2024-07-05T00:00:00+00:00"]
           else if String.eqb username "B"
           then Ok [scenario_key "AKIA-B" 90 "2024-07-06T00:00:00+00:00"]
           else Ok [];
       iam_list_attached_user_policies := iam_list_attached_user_policies quiet_iam;
       iam_list_groups_for_user := iam_list_groups_for_user quiet_iam;
       iam_list_attached_group_policies := iam_list_attached_group_policies quiet_iam;
       iam_list_roles := iam_list_roles quiet_iam;
       iam_get_role := iam_get_role quiet_iam;
       iam_get_access_key_last_used := iam_get_access_key_last_used quiet_iam |}.

(** ** Administrator access *)

Definition is_admin_policy (policy : AttachedPolicy) : bool :=
  String.eqb (PolicyArn policy) admin_policy_arn.

Definition attached_policies_of (w : Provider) (user : User) : list AttachedPolicy :=
  match iam_list_attached_user_policies (iam w) (UserName user) with
  | Ok policies => policies
  | Err _ => []
  end.

Definition groups_of (w : Provider) (user : User) : list Group :=
  match iam_list_groups_for_user (iam w) (UserName user) with
  | Ok groups => groups
  | Err _ => []
  end.

Definition group_policies_of (w : Provider) (group : Group) : list AttachedPolicy :=
  match iam_list_attached_group_policies (iam w) (GroupName group) with
  | Ok policies => policies
  | Err _ => []
  end.

(** One tag per attachment of the administrator policy to the user. *)
Definition direct_sources (w : Provider) (user : User) : list string :=
  map (fun _ => "direct_attachment")
      (filter is_admin_policy (attached_policies_of w user)).

(** One tag per attachment of the administrator policy to a group of the
    user. *)
Definition sources_of_group (w : Provider) (group : Group) : list string :=
  map (fun _ => "group:" ++ GroupName group)
      (filter is_admin_policy (group_policies_of w group)).

Definition group_sources (w : Provider) (user : User) : list string :=
  flat_map (sources_of_group w) (groups_of w user).

Definition admin_sources (w : Provider) (user : User) : list string :=
  (direct_sources w user ++ group_sources w user)%list.

Definition admin_entry (username : string) (sources : list string) : value :=
  VDict [("username", VStr username); ("admin_source", VStrs sources)].

Definition nonempty {A : Type} (l : list A) : bool :=
  match l with [] => false | _ => true end.

Definition admin_entries_of (w : Provider) (user : User) : list value :=
  if nonempty (admin_sources w user)
  then [admin_entry (UserName user) (admin_sources w user)]
  else [].

(** What one group adds to the loop state [(has_admin, admin_source)]. *)
Definition group_step (w : Provider) (group : Group) (st : bool * list string)
  : bool * list string :=
  (orb (fst st) (existsb is_admin_policy (group_policies_of w group)),
   (snd st ++ sources_of_group w group)%list).

(** The entries of a [users] list that are about [username]. *)
Definition entries_for (username : string) (users : list value) : list value :=
  filter (fun entry =>
            match field "username" entry with
            | Some (VStr u) => String.eqb u username
            | _ => false
            end)
         users.

(** A user who is an administrator three times over: directly, and through
    the groups [admins] and [ops]; a second user who is not. *)
Definition admin_scenario : Provider :=
  iam_account
    {| iam_list_users := one_page [scenario_user "root-like"; scenario_user "plain"];
       iam_list_access_keys := iam_list_access_keys quiet_iam;
       iam_list_attached_user_policies :=
         fun username =>
           if String.eqb username "root-like"
           then Ok [{| PolicyArn := "arn:aws:iam::aws:policy/ReadOnlyAccess" |};
                    {| PolicyArn := admin_policy_arn |}]
           else Ok [{| PolicyArn := "arn:aws:iam::aws:policy/ReadOnlyAccess" |}];
       iam_list_groups_for_user :=
         fun username =>
           if String.eqb username "root-like"
           then Ok [{| GroupName := "admins" |}; {| GroupName := "devs" |};
                    {| GroupName := "ops" |}]
           else Ok [{| GroupName := "devs" |}];
       iam_list_attached_group_policies :=
         fun group =>
           if String.eqb group "devs"
           then Ok [{| PolicyArn := "arn:aws:iam::aws:policy/PowerUserAccess" |}]
           else Ok [{| PolicyArn := admin_policy_arn |}];
       iam_list_roles := iam_list_roles quiet_iam;
       iam_get_role := iam_get_role quiet_iam;
       iam_get_access_key_last_used := iam_get_access_key_last_used quiet_iam |}.

(** ** Batched describe *)

(** The chunks the describe loops cut a list of identifiers into. *)
Definition batches {A : Type} (size : nat) (l : list A) : list (list A) :=
  map (fun i => slice l i (i + size)) (py_range 0 (List.length l) size).




Definition service_arns (w : Provider) (cluster : string) : list string :=
  List.concat (pg_pages (ecs_list_services (ecs w) cluster)).

Definition task_arns (w : Provider) (cluster : string) (service : option string)
  : list string :=
  List.concat (pg_pages (ecs_list_tasks (ecs w) cluster service)).

Definition answer_of {A B : Type} (oracle : A -> response (list B)) (a : A)
  : list B :=
  match oracle a with
  | Ok l => l
  | Err _ => []
  end.

(** The list under key [k] of a tool's envelope. *)
Definition list_field (k : string) (m : M value) : option (list value) :=
  match envelope m with
  | Some env =>
      match field k env with
      | Some (VList l) => Some l
      | _ => None
      end
  | None => None
  end.


(** The [serviceName] filter [list_ecs_tasks] passes on: none when the
    argument is missing or empty. *)
Definition task_filter (service_name : option string) : option string :=
  if truthy service_name then service_name else None.

(** A cluster with twelve services, described one record per ARN. *)
Definition twelve_arns : list string :=
  ["svc-01"; "svc-02"; "svc-03"; "svc-04"; "svc-05"; "svc-06";
   "svc-07"; "svc-08"; "svc-09"; "svc-10"; "svc-11"; "svc-12"].

Definition service_detail (arn : string) : Service :=
  {| serviceName := arn; service_status := "ACTIVE";
     desiredCount := 1; runningCount := 1; pendingCount := 0;
     service_launchType := Some "FARGATE";
     taskDefinition := "arn:aws:ecs:task-definition/" ++ arn ++ ":1";
     deployments := None; events := None |}.


(** ** Public access check *)

Definition unchecked (name : string) : BucketInfo :=
  {| info_bucket := name; public_access_blocked := true; issues := [] |}.

(** What the per-bucket check reports for [name]. *)
Definition check_of (w : Provider) (name : string) : BucketInfo :=
  match s3_get_public_access_block (s3 w) name with
  | Ok config => check_config config (unchecked name)
  | Err e => check_failed e (unchecked name)
  end.

Definition setting_on (setting : option bool) : bool :=
  match setting with Some b => b | None => false end.

(** A bucket counts as potentially public when one of the four settings is
    off or missing, or when the lookup failed because no configuration
    exists. *)
Definition potentially_public (w : Provider) (name : string) : bool :=
  match s3_get_public_access_block (s3 w) name with
  | Ok config =>
      negb (andb (andb (setting_on (BlockPublicAcls config))
                       (setting_on (IgnorePublicAcls config)))
                 (andb (setting_on (BlockPublicPolicy config))
                       (setting_on (RestrictPublicBuckets config))))
  | Err e => contains "NoSuchPublicAccessBlockConfiguration" (err_text e)
  end.

Definition access_denied : ClientError :=
  {| err_code := "AccessDenied";
     err_text := "An error occurred (AccessDenied) when calling the GetPublicAccessBlock operation: Access Denied" |}.

(** One bucket whose public-access-block lookup is denied. *)
Definition denied_bucket : Provider :=
  s3_account
    {| s3_list_buckets :=
         Ok [{| bucket_Name := "logs";
                bucket_CreationDate := at_day 19000 "2022-01-08T00:00:00+00:00" |}];
       s3_get_bucket_location := s3_get_bucket_location quiet_s3;
       s3_list_objects_v2 := s3_list_objects_v2 quiet_s3;
       s3_get_public_access_block := fun _ => Err access_denied;
       s3_get_bucket_encryption := s3_get_bucket_encryption quiet_s3 |}.

(** ** Object search *)

Definition numbered_object (prefix : string) (n : nat) : S3Object :=
  {| Key := prefix ++ string_of_Z (Z.of_nat n);
     Size := 1024 * Z.of_nat n;
     LastModified := at_day 19500 "2023-05-23T00:00:00+00:00" |}.

Definition named_bucket (name : string) : Bucket :=
  {| bucket_Name := name;
     bucket_CreationDate := at_day 19000 "2022-01-08T00:00:00+00:00" |}.

(** An account with the buckets [names], listed in that order: [archive]
    holds sixty reports on two pages, [broken] cannot be listed, any other
    bucket holds one report. *)
Definition buckets_provider (names : list string) : Provider :=
  s3_account
    {| s3_list_buckets := Ok (map named_bucket names);
       s3_get_bucket_location := s3_get_bucket_location quiet_s3;
       s3_list_objects_v2 :=
         fun bucket =>
           if String.eqb bucket "archive" then
             {| pg_pages :=
                  [{| Contents := Some (map (numbered_object "Report-") (seq 0 55)) |};
                   {| Contents := Some (map (numbered_object "Report-") (seq 55 5)) |}];
                pg_failure := None |}
           else if String.eqb bucket "broken" then
             {| pg_pages := []; pg_failure := Some access_denied |}
           else one_page {| Contents := Some [numbered_object "report-" 7] |};
       s3_get_public_access_block := s3_get_public_access_block quiet_s3;
       s3_get_bucket_encryption := s3_get_bucket_encryption quiet_s3 |}.

Definition three_buckets : Provider :=
  buckets_provider ["archive"; "broken"; "current"].


(** ** Envelopes *)

(** The discriminator invariant: the envelope has the [error] key and none
    of the tool's success fields, or it lacks the [error] key and has at
    least one of them. *)
Definition discriminated (fields : list string) (env : value) : Prop :=
  (has_field "error" env = true /\
   forall k, In k fields -> has_field k env = false) \/
  (has_field "error" env = false /\
   exists k, In k fields /\ has_field k env = true).

Definition mem (k : string) (l : list string) : bool :=
  existsb (String.eqb k) l.

Fixpoint same_keys (l1 l2 : list string) : bool :=
  match l1, l2 with
  | [], [] => true
  | k1 :: l1', k2 :: l2' => andb (String.eqb k1 k2) (same_keys l1' l2')
  | _, _ => false
  end.

(** An error envelope: the key [error], possibly followed by [suggestion]. *)
Definition error_shaped (env : value) : bool :=
  match env with
  | VDict d => orb (same_keys (keys d) ["error"])
                   (same_keys (keys d) ["error"; "suggestion"])
  | _ => false
  end.

(** A success envelope: a non-empty dictionary whose keys are success
    fields. *)
Definition success_shaped (fields : list string) (env : value) : bool :=
  match env with
  | VDict d => andb (nonempty d) (forallb (fun k => mem k fields) (keys d))
  | _ => false
  end.

Definition shaped (fields : list string) (env : value) : bool :=
  orb (error_shaped env) (success_shaped fields env).

(** ** Traces of failures *)

(** An event is quiet for a tool when its request succeeded, or when the
    tool handles failures of that operation item by item. *)
Definition quiet (per_item : op -> bool) (ev : event) : Prop :=
  ev_error ev = None \/ per_item (ev_op ev) = true.

(** The behaviour of a computation with respect to failures: a result
    satisfying [Q] after a trace of quiet events, or an exception, which
    is the error of the last request made, after quiet events. *)
Definition behaves {A : Type} (per_item : op -> bool) (m : M A)
    (Q : A -> Prop) : Prop :=
  match m with
  | (t, Returned a) => Q a /\ Forall (quiet per_item) t
  | (t, Raised e) =>
      exists t0 o,
        t = (t0 ++ [{| ev_op := o; ev_error := Some e |}])%list /\
        Forall (quiet per_item) t0
  end.

(** The operations whose failures a tool handles per item. *)
Definition per_item (c : invocation) (o : op) : bool :=
  match c, o with
  | call_list_fargate_retirements _, DescribeAffectedEntities _ => true
  | call_list_s3_buckets, GetBucketLocation _ => true
  | call_check_bucket_public_access _, GetPublicAccessBlock _ => true
  | call_find_object _ _, ListObjectsV2 _ _ => true
  | call_get_bucket_encryption _, GetBucketEncryption _ => true
  | _, _ => false
  end.

(** A complete tool run is governed when it returns an envelope of the
    right shape and every failure in its trace that the tool does not
    handle per item is the error of that envelope: the generic error
    envelope or, for the entitlement error, the envelope with a
    suggestion. *)
Definition governed (per_item : op -> bool) (fields : list string)
    (run : M value) : Prop :=
  exists env,
    snd run = Returned env /\
    shaped fields env = true /\
    forall ev e,
      In ev (calls run) -> ev_error ev = Some e -> per_item (ev_op ev) = false ->
      env = error_envelope e \/
      (env = entitlement_envelope /\
       err_code e = "SubscriptionRequiredException").

(** ** The maintenance-event query *)

Definition subscription_required : ClientError :=
  {| err_code := "SubscriptionRequiredException";
     err_text := "An error occurred (SubscriptionRequiredException) when calling the DescribeAffectedEntities operation: " |}.

Definition throttled : ClientError :=
  {| err_code := "ThrottlingException";
     err_text := "An error occurred (ThrottlingException) when calling the DescribeAffectedEntities operation: Rate exceeded" |}.

Definition retirement_event : HealthEvent :=
  {| event_arn := "arn:aws:health:us-east-1::event/ECS/AWS_ECS_TASK_PATCHING_RETIREMENT/1";
     eventTypeCode := Some "AWS_ECS_TASK_PATCHING_RETIREMENT";
     startTime := Some (at_day 20005 "2024-10-09T00:00:00+00:00");
     endTime := None |}.

(** One scheduled event in the window; the lookup of its affected
    entities fails with [e]. *)
Definition lookup_fails (e : ClientError) : Provider :=
  health_account
    {| health_describe_events := one_page [retirement_event];
       health_describe_affected_entities := fun _ => Err e |}.

(** The event listing fails with [e] on its first fetch. *)
Definition listing_fails (e : ClientError) : Provider :=
  health_account
    {| health_describe_events := {| pg_pages := []; pg_failure := Some e |};
       health_describe_affected_entities :=
         health_describe_affected_entities quiet_health |}.

(** The event is in the window that ends at [end_time]. *)
Definition in_window (end_time : Z) (event : HealthEvent) : bool :=
  match startTime event with
  | Some event_start => instant event_start <=? end_time
  | None => false
  end.

(** ** Failures surfacing in the envelope *)



(** What [get_bucket_encryption] reports for a bucket. *)
Definition encryption_info_of (w : Provider) (name : string) : EncryptionInfo :=
  match s3_get_bucket_encryption (s3 w) name with
  | Ok encryption => encryption_of name encryption
  | Err e => encryption_failed name e
  end.

(** The event of a request and its answer. *)
Definition answered {A : Type} (o : op) (r : response A) : event :=
  {| ev_op := o;
     ev_error := match r with Ok _ => None | Err e => Some e end |}.


(** One scheduled Fargate event that affects three tasks in two clusters. *)
Definition fargate_event : HealthEvent :=
  {| event_arn := "arn:aws:health:us-east-1::event/ECS/AWS_ECS_FARGATE_RETIREMENT/2";
     eventTypeCode := Some "AWS_ECS_FARGATE_RETIREMENT";
     startTime := Some (at_day 20005 "2024-10-09T00:00:00+00:00");
     endTime := None |}.

Definition affected_task (cluster id : string) : AffectedEntity :=
  {| entityValue :=
       Some ("arn:aws:ecs:us-east-1:123456789012:task/" ++ cluster ++ "/" ++ id);
     statusCode := Some "PENDING" |}.

Definition three_retirements : Provider :=
  health_account
    {| health_describe_events := one_page [fargate_event];
       health_describe_affected_entities :=
         fun _ => Ok (Some [affected_task "prod" "t1"; affected_task "staging" "t2";
                            affected_task "prod" "t3"]) |}.

Definition retirement_of_task (cluster id : string) : value :=
  VDict [("task_arn",
          VStr ("arn:aws:ecs:us-east-1:123456789012:task/" ++ cluster ++ "/" ++ id));
         ("event_type", VStr "AWS_ECS_FARGATE_RETIREMENT");
         ("status", VStr "PENDING");
         ("scheduled_start", VStr "2024-10-09T00:00:00+00:00");
         ("scheduled_end", VNone);
         ("description", VStr "Aws Ecs Fargate Retirement")].

(** ** Vocabulary of the further properties *)

(** [sep.join(parts)] for a one-character separator. *)
Definition join (sep : ascii) (parts : list string) : string :=
  String.concat (String sep EmptyString) parts.

(** [sep not in s] *)
Fixpoint free_of (sep : ascii) (s : string) : bool :=
  match s with
  | EmptyString => true
  | String c s' => andb (negb (Ascii.eqb c sep)) (free_of sep s')
  end.

(** The number of occurrences of a character. *)
Fixpoint occurrences (sep : ascii) (s : string) : nat :=
  match s with
  | EmptyString => 0
  | String c s' => (if Ascii.eqb c sep then 1 else 0) + occurrences sep s'
  end.

(** The text has ASCII characters only.  On such text [lower] is
    [str.lower]: Python folds the letters A to Z and leaves every other
    ASCII character as it is.  Beyond ASCII [str.lower] folds further
    letters, which [lower] leaves as they are. *)
Fixpoint ascii_only (s : string) : bool :=
  match s with
  | EmptyString => true
  | String c s' => andb (Nat.ltb (nat_of_ascii c) 128) (ascii_only s')
  end.

(** The distinct names of a list, in order of first occurrence. *)
Fixpoint distinct (names : list string) : list string :=
  match names with
  | [] => []
  | name :: names' =>
      name :: filter (fun n => negb (String.eqb n name)) (distinct names')
  end.

(** ** IAM listings *)

(** What [list_iam_users] reports for a user. *)
Definition user_entry (user : User) : value :=
  VDict [("username", VStr (UserName user));
         ("user_id", VStr (UserId user));
         ("created", VStr (isoformat (user_CreateDate user)));
         ("password_last_used", iso_or "Never" (PasswordLastUsed user))].

Definition all_roles (w : Provider) (path_prefix : string) : list Role :=
  List.concat (pg_pages (iam_list_roles (iam w) path_prefix)).

(** What [list_iam_roles] reports for a role. *)
Definition role_entry (role : Role) : value :=
  VDict [("role_name", VStr (RoleName role));
         ("role_id", VStr (RoleId role));
         ("path", VStr (role_Path role));
         ("created", VStr (isoformat (role_CreateDate role)));
         ("description", str_or "" (role_Description role))].

(** The access keys the provider lists for a user name; none when the
    listing fails. *)
Definition keys_of_name (w : Provider) (username : string)
  : list AccessKeyMetadata :=
  match iam_list_access_keys (iam w) username with
  | Ok keys => keys
  | Err _ => []
  end.

(** The request is the last-used lookup of one of [keys]. *)
Definition last_used_lookup (keys : list AccessKeyMetadata) (ev : event) : Prop :=
  exists key, In key keys /\ ev_op ev = GetAccessKeyLastUsed (AccessKeyId key).

(** What [list_access_keys] reports for a key of [username]. *)
Definition key_entry (w : Provider) (now : datetime) (username : string)
    (key : AccessKeyMetadata) : value :=
  let last_used :=
    match iam_get_access_key_last_used (iam w) (AccessKeyId key) with
    | Ok (Some lu) => lu
    | _ => {| LastUsedDate := None; ServiceName := None |}
    end in
  VDict [("username", VStr username);
         ("access_key_id", VStr (AccessKeyId key));
         ("status", VStr (key_Status key));
         ("created", VStr (isoformat (key_CreateDate key)));
         ("age_days", VInt (key_age now key));
         ("last_used", iso_or "Never" (LastUsedDate last_used));
         ("last_used_service", str_or "N/A" (ServiceName last_used))].

(** ** ECS *)

Definition cluster_arns (w : Provider) : list string :=
  List.concat (pg_pages (ecs_list_clusters (ecs w))).

(** The event of a request that succeeded, and of one that failed. *)
Definition succeeded (o : op) : event := {| ev_op := o; ev_error := None |}.

Definition failed_with (e : ClientError) (o : op) : event :=
  {| ev_op := o; ev_error := Some e |}.

(** Twelve services and a hundred and two tasks; a describe request is
    answered for a full batch and throttled for a shorter one. *)
Definition numbered_arns (prefix : string) (n : nat) : list string :=
  map (fun i => prefix ++ string_of_Z (Z.of_nat i)) (seq 0 n).

Definition task_detail (arn : string) : Task :=
  {| taskArn := "arn:aws:ecs:us-east-1:123456789012:task/prod/" ++ arn;
     taskDefinitionArn := "arn:aws:ecs:task-definition/web:1";
     lastStatus := "RUNNING"; healthStatus := None; task_launchType := None;
     task_cpu := None; task_memory := None; startedAt := None |}.

Definition short_batch_throttled : Provider :=
  ecs_account
    {| ecs_list_clusters := ecs_list_clusters quiet_ecs;
       ecs_describe_clusters := ecs_describe_clusters quiet_ecs;
       ecs_list_services := fun _ => one_page twelve_arns;
       ecs_describe_services :=
         fun _ batch =>
           if Nat.eqb (List.length batch) 10
           then Ok (map service_detail batch) else Err throttled;
       ecs_list_tasks := fun _ _ => one_page (numbered_arns "task-" 102);
       ecs_describe_tasks :=
         fun _ batch =>
           if Nat.eqb (List.length batch) 100
           then Ok (map task_detail batch) else Err throttled;
       ecs_describe_task_definition := ecs_describe_task_definition quiet_ecs |}.

(** ** Scheduled retirements *)

(** The cluster [list_fargate_retirements] files a retirement under. *)
Definition cluster_of (r : Retirement) : string :=
  cluster_of_task_arn (ret_task_arn r).

Definition retirements_in (cluster : string) (retirements : list Retirement)
  : list Retirement :=
  filter (fun r => String.eqb (cluster_of r) cluster) retirements.

(** The number of entries of all groups together. *)
Definition grouped_count {A : Type} (groups : list (string * list A)) : nat :=
  List.length (List.concat (map snd groups)).

(** The scheduled events the provider lists that start before the end of
    the window. *)
Definition events_in_window (w : Provider) (now : datetime) (days : Z)
  : list HealthEvent :=
  filter (in_window (plus_days now days))
         (List.concat (pg_pages (health_describe_events (health w)))).

(** The retirements an event contributes: its Fargate entities, or none
    when the lookup of its entities fails. *)
Definition retirements_of (w : Provider) (event : HealthEvent)
  : list Retirement :=
  match health_describe_affected_entities (health w) (event_arn event) with
  | Ok affected =>
      map (retirement_of event)
          (filter (is_fargate_entity event) (or_empty affected))
  | Err _ => []
  end.

(** A service with seven events and two deployments, the only one its
    cluster describes. *)
Definition numbered_event (n : nat) : ServiceEvent :=
  {| sev_createdAt := at_day (20000 - Z.of_nat n) "2024-10-04T00:00:00+00:00";
     sev_message := "event " ++ string_of_Z (Z.of_nat n) |}.

Definition numbered_deployment (n : nat) : Deployment :=
  {| dep_id := "ecs-svc/" ++ string_of_Z (Z.of_nat n);
     dep_status := "PRIMARY";
     dep_desiredCount := 1; dep_runningCount := 1; dep_pendingCount := 0;
     dep_createdAt := at_day 19990 "2024-09-24T00:00:00+00:00";
     dep_taskDefinition := "arn:aws:ecs:task-definition/web:1" |}.

Definition busy_service : Service :=
  {| serviceName := "web"; service_status := "ACTIVE";
     desiredCount := 1; runningCount := 1; pendingCount := 0;
     service_launchType := None;
     taskDefinition := "arn:aws:ecs:task-definition/web:1";
     deployments := Some (map numbered_deployment (seq 0 2));
     events := Some (map numbered_event (seq 0 7)) |}.

Definition busy_cluster : Provider :=
  ecs_account
    {| ecs_list_clusters := ecs_list_clusters quiet_ecs;
       ecs_describe_clusters := ecs_describe_clusters quiet_ecs;
       ecs_list_services := ecs_list_services quiet_ecs;
       ecs_describe_services := fun _ _ => Ok [busy_service; service_detail "other"];
       ecs_list_tasks := ecs_list_tasks quiet_ecs;
       ecs_describe_tasks := ecs_describe_tasks quiet_ecs;
       ecs_describe_task_definition := ecs_describe_task_definition quiet_ecs |}.

(** ** S3 *)

(** The objects of the pages of a listing, in order; a page without
    [Contents] has none. *)
Definition contents_of (pages : list ObjectPage) : list S3Object :=
  flat_map (fun page => or_empty (Contents page)) pages.

Definition objects_listed (w : Provider) (bucket : string) : list S3Object :=
  contents_of (pg_pages (s3_list_objects_v2 (s3 w) bucket)).

Definition total_size (objects : list S3Object) : Z :=
  fold_right (fun obj n => Size obj + n) 0 objects.

(** The issues of a configuration: one per setting that is off or
    missing, in the order the settings are checked. *)
Definition issue_of (setting : option bool) (name : string) : list string :=
  if setting_on setting then [] else [name ++ " is disabled"].

Definition settings_off (config : PublicAccessBlockConfiguration)
  : list string :=
  (issue_of (BlockPublicAcls config) "BlockPublicAcls"
   ++ issue_of (IgnorePublicAcls config) "IgnorePublicAcls"
   ++ issue_of (BlockPublicPolicy config) "BlockPublicPolicy"
   ++ issue_of (RestrictPublicBuckets config) "RestrictPublicBuckets")%list.

Definition is_nil {A : Type} (l : list A) : bool :=
  match l with [] => true | _ => false end.

(** The three ways the encryption lookup of a bucket can end: with a
    rule, without one (no rule in the answer, or the error that says
    there is no configuration), or with another error. *)
Definition encrypted (w : Provider) (name : string) : bool :=
  match s3_get_bucket_encryption (s3 w) name with
  | Ok encryption => negb (is_nil (encryption_rules encryption))
  | Err _ => false
  end.

Definition unencrypted (w : Provider) (name : string) : bool :=
  match s3_get_bucket_encryption (s3 w) name with
  | Ok encryption => is_nil (encryption_rules encryption)
  | Err e =>
      contains "ServerSideEncryptionConfigurationNotFoundError" (err_text e)
  end.

Definition encryption_unknown (w : Provider) (name : string) : bool :=
  match s3_get_bucket_encryption (s3 w) name with
  | Ok _ => false
  | Err e =>
      negb (contains "ServerSideEncryptionConfigurationNotFoundError"
              (err_text e))
  end.



(** ** Lambda *)

(** The region [list_lambda_functions] creates its client for: none when
    the argument is missing or empty. *)
Definition client_region (region : option string) : option string :=
  if truthy region then region else None.

Definition all_functions (w : Provider) (region : option string)
  : list LambdaFunction :=
  List.concat (pg_pages (lambda_list_functions (lambda w) region)).

Definition is_deprecated (func : LambdaFunction) : bool :=
  has_key (runtime_or "" func) DEPRECATED_RUNTIMES.

Definition is_approaching_eol (func : LambdaFunction) : bool :=
  andb (negb (is_deprecated func))
       (has_key (runtime_or "" func) APPROACHING_EOL_RUNTIMES).

(** What [find_deprecated_runtimes] reports for a function whose runtime
    is in [table]. *)
Definition flagged_entry (table : list (string * string))
    (func : LambdaFunction) : value :=
  runtime_entry table (runtime_or "" func) func.

(** The number of times [rt] occurs in a list of runtimes. *)
Definition occurrences_of (rt : string) (runtimes : list string) : Z :=
  Z.of_nat (List.length (filter (String.eqb rt) runtimes)).

Definition sum_counts (summary : list (string * Z)) : Z :=
  fold_right (fun kv n => snd kv + n) 0 summary.

(** The order [list_lambda_functions] sorts by. *)
Definition summary_before (a b : FunctionSummary) : Prop :=
  summary_le a b = true.

(** The function [func] with other environment variables. *)
Definition with_variables (func : LambdaFunction)
    (variables : list (string * string)) : LambdaFunction :=
  {| FunctionName := FunctionName func;
     FunctionArn := FunctionArn func;
     Runtime := Runtime func;
     MemorySize := MemorySize func;
     Timeout := Timeout func;
     CodeSize := CodeSize func;
     fn_LastModified := fn_LastModified func;
     fn_Description := fn_Description func;
     Handler := Handler func;
     fn_Role := fn_Role func;
     fn_State := fn_State func;
     Architectures := Architectures func;
     Environment := Some (Some variables);
     VpcConfig := VpcConfig func;
     Layers := Layers func |}.

(** A function with two secrets in its environment, and the account that
    holds it. *)
Definition worker_function (variables : list (string * string))
  : LambdaFunction :=
  {| FunctionName := "worker";
     FunctionArn := "arn:aws:lambda:us-east-1:123456789012:function:worker";
     Runtime := Some "python3.12";
     MemorySize := Some 128; Timeout := Some 30; CodeSize := Some 1048576;
     fn_LastModified := None; fn_Description := None; Handler := None;
     fn_Role := Some "arn:aws:iam::123456789012:role/worker-role";
     fn_State := None; Architectures := None;
     Environment := Some (Some variables);
     VpcConfig := None; Layers := None |}.

Definition lambda_account (client : LambdaClient) : Provider :=
  {| iam := quiet_iam; ecs := quiet_ecs; health_client_failure := None;
     health := quiet_health; s3 := quiet_s3; lambda := client |}.

Definition worker_account (variables : list (string * string)) : Provider :=
  lambda_account
    {| lambda_list_functions := fun _ => one_page [worker_function variables];
       lambda_get_function :=
         fun _ => Ok {| Configuration := worker_function variables;
                        Tags := None |} |}.

(** Four functions on two pages: two on deprecated runtimes, one on a
    runtime approaching end of life, one on a supported runtime. *)
Definition runtime_function (name runtime : string) : LambdaFunction :=
  {| FunctionName := name;
     FunctionArn := "arn:aws:lambda:us-east-1:123456789012:function:" ++ name;
     Runtime := Some runtime;
     MemorySize := None; Timeout := None; CodeSize := None;
     fn_LastModified := None; fn_Description := None; Handler := None;
     fn_Role := None; fn_State := None; Architectures := None;
     Environment := None; VpcConfig := None; Layers := None |}.

Definition mixed_runtimes : Provider :=
  lambda_account
    {| lambda_list_functions :=
         fun _ =>
           {| pg_pages :=
                [[runtime_function "zeta" "python3.12";
                  runtime_function "beta" "python3.7"];
                 [runtime_function "alpha" "python3.9";
                  runtime_function "gamma" "python3.7"]];
              pg_failure := None |};
       lambda_get_function := lambda_get_function quiet_lambda |}.

(** ** Task definitions *)

(** The name [describe_task_definition] reports for a role: the last
    path segment of its ARN, or the text "None" when the task definition
    has no such role. *)
Definition role_name (arn : option string) : string :=
  match arn with
  | Some a => last_segment "/" a
  | None => "None"
  end.

Definition web_task_definition : TaskDefinition :=
  {| family := "web"; revision := 3; td_status := "ACTIVE";
     taskRoleArn := Some "arn:aws:iam::123456789012:role/service/web-task";
     executionRoleArn := None;
     networkMode := None; td_cpu := None; td_memory := None;
     containerDefinitions :=
       [{| container_name := "app"; image := "web:3";
           container_cpu := None; container_memory := None;
           memoryReservation := None; essential := None;
           portMappings := None |}] |}.

Definition web_task_account : Provider :=
  ecs_account
    {| ecs_list_clusters := ecs_list_clusters quiet_ecs;
       ecs_describe_clusters := ecs_describe_clusters quiet_ecs;
       ecs_list_services := ecs_list_services quiet_ecs;
       ecs_describe_services := ecs_describe_services quiet_ecs;
       ecs_list_tasks := ecs_list_tasks quiet_ecs;
       ecs_describe_tasks := ecs_describe_tasks quiet_ecs;
       ecs_describe_task_definition := fun _ => Ok web_task_definition |}.

(** * Properties *)

(** ** Reasoning about computations *)

Arguments bind : simpl never.
Arguments ret : simpl never.
Arguments request : simpl never.
Arguments try_except : simpl never.

Lemma outcome_bind {A B : Type} (m : M A) (f : A -> M B) :
  snd (bind m f) =
  match snd m with
  | Returned a => snd (f a)
  | Raised e => Raised e
  end.
Proof.
  unfold bind, calls. destruct m as [t [a|e]]; simpl; [|reflexivity].
  destruct (f a); reflexivity.
Qed.

Lemma bind_ret {A B : Type} (a : A) (f : A -> M B) : bind (ret a) f = f a.
Proof. unfold bind, ret. destruct (f a); reflexivity. Qed.

Lemma bind_returned {A B : Type} (t : trace) (a : A) (f : A -> M B) :
  bind (t, Returned a) f = ((t ++ fst (f a))%list, snd (f a)).
Proof. unfold bind. destruct (f a); reflexivity. Qed.

Lemma bind_request_Ok {A B : Type} (o : op) (a : A) (f : A -> M B) :
  bind (request o (Ok a)) f
  = ({| ev_op := o; ev_error := None |} :: fst (f a), snd (f a)).
Proof. unfold bind, request. destruct (f a); reflexivity. Qed.

Lemma bind_request_Err {A B : Type} (o : op) (e : ClientError) (f : A -> M B) :
  bind (request o (Err e)) f = ([{| ev_op := o; ev_error := Some e |}], Raised e).
Proof. reflexivity. Qed.

Lemma bind_Returned {A B : Type} (m : M A) (f : A -> M B) (b : B) :
  snd (bind m f) = Returned b ->
  exists a, snd m = Returned a /\ snd (f a) = Returned b.
Proof.
  rewrite outcome_bind. destruct (snd m) as [a|e]; [eauto | discriminate].
Qed.

Lemma request_Returned {A : Type} (o : op) (r : response A) (a : A) :
  snd (request o r) = Returned a -> r = Ok a.
Proof. unfold request. destruct r; simpl; congruence. Qed.

Lemma outcome_try_except {A : Type} (m : M A) (h : ClientError -> M A) :
  snd (try_except m h) =
  match snd m with
  | Returned a => Returned a
  | Raised e => snd (h e)
  end.
Proof.
  unfold try_except. destruct m as [t [a|e]]; simpl; [reflexivity|].
  destruct (h e); reflexivity.
Qed.

(** A tool whose handler is [return_error] always returns an envelope:
    the one its body computed, or the error envelope of the exception
    that interrupted the body. *)
Lemma envelope_try_except (body : M value) :
  envelope (try_except body return_error) =
  Some match snd body with
       | Returned v => v
       | Raised e => error_envelope e
       end.
Proof.
  unfold envelope. rewrite outcome_try_except.
  destruct (snd body); reflexivity.
Qed.

(** Loops that only append to an accumulator. *)
Lemma for_each_collect {X Y : Type} (body : X -> list Y -> M (list Y))
    (g : X -> list Y) (xs : list X) :
  (forall x acc acc',
      In x xs -> snd (body x acc) = Returned acc' -> acc' = (acc ++ g x)%list) ->
  forall acc acc',
    snd (for_each xs body acc) = Returned acc' ->
    acc' = (acc ++ flat_map g xs)%list.
Proof.
  induction xs as [|x xs IH]; intros Hbody acc acc' Hrun; simpl in *.
  - injection Hrun as <-. now rewrite app_nil_r.
  - apply bind_Returned in Hrun as (acc1 & H1 & H2).
    apply Hbody in H1; [|now left]. subst acc1.
    apply IH in H2; [|intros; eapply Hbody; eauto].
    now rewrite H2, app_assoc.
Qed.

Lemma for_each_append {X Y : Type} (g : X -> Y) (xs : list X) (acc : list Y) :
  for_each xs (fun x acc => ret (acc ++ [g x])%list) acc
  = ret (acc ++ map g xs)%list.
Proof.
  revert acc. induction xs as [|x xs IH]; intros acc; simpl.
  - now rewrite app_nil_r.
  - rewrite bind_ret, IH, <- app_assoc. reflexivity.
Qed.

Lemma for_each_filter_append {X Y : Type} (p : X -> bool) (g : X -> Y)
    (xs : list X) (acc : list Y) :
  for_each xs (fun x acc => if p x then ret (acc ++ [g x])%list else ret acc) acc
  = ret (acc ++ map g (filter p xs))%list.
Proof.
  revert acc. induction xs as [|x xs IH]; intros acc; simpl.
  - now rewrite app_nil_r.
  - destruct (p x); rewrite bind_ret, IH; simpl; [|reflexivity].
    now rewrite <- app_assoc.
Qed.

Lemma paginate_from_Returned {P St : Type} (fetch : nat -> op) (i : nat)
    (pages : list P) (failure : option ClientError) (body : P -> St -> M St)
    (s s' : St) :
  snd (paginate_from fetch i pages failure body s) = Returned s' ->
  failure = None /\ snd (for_each pages body s) = Returned s'.
Proof.
  revert i s. induction pages as [|p pages IH]; intros i s Hrun; simpl in *.
  - destruct failure; [discriminate|]. now split.
  - rewrite outcome_bind in Hrun. cbn in Hrun.
    apply bind_Returned in Hrun as (s1 & H1 & H2).
    apply IH in H2 as [Hf H2]. split; [exact Hf|].
    rewrite outcome_bind, H1. exact H2.
Qed.

Lemma paginate_from_pure {P St : Type} (fetch : nat -> op) (i : nat)
    (pages : list P) (failure : option ClientError) (g : P -> St -> St) (s : St) :
  paginate_from fetch i pages failure (fun p s => ret (g p s)) s
  = (page_events fetch i (List.length pages) failure,
     match failure with
     | None => Returned (fold_left (fun s p => g p s) pages s)
     | Some e => Raised e
     end).
Proof.
  revert i s. induction pages as [|p pages IH]; intros i s.
  - simpl. destruct failure; reflexivity.
  - cbn [paginate_from List.length page_events].
    rewrite bind_ret, IH. destruct failure; reflexivity.
Qed.

Lemma fold_left_app_pages {A : Type} (pages : list (list A)) (acc : list A) :
  fold_left (fun acc page => (acc ++ page)%list) pages acc
  = (acc ++ List.concat pages)%list.
Proof.
  revert acc. induction pages as [|p pages IH]; intros acc; simpl.
  - now rewrite app_nil_r.
  - now rewrite IH, app_assoc.
Qed.

Lemma flat_map_concat_pages {A B : Type} (g : A -> list B) (pages : list (list A)) :
  flat_map (fun page => flat_map g page) pages = flat_map g (List.concat pages).
Proof.
  induction pages as [|p pages IH]; simpl; [reflexivity|].
  now rewrite IH, flat_map_app.
Qed.

(** ** The helpers on concrete inputs *)

Example last_segment_task_definition :
  last_segment "/" "arn:aws:ecs:us-east-1:123456789012:task-definition/web:3"
  = "web:3".
Proof. reflexivity. Qed.

Example last_segment_without_separator : last_segment "/" "None" = "None".
Proof. reflexivity. Qed.

Example split_on_slashes : split_on "/" "a/b//c" = ["a"; "b"; ""; "c"].
Proof. reflexivity. Qed.

Example split_on_empty : split_on "/" "" = [""].
Proof. reflexivity. Qed.

Example cluster_of_task_arn_prod :
  cluster_of_task_arn "arn:aws:ecs:us-east-1:123456789012:task/prod/0123abcd"
  = "prod".
Proof. reflexivity. Qed.

Example cluster_of_task_arn_unknown : cluster_of_task_arn "no-slash" = "unknown".
Proof. reflexivity. Qed.

Example title_of_event_type :
  title (replace_char "_" " " "AWS_ECS_TASK_PATCHING_RETIREMENT")
  = "Aws Ecs Task Patching Retirement".
Proof. reflexivity. Qed.

Example lower_mixed : lower "Report-7.PDF" = "report-7.pdf".
Proof. reflexivity. Qed.

Example contains_inside : contains "/task/" "arn:aws:ecs:task/prod/1" = false
                          /\ contains "/task/" "arn:aws:ecs/task/prod/1" = true
                          /\ contains "" "anything" = true.
Proof. repeat split. Qed.

Example second_last_of_layer_arn :
  second_last (split_on ":" "arn:aws:lambda:us-east-1:123456789012:layer:utils:3")
  = "utils".
Proof. reflexivity. Qed.

Example py_range_25_by_10 : py_range 0 25 10 = [0; 10; 20]%nat.
Proof. reflexivity. Qed.

Example slice_past_the_end : slice ["a"; "b"; "c"] 2 12 = ["c"].
Proof. reflexivity. Qed.

Example days_between_floors :
  days_between {| instant := 0; isoformat := "" |}
               {| instant := 1; isoformat := "" |} = -1
  /\ days_between {| instant := 2 * microseconds_per_day - 1; isoformat := "" |}
                  {| instant := 0; isoformat := "" |} = 1.
Proof. split; reflexivity. Qed.

Example hrs_1023 : _human_readable_size 1023 = "1023 B".
Proof. reflexivity. Qed.

Example hrs_tie_to_even : _human_readable_size 1152 = "1.12 KB".
Proof. reflexivity. Qed.

Example hrs_terabytes :
  _human_readable_size (5 * 1024 ^ 4 + 512 * 1024 ^ 3) = "5.50 TB".
Proof. vm_compute. reflexivity. Qed.

Example round53_drops_low_bits : round53 (2 ^ 53 + 1) = 2 ^ 53.
Proof. vm_compute. reflexivity. Qed.

Example code_size_of_1_5_mb :
  round2 (int_truediv_pow2 1572864 20) = VFloat 150.
Proof. reflexivity. Qed.

Example deprecation_status_examples :
  deprecation_status "python3.7" = Some "DEPRECATED"
  /\ deprecation_status "python3.9" = Some "APPROACHING_EOL"
  /\ deprecation_status "python3.12" = None.
Proof. repeat split. Qed.

Example dict_append_groups :
  dict_append "b" 3 (dict_append "a" 2 (dict_append "b" 1 []))
  = [("b", [1; 3]); ("a", [2])].
Proof. reflexivity. Qed.

Example sort_puts_flagged_runtimes_first :
  map fs_name
    (sort_summaries
       [{| fs_status := None; fs_name := "b"; fs_value := VNone |};
        {| fs_status := Some "DEPRECATED"; fs_name := "z"; fs_value := VNone |};
        {| fs_status := None; fs_name := "a"; fs_value := VNone |};
        {| fs_status := Some "APPROACHING_EOL"; fs_name := "c"; fs_value := VNone |}])
  = ["c"; "z"; "a"; "b"].
Proof. reflexivity. Qed.

(** A task ARN has the form [arn:aws:ecs:region:account:task/cluster/id]:
    the text "/task/" does not occur in it, so an entity is kept only when
    the event type mentions Fargate. *)
Example task_arn_alone_is_not_matched :
  is_fargate_entity retirement_event (affected_task "prod" "t1") = false
  /\ is_fargate_entity fargate_event (affected_task "prod" "t1") = true.
Proof. split; reflexivity. Qed.

Example retirements_grouped_by_cluster :
  envelope (list_fargate_retirements three_retirements scenario_now 14)
  = Some (VDict
      [("days_checked", VInt 14);
       ("retirement_count", VInt 3);
       ("retirements_by_cluster",
        VDict [("prod", VList [retirement_of_task "prod" "t1";
                               retirement_of_task "prod" "t3"]);
               ("staging", VList [retirement_of_task "staging" "t2"])]);
       ("retirements",
        VList [retirement_of_task "prod" "t1"; retirement_of_task "staging" "t2";
               retirement_of_task "prod" "t3"])]).
Proof. vm_compute. reflexivity. Qed.

Example retirements_outside_the_window :
  envelope (list_fargate_retirements three_retirements scenario_now 3)
  = Some (VDict
      [("days_checked", VInt 3);
       ("retirement_count", VInt 0);
       ("message",
        VStr "No Fargate task retirements scheduled in the specified time window");
       ("retirements", VList [])]).
Proof. vm_compute. reflexivity. Qed.

Example quiet_account_has_no_buckets :
  envelope (list_s3_buckets quiet_provider)
  = Some (VDict [("bucket_count", VInt 0); ("buckets", VList [])])
  /\ envelope (get_bucket_encryption quiet_provider (Some "logs"))
     = Some (VDict [("buckets_checked", VInt 1);
                    ("encrypted_count", VInt 0);
                    ("unencrypted_count", VInt 1);
                    ("unencrypted_buckets", VList [VStr "logs"]);
                    ("buckets",
                     VList [VDict [("bucket", VStr "logs");
                                   ("encryption_enabled", VBool false);
                                   ("encryption_type", VNone)]])]).
Proof. split; vm_compute; reflexivity. Qed.




(** ** The size formatter *)

Lemma round_half_even_nearest (num den : Z) :
  0 < den -> 2 * Z.abs (round_half_even num den * den - num) <= den.
Proof.
  intros Hden. unfold round_half_even.
  pose proof (Z.div_mod num den ltac:(lia)) as Hdm.
  pose proof (Z.mod_pos_bound num den Hden) as Hr.
  set (q := num / den) in *. set (r := num mod den) in *.
  destruct (2 * r <? den) eqn:E1; [apply Z.ltb_lt in E1; nia|].
  apply Z.ltb_ge in E1.
  destruct (den <? 2 * r) eqn:E2; [apply Z.ltb_lt in E2; nia|].
  apply Z.ltb_ge in E2.
  destruct (Z.even q); nia.
Qed.

Lemma round_half_even_nonneg (num den : Z) :
  0 <= num -> 0 < den -> 0 <= round_half_even num den.
Proof.
  intros Hnum Hden. unfold round_half_even.
  pose proof (Z.div_pos num den Hnum Hden) as Hq.
  destruct (2 * (num mod den) <? den); [lia|].
  destruct (den <? 2 * (num mod den)); [lia|].
  destruct (Z.even (num / den)); lia.
Qed.

Lemma round53_small (n : Z) : 0 <= n -> n < 2 ^ 53 -> round53 n = n.
Proof.
  intros Hn Hlt. unfold round53.
  destruct (Z.eq_dec n 0) as [->|Hnz]; [reflexivity|].
  assert (Z.log2 n < 53) by (apply Z.log2_lt_pow2; lia).
  destruct (Z.log2 n + 1 <=? 53) eqn:E; [reflexivity|].
  apply Z.leb_gt in E. lia.
Qed.

Lemma round53_nonneg (n : Z) : 0 <= n -> 0 <= round53 n.
Proof.
  intros Hn. unfold round53.
  destruct (Z.log2 n + 1 <=? 53) eqn:E; [lia|].
  apply Z.leb_gt in E.
  assert (0 < 2 ^ (Z.log2 n + 1 - 53)) by (apply Z.pow_pos_nonneg; lia).
  pose proof (round_half_even_nonneg n (2 ^ (Z.log2 n + 1 - 53)) Hn ltac:(lia)).
  nia.
Qed.

Lemma append_assoc (a b c : string) : (a ++ b) ++ c = a ++ (b ++ c).
Proof. induction a as [|x a IH]; simpl; [reflexivity | now rewrite IH]. Qed.

Lemma format_2f_rendering (n shift : Z) (unit : string) :
  0 <= n -> 0 <= shift ->
  two_place_rendering (format_2f (int_truediv_pow2 n shift) ++ " " ++ unit)
    unit (round53 n) (2 ^ shift).
Proof.
  intros Hn Hs.
  assert (Hden : 0 < 2 ^ shift) by (apply Z.pow_pos_nonneg; lia).
  pose proof (round53_nonneg n Hn) as Hm.
  unfold format_2f, hundredths, int_truediv_pow2; simpl fnum; simpl fshift.
  set (h := round_half_even (100 * round53 n) (2 ^ shift)).
  assert (Hh : 0 <= h) by (apply round_half_even_nonneg; lia).
  pose proof (round_half_even_nearest (100 * round53 n) _ Hden) as Hnear.
  fold h in Hnear.
  exists (h / 100), (h mod 100 / 10), (h mod 10).
  assert (Hdigits : 0 <= h / 100 /\ 0 <= h mod 100 / 10 <= 9 /\ 0 <= h mod 10 <= 9 /\
                    100 * (h / 100) + 10 * (h mod 100 / 10) + h mod 10 = h)
    by (clearbody h; clear - Hh; Z.div_mod_to_equations; lia).
  destruct Hdigits as (Hip & Hd1 & Hd2 & Hsum).
  split; [exact Hip|]. split; [exact Hd1|]. split; [exact Hd2|]. split.
  - unfold two_places. rewrite !append_assoc. reflexivity.
  - rewrite Hsum. exact Hnear.
Qed.

(** C5. For every non-negative byte count the formatter selects the unit
    by the binary thresholds 1024, 1024^2, 1024^3, 1024^4: below 1024 it
    prints the integer itself followed by [B], with no decimals; in every
    higher branch it prints the quotient by the matching power of 1024
    with exactly two decimal places, correctly rounded, followed by [KB],
    [MB], [GB] or [TB].  In particular 0 gives "0 B", 1023 gives "1023 B",
    1536 gives "1.50 KB" and 1073741824 gives "1.00 GB". *)
Theorem human_readable_size_branches (size_bytes : Z) :
  0 <= size_bytes ->
  (size_bytes < 1024 ->
     _human_readable_size size_bytes = string_of_Z size_bytes ++ " B") /\
  (1024 <= size_bytes < 1024 ^ 2 ->
     two_place_rendering (_human_readable_size size_bytes) "KB" size_bytes 1024) /\
  (1024 ^ 2 <= size_bytes < 1024 ^ 3 ->
     two_place_rendering (_human_readable_size size_bytes) "MB"
       size_bytes (1024 ^ 2)) /\
  (1024 ^ 3 <= size_bytes < 1024 ^ 4 ->
     two_place_rendering (_human_readable_size size_bytes) "GB"
       size_bytes (1024 ^ 3)) /\
  (1024 ^ 4 <= size_bytes ->
     two_place_rendering (_human_readable_size size_bytes) "TB"
       (round53 size_bytes) (1024 ^ 4)) /\
  _human_readable_size 0 = "0 B" /\
  _human_readable_size 1023 = "1023 B" /\
  _human_readable_size 1536 = "1.50 KB" /\
  _human_readable_size 1073741824 = "1.00 GB".
Proof.
  intros Hn.
  assert (Hbranch : forall shift unit,
             0 <= shift ->
             two_place_rendering
               (format_2f (int_truediv_pow2 size_bytes shift) ++ " " ++ unit)
               unit (round53 size_bytes) (2 ^ shift))
    by (intros; now apply format_2f_rendering).
  split; [|split; [|split; [|split; [|split; [|repeat split; vm_compute; reflexivity]]]]];
    unfold _human_readable_size.
  - intros H. destruct (size_bytes <? 1024) eqn:E; [reflexivity|].
    apply Z.ltb_ge in E. lia.
  - intros [Hlo Hhi].
    destruct (size_bytes <? 1024) eqn:E1; [apply Z.ltb_lt in E1; lia|].
    destruct (size_bytes <? 1024 ^ 2) eqn:E2; [|apply Z.ltb_ge in E2; lia].
    rewrite <- (round53_small size_bytes Hn) at 2 by lia.
    exact (Hbranch 10 "KB" ltac:(lia)).
  - intros [Hlo Hhi].
    destruct (size_bytes <? 1024) eqn:E1; [apply Z.ltb_lt in E1; lia|].
    destruct (size_bytes <? 1024 ^ 2) eqn:E2; [apply Z.ltb_lt in E2; lia|].
    destruct (size_bytes <? 1024 ^ 3) eqn:E3; [|apply Z.ltb_ge in E3; lia].
    rewrite <- (round53_small size_bytes Hn) at 2 by lia.
    exact (Hbranch 20 "MB" ltac:(lia)).
  - intros [Hlo Hhi].
    destruct (size_bytes <? 1024) eqn:E1; [apply Z.ltb_lt in E1; lia|].
    destruct (size_bytes <? 1024 ^ 2) eqn:E2; [apply Z.ltb_lt in E2; lia|].
    destruct (size_bytes <? 1024 ^ 3) eqn:E3; [apply Z.ltb_lt in E3; lia|].
    destruct (size_bytes <? 1024 ^ 4) eqn:E4; [|apply Z.ltb_ge in E4; lia].
    rewrite <- (round53_small size_bytes Hn) at 2 by lia.
    exact (Hbranch 30 "GB" ltac:(lia)).
  - intros Hlo.
    destruct (size_bytes <? 1024) eqn:E1; [apply Z.ltb_lt in E1; lia|].
    destruct (size_bytes <? 1024 ^ 2) eqn:E2; [apply Z.ltb_lt in E2; lia|].
    destruct (size_bytes <? 1024 ^ 3) eqn:E3; [apply Z.ltb_lt in E3; lia|].
    destruct (size_bytes <? 1024 ^ 4) eqn:E4; [apply Z.ltb_lt in E4; lia|].
    exact (Hbranch 40 "TB" ltac:(lia)).
Qed.

Lemma human_readable_size_branches_witness :
  two_place_rendering (_human_readable_size 1536) "KB" 1536 1024.
Proof.
  refine (proj1 (proj2 (human_readable_size_branches 1536 _)) _); lia.
Defined.

(** ** Stale credentials *)

Lemma stale_keys_loop (now : datetime) (days : Z) (username : string)
    (keys : list AccessKeyMetadata) (acc : list value) :
  for_each keys
    (fun key stale_users =>
       if days <? key_age now key
       then ret (stale_users ++ [stale_entry now username key])%list
       else ret stale_users)
    acc
  = ret (acc ++ map (stale_entry now username)
                    (filter (fun key => days <? key_age now key) keys))%list.
Proof.
  exact (for_each_filter_append (fun key => days <? key_age now key)
           (stale_entry now username) keys acc).
Qed.

(** A run that returns a [users] list read every user's keys, and the
    list holds the stale keys of each user, in listing order. *)
Lemma stale_users_success (w : Provider) (now : datetime) (days : Z)
    (users : list value) :
  users_field (list_users_with_stale_credentials w now days) = Some (VList users) ->
  users = flat_map (stale_entries_of w now days) (all_users w).
Proof.
  unfold users_field, list_users_with_stale_credentials.
  rewrite envelope_try_except.
  match goal with |- context [snd ?b] => destruct (snd b) as [v|e] eqn:Hbody end;
    [|discriminate].
  apply bind_Returned in Hbody as (stale & Hloop & Hret).
  injection Hret as <-. cbn [field assoc String.eqb Ascii.eqb Bool.eqb].
  intros [= <-].
  apply paginate_from_Returned in Hloop as [_ Hloop].
  apply (for_each_collect _ (fun page => flat_map (stale_entries_of w now days) page))
    in Hloop.
  - rewrite Hloop. apply flat_map_concat_pages.
  - intros page acc acc' _ Hpage.
    apply (for_each_collect _ (stale_entries_of w now days)) in Hpage;
      [exact Hpage|].
    intros user acc0 acc1 _ Huser.
    apply bind_Returned in Huser as (keys & Hreq & Hkeys).
    apply request_Returned in Hreq.
    rewrite stale_keys_loop in Hkeys. injection Hkeys as <-.
    unfold stale_entries_of, access_keys_of. now rewrite Hreq.
Qed.

Lemma key_age_floor (now : datetime) (key : AccessKeyMetadata) :
  microseconds_per_day * key_age now key
    <= instant now - instant (key_CreateDate key)
    < microseconds_per_day * (key_age now key + 1).
Proof.
  unfold key_age, days_between, microseconds_per_day.
  Z.div_mod_to_equations. lia.
Qed.

(** C2. Whenever the stale-credentials tool returns its [users] list, a
    key of a listed user is reported in it iff its age in whole days, the
    floor of the time elapsed since its creation, is strictly greater than
    the threshold: a key whose age equals the threshold is not reported, a
    key one day older is.  In the scenario of three users where A's key is
    91 days old and B's is 90 days old, threshold 90 yields exactly one
    entry, A's, with [key_age_days] 91. *)
Theorem stale_iff_age_exceeds_threshold (w : Provider) (now : datetime)
    (days : Z) (users : list value) :
  users_field (list_users_with_stale_credentials w now days) = Some (VList users) ->
  (forall user keys key,
      In user (all_users w) ->
      iam_list_access_keys (iam w) (UserName user) = Ok keys ->
      In key keys ->
      let entry := stale_entry now (UserName user) key in
      microseconds_per_day * key_age now key
        <= instant now - instant (key_CreateDate key)
        < microseconds_per_day * (key_age now key + 1) /\
      (In entry users <-> days < key_age now key) /\
      (key_age now key = days -> ~ In entry users) /\
      (key_age now key = days + 1 -> In entry users)) /\
  (forall entry, In entry users ->
      exists user keys key,
        In user (all_users w) /\
        iam_list_access_keys (iam w) (UserName user) = Ok keys /\ In key keys /\
        entry = stale_entry now (UserName user) key /\ days < key_age now key) /\
  envelope (list_users_with_stale_credentials stale_scenario scenario_now 90)
  = Some (VDict
      [("threshold_days", VInt 90);
       ("stale_credential_count", VInt 1);
       ("users",
        VList [VDict [("username", VStr "A");
                      ("access_key_id", VStr "AKIA-A");
                      ("key_age_days", VInt 91);
                      ("status", VStr "Active");
                      ("created", VStr "2024-07-05T00:00:00+00:00")]])]).
Proof.
  intros Hrun. apply stale_users_success in Hrun. subst users.
  assert (Hcomplete : forall entry,
             In entry (flat_map (stale_entries_of w now days) (all_users w)) ->
             exists user keys key,
               In user (all_users w) /\
               iam_list_access_keys (iam w) (UserName user) = Ok keys /\ In key keys /\
               entry = stale_entry now (UserName user) key /\
               days < key_age now key).
  { intros entry Hin. apply in_flat_map in Hin as (user & Huser & Hin).
    unfold stale_entries_of, access_keys_of in Hin.
    destruct (iam_list_access_keys (iam w) (UserName user)) as [keys|e] eqn:Hkeys;
      [|contradiction].
    apply in_map_iff in Hin as (key & <- & Hin).
    apply filter_In in Hin as [Hin Hstale]. apply Z.ltb_lt in Hstale.
    exists user, keys, key. auto. }
  assert (Hiff : forall user keys key,
             In user (all_users w) ->
             iam_list_access_keys (iam w) (UserName user) = Ok keys ->
             In key keys ->
             (In (stale_entry now (UserName user) key)
                 (flat_map (stale_entries_of w now days) (all_users w))
              <-> days < key_age now key)).
  { intros user keys key Huser Hkeys Hkey. split.
    - intros Hin. apply Hcomplete in Hin
        as (user' & keys' & key' & _ & _ & _ & Heq & Hstale).
      unfold stale_entry in Heq. injection Heq as _ _ Hage _ _.
      now rewrite Hage.
    - intros Hstale. apply in_flat_map. exists user. split; [exact Huser|].
      unfold stale_entries_of, access_keys_of. rewrite Hkeys.
      apply in_map, filter_In. split; [exact Hkey|]. now apply Z.ltb_lt. }
  split; [|split; [exact Hcomplete | vm_compute; reflexivity]].
  intros user keys key Huser Hkeys Hkey entry. subst entry.
  pose proof (Hiff user keys key Huser Hkeys Hkey) as Hkeyiff.
  split; [apply key_age_floor|]. split; [exact Hkeyiff|]. split.
  - intros Heq Hin. apply Hkeyiff in Hin. lia.
  - intros Heq. apply Hkeyiff. lia.
Qed.

Lemma stale_iff_age_exceeds_threshold_witness :
  let key := scenario_key "AKIA-A" 91 "2024-07-05T00:00:00+00:00" in
  let entry := stale_entry scenario_now "A" key in
  users_field (list_users_with_stale_credentials stale_scenario scenario_now 90)
    = Some (VList [entry]) /\
  (In entry [entry] <-> 90 < key_age scenario_now key).
Proof.
  intros key entry.
  assert (Hrun : users_field
                   (list_users_with_stale_credentials stale_scenario scenario_now 90)
                 = Some (VList [entry])) by (vm_compute; reflexivity).
  split; [exact Hrun|].
  refine (proj1 (proj2 (proj1
    (stale_iff_age_exceeds_threshold stale_scenario scenario_now 90 [entry] Hrun)
    (scenario_user "A") [key] key _ _ _))).
  - simpl. left. reflexivity.
  - reflexivity.
  - simpl. left. reflexivity.
Defined.

(** ** Administrator access *)

Lemma for_each_deterministic {X St : Type} (body : X -> St -> M St)
    (step : X -> St -> St) (xs : list X) :
  (forall x s s', In x xs -> snd (body x s) = Returned s' -> s' = step x s) ->
  forall s s',
    snd (for_each xs body s) = Returned s' ->
    s' = fold_left (fun s x => step x s) xs s.
Proof.
  induction xs as [|x xs IH]; intros Hbody s s' Hrun; simpl in *.
  - now injection Hrun.
  - apply bind_Returned in Hrun as (s1 & H1 & H2).
    apply Hbody in H1; [|now left]. subst s1.
    apply IH in H2; [exact H2|]. intros; eapply Hbody; eauto.
Qed.

(** The two policy loops: each attachment of the administrator policy sets
    [has_admin] and appends [tag]. *)
Lemma policy_loop (tag : string) (policies : list AttachedPolicy)
    (has_admin : bool) (admin_source : list string) :
  for_each policies
    (fun policy '(has_admin, admin_source) =>
       if String.eqb (PolicyArn policy) admin_policy_arn
       then ret (true, (admin_source ++ [tag])%list)
       else ret (has_admin, admin_source))
    (has_admin, admin_source)
  = ret (orb has_admin (existsb is_admin_policy policies),
         (admin_source ++ map (fun _ => tag) (filter is_admin_policy policies))%list).
Proof.
  revert has_admin admin_source.
  induction policies as [|p policies IH]; intros has_admin admin_source.
  - simpl. now rewrite orb_false_r, app_nil_r.
  - cbn [for_each filter existsb].
    change (String.eqb (PolicyArn p) admin_policy_arn) with (is_admin_policy p).
    destruct (is_admin_policy p); rewrite bind_ret, IH.
    + cbn [map orb]. rewrite <- app_assoc. now rewrite orb_true_r.
    + reflexivity.
Qed.

Lemma group_fold (w : Provider) (groups : list Group) (st : bool * list string) :
  fst st = nonempty (snd st) ->
  let st' := fold_left (fun st g => group_step w g st) groups st in
  fst st' = nonempty (snd st') /\
  snd st' = (snd st ++ flat_map (sources_of_group w) groups)%list.
Proof.
  revert st. induction groups as [|g groups IH]; intros st Hinv; simpl.
  - now rewrite app_nil_r.
  - destruct (IH (group_step w g st)) as [H1 H2].
    + unfold group_step, sources_of_group. simpl. rewrite Hinv.
      destruct (snd st); simpl; [|reflexivity].
      induction (group_policies_of w g) as [|p ps IHp]; simpl; [reflexivity|].
      destruct (is_admin_policy p); simpl; [reflexivity | exact IHp].
    + split; [exact H1|]. rewrite H2. unfold group_step. simpl.
      now rewrite <- app_assoc.
Qed.

Lemma direct_state (w : Provider) (user : User) :
  orb false (existsb is_admin_policy (attached_policies_of w user))
  = nonempty (direct_sources w user).
Proof.
  unfold direct_sources. simpl.
  induction (attached_policies_of w user) as [|p ps IH]; simpl; [reflexivity|].
  destruct (is_admin_policy p); simpl; [reflexivity | exact IH].
Qed.

(** A run that returns a [users] list made one entry for every listed
    user with at least one source, carrying all the sources. *)
Lemma admin_users_success (w : Provider) (users : list value) :
  users_field (list_users_with_admin_access w) = Some (VList users) ->
  users = flat_map (admin_entries_of w) (all_users w).
Proof.
  unfold users_field, list_users_with_admin_access.
  rewrite envelope_try_except.
  match goal with |- context [snd ?b] => destruct (snd b) as [v|e] eqn:Hbody end;
    [|discriminate].
  apply bind_Returned in Hbody as (admins & Hloop & Hret).
  injection Hret as <-. cbn [field assoc String.eqb Ascii.eqb Bool.eqb].
  intros [= <-].
  apply paginate_from_Returned in Hloop as [_ Hloop].
  apply (for_each_collect _ (fun page => flat_map (admin_entries_of w) page))
    in Hloop.
  - rewrite Hloop. apply flat_map_concat_pages.
  - intros page acc acc' _ Hpage.
    apply (for_each_collect _ (admin_entries_of w)) in Hpage; [exact Hpage|].
    intros user acc0 acc1 _ Huser.
    apply bind_Returned in Huser as (attached & Hreq1 & Huser).
    apply request_Returned in Hreq1.
    rewrite policy_loop, bind_ret in Huser.
    apply bind_Returned in Huser as (groups & Hreq2 & Huser).
    apply request_Returned in Hreq2.
    apply bind_Returned in Huser as (st & Hgroups & Huser).
    apply (for_each_deterministic _ (group_step w)) in Hgroups.
    + pose proof (group_fold w groups
                    (orb false (existsb is_admin_policy attached),
                     ([] ++ map (fun _ => "direct_attachment")
                                (filter is_admin_policy attached))%list)) as Hfold.
      cbn zeta in Hfold. rewrite <- Hgroups in Hfold.
      assert (Hattached : attached_policies_of w user = attached)
        by (unfold attached_policies_of; now rewrite Hreq1).
      assert (Hgroupsof : groups_of w user = groups)
        by (unfold groups_of; now rewrite Hreq2).
      destruct Hfold as [Hhas Hsrc].
      { rewrite <- Hattached. apply direct_state. }
      destruct st as [has_admin admin_source]. cbn [fst snd] in Hhas, Hsrc.
      assert (Hall : admin_source = admin_sources w user).
      { rewrite Hsrc. unfold admin_sources, direct_sources, group_sources.
        now rewrite Hattached, Hgroupsof. }
      unfold admin_entries_of. rewrite <- Hall, <- Hhas.
      destruct has_admin; injection Huser as <-; [reflexivity|].
      now rewrite app_nil_r.
    + intros group [h src] st' _ Hgroup.
      apply bind_Returned in Hgroup as (policies & Hreq3 & Hgroup).
      apply request_Returned in Hreq3.
      rewrite policy_loop in Hgroup. injection Hgroup as <-.
      unfold group_step, sources_of_group, group_policies_of.
      now rewrite Hreq3.
Qed.

Lemma entries_for_app (username : string) (l1 l2 : list value) :
  entries_for username (l1 ++ l2)
  = (entries_for username l1 ++ entries_for username l2)%list.
Proof. apply filter_app. Qed.

Lemma entries_for_entries_of (w : Provider) (username : string) (user : User) :
  entries_for username (admin_entries_of w user)
  = if String.eqb (UserName user) username then admin_entries_of w user else [].
Proof.
  unfold admin_entries_of.
  destruct (nonempty (admin_sources w user));
    [|now destruct (String.eqb (UserName user) username)].
  unfold entries_for, admin_entry. cbn [filter field assoc String.eqb Ascii.eqb Bool.eqb].
  now destruct (String.eqb (UserName user) username).
Qed.

Lemma entries_for_other_users (w : Provider) (username : string)
    (users : list User) :
  ~ In username (map UserName users) ->
  entries_for username (flat_map (admin_entries_of w) users) = [].
Proof.
  induction users as [|u users IH]; intros Hnotin; simpl; [reflexivity|].
  rewrite entries_for_app, entries_for_entries_of, IH.
  - destruct (String.eqb (UserName u) username) eqn:E; [|reflexivity].
    apply String.eqb_eq in E. exfalso. apply Hnotin. now left.
  - intros Hin. apply Hnotin. now right.
Qed.

Lemma entries_for_listed_user (w : Provider) (users : list User) (user : User) :
  NoDup (map UserName users) ->
  In user users ->
  entries_for (UserName user) (flat_map (admin_entries_of w) users)
  = admin_entries_of w user.
Proof.
  induction users as [|u users IH]; intros Hnodup Hin; [contradiction|].
  simpl in Hnodup. inversion Hnodup as [|? ? Hnotin Hnodup']; subst.
  simpl. rewrite entries_for_app, entries_for_entries_of.
  destruct Hin as [->|Hin].
  - rewrite String.eqb_refl, entries_for_other_users by exact Hnotin.
    apply app_nil_r.
  - destruct (String.eqb (UserName u) (UserName user)) eqn:E.
    + apply String.eqb_eq in E. exfalso. apply Hnotin. rewrite E.
      now apply in_map.
    + now apply IH.
Qed.

Lemma direct_tag_iff (w : Provider) (user : User) :
  In "direct_attachment" (admin_sources w user) <->
  exists policy,
    In policy (attached_policies_of w user) /\ PolicyArn policy = admin_policy_arn.
Proof.
  unfold admin_sources, direct_sources, group_sources. rewrite in_app_iff. split.
  - intros [Hin|Hin].
    + apply in_map_iff in Hin as (policy & _ & Hin).
      apply filter_In in Hin as [Hin Hadmin].
      exists policy. split; [exact Hin | now apply String.eqb_eq].
    + apply in_flat_map in Hin as (group & _ & Hin).
      apply in_map_iff in Hin as (policy & Heq & _). discriminate Heq.
  - intros (policy & Hin & Harn). left.
    apply in_map_iff. exists policy. split; [reflexivity|].
    apply filter_In. split; [exact Hin | now apply String.eqb_eq].
Qed.

Lemma group_tag_iff (w : Provider) (user : User) (name : string) :
  In ("group:" ++ name) (admin_sources w user) <->
  exists group policy,
    In group (groups_of w user) /\ GroupName group = name /\
    In policy (group_policies_of w group) /\ PolicyArn policy = admin_policy_arn.
Proof.
  unfold admin_sources, direct_sources, group_sources. rewrite in_app_iff. split.
  - intros [Hin|Hin].
    + apply in_map_iff in Hin as (policy & Heq & _). discriminate Heq.
    + apply in_flat_map in Hin as (group & Hgroup & Hin).
      apply in_map_iff in Hin as (policy & Heq & Hin).
      apply filter_In in Hin as [Hin Hadmin].
      injection Heq as Heq.
      exists group, policy. repeat split; auto. now apply String.eqb_eq.
  - intros (group & policy & Hgroup & <- & Hin & Harn). right.
    apply in_flat_map. exists group. split; [exact Hgroup|].
    apply in_map_iff. exists policy. split; [reflexivity|].
    apply filter_In. split; [exact Hin | now apply String.eqb_eq].
Qed.

(** C8. Whenever the admin-access tool returns its [users] list (user
    names being unique in the listing), a listed user who holds
    AdministratorAccess through any source appears in it exactly once, as
    one entry whose [admin_source] lists a tag for every satisfying
    source: "direct_attachment" iff the policy is attached to the user,
    "group:<name>" iff it is attached to a group <name> of the user; a
    user without a source does not appear.  A user holding it directly and
    through two groups gets one entry with all three tags. *)
Theorem admin_user_listed_once_with_all_sources (w : Provider)
    (users : list value) (user : User) :
  users_field (list_users_with_admin_access w) = Some (VList users) ->
  NoDup (map UserName (all_users w)) ->
  In user (all_users w) ->
  (In "direct_attachment" (admin_sources w user) <->
   exists policy,
     In policy (attached_policies_of w user) /\
     PolicyArn policy = admin_policy_arn) /\
  (forall name,
     In ("group:" ++ name) (admin_sources w user) <->
     exists group policy,
       In group (groups_of w user) /\ GroupName group = name /\
       In policy (group_policies_of w group) /\
       PolicyArn policy = admin_policy_arn) /\
  (admin_sources w user <> [] ->
   entries_for (UserName user) users
   = [admin_entry (UserName user) (admin_sources w user)]) /\
  (admin_sources w user = [] -> entries_for (UserName user) users = []) /\
  envelope (list_users_with_admin_access admin_scenario)
  = Some (VDict
      [("admin_user_count", VInt 1);
       ("users",
        VList [VDict [("username", VStr "root-like");
                      ("admin_source",
                       VList [VStr "direct_attachment"; VStr "group:admins";
                              VStr "group:ops"])]])]).
Proof.
  intros Hrun Hnodup Huser. apply admin_users_success in Hrun. subst users.
  rewrite (entries_for_listed_user w _ user Hnodup Huser).
  split; [apply direct_tag_iff|]. split; [apply group_tag_iff|].
  unfold admin_entries_of.
  split; [|split; [|vm_compute; reflexivity]].
  - intros Hne. destruct (admin_sources w user); [contradiction | reflexivity].
  - intros ->. reflexivity.
Qed.

Lemma admin_user_listed_once_with_all_sources_witness :
  entries_for "root-like"
    [admin_entry "root-like" ["direct_attachment"; "group:admins"; "group:ops"]]
  = [admin_entry "root-like"
       (admin_sources admin_scenario (scenario_user "root-like"))].
Proof.
  refine (proj1 (proj2 (proj2
    (admin_user_listed_once_with_all_sources admin_scenario
       [admin_entry "root-like" ["direct_attachment"; "group:admins"; "group:ops"]]
       (scenario_user "root-like") _ _ _))) _).
  - vm_compute. reflexivity.
  - simpl. repeat constructor; simpl; intuition discriminate.
  - simpl. left. reflexivity.
  - vm_compute. discriminate.
Defined.

(** ** Batched describe *)









(** The describe loop on any list of start indices. *)
Lemma describe_loop {X : Type} (mk : list string -> op)
    (oracle : list string -> response (list X)) (shape : X -> value)
    (arns : list string) (size : nat) (starts : list nat) (acc : list value) :
  (forall i, In i starts ->
             exists r, oracle (slice arns i (i + size)) = Ok r) ->
  for_each starts
    (fun i acc =>
       response <- request (mk (slice arns i (i + size)))
                           (oracle (slice arns i (i + size))) ;;
       for_each response (fun x acc => ret (acc ++ [shape x])%list) acc)
    acc
  = (map (fun i => {| ev_op := mk (slice arns i (i + size)); ev_error := None |})
         starts,
     Returned (acc ++ flat_map (fun i => map shape
                                  (answer_of oracle (slice arns i (i + size))))
                               starts)%list).
Proof.
  revert acc. induction starts as [|i starts IH]; intros acc Hok.
  - simpl. now rewrite app_nil_r.
  - cbn [for_each map flat_map].
    destruct (Hok i ltac:(now left)) as [r Hr].
    unfold answer_of at 1. rewrite Hr, bind_request_Ok, for_each_append.
    unfold bind, ret. cbn [fst snd].
    rewrite IH by (intros; apply Hok; now right).
    cbn [app]. now rewrite app_assoc.
Qed.






Lemma batches_nil {A : Type} (size : nat) : batches size (@nil A) = [].
Proof. reflexivity. Qed.








(** ** The not-found envelope *)

(** C9. When the describe request for the named service succeeds with an
    empty [services] list, [get_ecs_service_status] returns the envelope
    [{"error": "Service '<name>' not found in cluster '<cluster>'"}]; the
    one request it issued did not fail, so this is not the envelope of a
    provider error. *)
Theorem service_not_found (w : Provider) (cluster_name service_name : string) :
  ecs_describe_services (ecs w) cluster_name [service_name] = Ok [] ->
  envelope (get_ecs_service_status w cluster_name service_name)
  = Some (VDict [("error",
                  VStr ("Service '" ++ service_name ++ "' not found in cluster '"
                        ++ cluster_name ++ "'"))]) /\
  calls (get_ecs_service_status w cluster_name service_name)
  = [{| ev_op := DescribeServices cluster_name [service_name];
        ev_error := None |}] /\
  envelope (get_ecs_service_status quiet_provider "prod" "web")
  = Some (VDict [("error", VStr "Service 'web' not found in cluster 'prod'")]).
Proof.
  intros Hempty. unfold get_ecs_service_status. rewrite Hempty.
  split; [reflexivity|]. split; reflexivity.
Qed.

Lemma service_not_found_witness :
  envelope (get_ecs_service_status quiet_provider "staging" "api")
  = Some (VDict [("error",
                  VStr ("Service '" ++ "api" ++ "' not found in cluster '"
                        ++ "staging" ++ "'"))]).
Proof.
  refine (proj1 (service_not_found quiet_provider "staging" "api" _)).
  reflexivity.
Defined.

(** ** Public access check *)

Lemma for_each_total_append {X Y : Type} (body : X -> list Y -> M (list Y))
    (g : X -> Y) (tr : X -> trace) (xs : list X) (acc : list Y) :
  (forall x acc, body x acc = (tr x, Returned (acc ++ [g x])%list)) ->
  for_each xs body acc = (flat_map tr xs, Returned (acc ++ map g xs)%list).
Proof.
  intros Hbody. revert acc. induction xs as [|x xs IH]; intros acc; simpl.
  - now rewrite app_nil_r.
  - rewrite Hbody, bind_returned, IH. cbn [fst snd].
    now rewrite <- app_assoc.
Qed.

Lemma check_bucket_run (w : Provider) (name : string) :
  check_bucket w name
  = ([{| ev_op := GetPublicAccessBlock name;
         ev_error := match s3_get_public_access_block (s3 w) name with
                     | Ok _ => None
                     | Err e => Some e
                     end |}],
     Returned (check_of w name)).
Proof.
  unfold check_bucket, check_of, unchecked.
  destruct (s3_get_public_access_block (s3 w) name); reflexivity.
Qed.

Lemma blocked_iff_not_potentially_public (w : Provider) (name : string) :
  public_access_blocked (check_of w name) = negb (potentially_public w name).
Proof.
  unfold check_of, potentially_public.
  destruct (s3_get_public_access_block (s3 w) name) as [config|e].
  - unfold check_config, check_setting, setting_on.
    destruct config as [[[]|] [[]|] [[]|] [[]|]]; reflexivity.
  - unfold check_failed.
    destruct (contains "NoSuchPublicAccessBlockConfiguration" (err_text e));
      reflexivity.
Qed.

Lemma filter_map_swap {A B : Type} (p : B -> bool) (g : A -> B) (l : list A) :
  filter p (map g l) = map g (filter (fun a => p (g a)) l).
Proof.
  induction l as [|a l IH]; simpl; [reflexivity|].
  destruct (p (g a)); simpl; now rewrite IH.
Qed.

(** C10. In [check_bucket_public_access], a bucket whose
    public-access-block lookup fails with an error whose text does not
    mention NoSuchPublicAccessBlockConfiguration is reported with
    [public_access_blocked: true] and the single issue "Error checking:
    <error>"; [potentially_public_count] counts the buckets with a setting
    off and those without a configuration, and so leaves that bucket out:
    a failed check counts as blocked. *)
Theorem failed_check_counts_as_blocked (w : Provider)
    (bucket_name : option string) (names : list string) (name : string)
    (e : ClientError) :
  snd (buckets_to_check w bucket_name) = Returned names ->
  In name names ->
  s3_get_public_access_block (s3 w) name = Err e ->
  contains "NoSuchPublicAccessBlockConfiguration" (err_text e) = false ->
  let run := check_bucket_public_access w bucket_name in
  (exists buckets,
     list_field "buckets" run = Some buckets /\
     In (VDict [("bucket", VStr name);
                ("public_access_blocked", VBool true);
                ("issues", VList [VStr ("Error checking: " ++ err_text e)])])
        buckets) /\
  (exists env,
     envelope run = Some env /\
     field "potentially_public_count" env
     = Some (VLen (filter (potentially_public w) names))) /\
  potentially_public w name = false /\
  envelope (check_bucket_public_access denied_bucket None)
  = Some (VDict
      [("buckets_checked", VInt 1);
       ("potentially_public_count", VInt 0);
       ("buckets",
        VList [VDict [("bucket", VStr "logs");
                      ("public_access_blocked", VBool true);
                      ("issues",
                       VList [VStr "Error checking: An error occurred (AccessDenied) when calling the GetPublicAccessBlock operation: Access Denied"])]])]).
Proof.
  intros Hnames Hin Hfail Hother run. subst run.
  unfold check_bucket_public_access.
  destruct (buckets_to_check w bucket_name) as [t o] eqn:Hlist.
  simpl in Hnames. subst o.
  rewrite bind_returned.
  rewrite (for_each_total_append _ (check_of w)
             (fun name => [{| ev_op := GetPublicAccessBlock name;
                              ev_error :=
                                match s3_get_public_access_block (s3 w) name with
                                | Ok _ => None
                                | Err e => Some e
                                end |}]))
    by (intros x acc; now rewrite check_bucket_run, bind_returned).
  rewrite bind_returned. unfold ret, try_except, list_field, envelope.
  cbn [fst snd app field assoc String.eqb Ascii.eqb Bool.eqb].
  split; [|split; [|split; [|vm_compute; reflexivity]]].
  - eexists. split; [reflexivity|].
    apply in_map_iff. exists (check_of w name). split; [|now apply in_map].
    unfold check_of. rewrite Hfail. unfold check_failed. rewrite Hother.
    reflexivity.
  - eexists. split; [reflexivity|].
    cbn [field assoc String.eqb Ascii.eqb Bool.eqb]. unfold VLen.
    rewrite filter_map_swap, length_map. do 4 f_equal.
    apply filter_ext. intros a. rewrite blocked_iff_not_potentially_public.
    apply negb_involutive.
  - unfold potentially_public. now rewrite Hfail.
Qed.

Lemma failed_check_counts_as_blocked_witness :
  potentially_public denied_bucket "logs" = false.
Proof.
  refine (proj1 (proj2 (proj2
    (failed_check_counts_as_blocked denied_bucket None ["logs"] "logs"
       access_denied _ _ _ _)))).
  - reflexivity.
  - simpl. left. reflexivity.
  - reflexivity.
  - vm_compute. reflexivity.
Defined.

(** ** Object search *)

Lemma scan_objects_limit (object_name : string) (exact_match : bool)
    (bucket_name : string) (objects : list S3Object) (matches : list value) :
  (List.length matches < match_limit)%nat ->
  let (found, limit_reached) :=
    scan_objects object_name exact_match bucket_name objects matches in
  if limit_reached then List.length found = match_limit
  else (List.length found < match_limit)%nat.
Proof.
  revert matches. induction objects as [|obj objects IH]; intros matches Hlt;
    cbn [scan_objects]; [exact Hlt|].
  destruct (is_match object_name exact_match (Key obj)); [|now apply IH].
  destruct (Nat.leb match_limit
              (List.length (matches ++ [match_entry bucket_name obj]))) eqn:E.
  - apply Nat.leb_le in E. rewrite length_app in *. cbn [List.length] in *.
    unfold match_limit in *. lia.
  - apply Nat.leb_gt in E. now apply IH.
Qed.

Lemma scan_objects_stops (object_name : string) (exact_match : bool)
    (bucket_name : string) (objects rest : list S3Object)
    (matches found : list value) :
  scan_objects object_name exact_match bucket_name objects matches
    = (found, true) ->
  scan_objects object_name exact_match bucket_name (objects ++ rest) matches
    = (found, true).
Proof.
  revert matches. induction objects as [|obj objects IH]; intros matches Hscan;
    cbn [scan_objects app] in *; [discriminate|].
  destruct (is_match object_name exact_match (Key obj)); [|now apply IH].
  destruct (Nat.leb match_limit
              (List.length (matches ++ [match_entry bucket_name obj])));
    [exact Hscan | now apply IH].
Qed.

Lemma scan_pages_limit (object_name : string) (exact_match : bool)
    (bucket_name : string) (pages : list ObjectPage)
    (failure : option ClientError) :
  forall (i : nat) (matches : list value),
    (List.length matches < match_limit)%nat ->
    let '(_, (found, ended)) :=
      scan_pages object_name exact_match bucket_name i pages failure matches in
    match ended with
    | LimitReached => List.length found = match_limit
    | _ => (List.length found < match_limit)%nat
    end.
Proof.
  induction pages as [|page pages IH]; intros i matches Hlt; cbn [scan_pages].
  - now destruct failure.
  - destruct (Contents page) as [objects|].
    + pose proof (scan_objects_limit object_name exact_match bucket_name
                    objects matches Hlt) as Hobj.
      destruct (scan_objects object_name exact_match bucket_name objects matches)
        as [found [|]]; [exact Hobj|].
      specialize (IH (S i) found Hobj).
      destruct (scan_pages object_name exact_match bucket_name (S i) pages
                  failure found) as [t [found' ended]].
      exact IH.
    + specialize (IH (S i) matches Hlt).
      destruct (scan_pages object_name exact_match bucket_name (S i) pages
                  failure matches) as [t [found' ended]].
      exact IH.
Qed.

Lemma scan_pages_stops (object_name : string) (exact_match : bool)
    (bucket_name : string) (pages rest : list ObjectPage)
    (failure failure' : option ClientError) :
  forall (i : nat) (matches found : list value) (t : trace),
    scan_pages object_name exact_match bucket_name i pages failure matches
      = (t, (found, LimitReached)) ->
    scan_pages object_name exact_match bucket_name i (pages ++ rest) failure'
      matches
      = (t, (found, LimitReached)).
Proof.
  induction pages as [|page pages IH]; intros i matches found t Hscan;
    cbn [scan_pages app] in *.
  - destruct failure; discriminate.
  - destruct (Contents page) as [objects|].
    + destruct (scan_objects object_name exact_match bucket_name objects matches)
        as [found0 [|]]; [exact Hscan|].
      destruct (scan_pages object_name exact_match bucket_name (S i) pages
                  failure found0) as [t0 r0] eqn:E.
      injection Hscan as <- ->.
      now rewrite (IH (S i) found0 found t0 E).
    + destruct (scan_pages object_name exact_match bucket_name (S i) pages
                  failure matches) as [t0 r0] eqn:E.
      injection Hscan as <- ->.
      now rewrite (IH (S i) matches found t0 E).
Qed.

(** What [scan_buckets] can return. *)
Lemma scan_buckets_result (w : Provider) (object_name : string)
    (exact_match : bool) (bucket_names : list string) :
  forall (matches : list value) (buckets_searched : Z)
         (buckets_with_errors : list value),
    (List.length matches < match_limit)%nat ->
    let result := snd (scan_buckets w object_name exact_match bucket_names
                         matches buckets_searched buckets_with_errors) in
    (exists found searched,
        result = truncated_result object_name exact_match found searched /\
        List.length found = match_limit /\
        buckets_searched < searched
          <= buckets_searched + Z.of_nat (List.length bucket_names)) \/
    (exists found errors,
        result = complete_result object_name exact_match found
                   (buckets_searched + Z.of_nat (List.length bucket_names))
                   errors /\
        (List.length found < match_limit)%nat).
Proof.
  induction bucket_names as [|name bucket_names IH];
    intros matches buckets_searched buckets_with_errors Hlt.
  - right. exists matches, buckets_with_errors. simpl. rewrite Z.add_0_r.
    now split.
  - cbn [scan_buckets].
    pose proof (scan_pages_limit object_name exact_match name
                  (pg_pages (s3_list_objects_v2 (s3 w) name))
                  (pg_failure (s3_list_objects_v2 (s3 w) name)) 0 matches Hlt) as Hpages.
    destruct (scan_pages object_name exact_match name 0
                (pg_pages (s3_list_objects_v2 (s3 w) name))
                (pg_failure (s3_list_objects_v2 (s3 w) name)) matches)
      as [t [found ended]].
    destruct ended as [| |e].
    + specialize (IH found (buckets_searched + 1) buckets_with_errors Hpages).
      destruct (scan_buckets w object_name exact_match bucket_names found
                  (buckets_searched + 1) buckets_with_errors) as [t' v].
      cbn [snd List.length] in *.
      destruct IH as [(f & s & Hv & Hf & Hs)|(f & errs & Hv & Hf)].
      * left. exists f, s. repeat split; auto; lia.
      * right. exists f, errs. split; [|exact Hf]. rewrite Hv. f_equal. lia.
    + left. exists found, (buckets_searched + 1). cbn [snd List.length].
      repeat split; auto; lia.
    + specialize (IH found (buckets_searched + 1)
                    (buckets_with_errors ++ [bucket_error name e])%list Hpages).
      destruct (scan_buckets w object_name exact_match bucket_names found
                  (buckets_searched + 1)
                  (buckets_with_errors ++ [bucket_error name e])%list) as [t' v].
      cbn [snd List.length] in *.
      destruct IH as [(f & s & Hv & Hf & Hs)|(f & errs & Hv & Hf)].
      * left. exists f, s. repeat split; auto; lia.
      * right. exists f, errs. split; [|exact Hf]. rewrite Hv. f_equal. lia.
Qed.

Lemma scan_buckets_stops (w : Provider) (object_name : string)
    (exact_match : bool) (bucket_names rest : list string) :
  forall (matches : list value) (buckets_searched : Z)
         (buckets_with_errors : list value) (t : trace)
         (found : list value) (searched : Z),
    scan_buckets w object_name exact_match bucket_names matches
      buckets_searched buckets_with_errors
      = (t, truncated_result object_name exact_match found searched) ->
    scan_buckets w object_name exact_match (bucket_names ++ rest) matches
      buckets_searched buckets_with_errors
      = (t, truncated_result object_name exact_match found searched).
Proof.
  induction bucket_names as [|name bucket_names IH];
    intros matches buckets_searched buckets_with_errors t found searched Hscan.
  - simpl in Hscan. discriminate.
  - cbn [scan_buckets app] in *.
    destruct (scan_pages object_name exact_match name 0
                (pg_pages (s3_list_objects_v2 (s3 w) name))
                (pg_failure (s3_list_objects_v2 (s3 w) name)) matches)
      as [t0 [found0 ended]].
    destruct ended as [| |e]; [|exact Hscan|].
    + destruct (scan_buckets w object_name exact_match bucket_names found0
                  (buckets_searched + 1) buckets_with_errors) as [t' v] eqn:E.
      injection Hscan as <- ->.
      now rewrite (IH _ _ _ _ _ _ E).
    + destruct (scan_buckets w object_name exact_match bucket_names found0
                  (buckets_searched + 1)
                  (buckets_with_errors ++ [bucket_error name e])%list)
        as [t' v] eqn:E.
      injection Hscan as <- ->.
      now rewrite (IH _ _ _ _ _ _ E).
Qed.

Lemma find_object_run (w : Provider) (object_name : string) (exact_match : bool)
    (buckets : list Bucket) :
  s3_list_buckets (s3 w) = Ok buckets ->
  find_object w object_name exact_match
  = ({| ev_op := ListBuckets; ev_error := None |}
       :: fst (scan_buckets w object_name exact_match
                 (map bucket_Name buckets) [] 0 []),
     Returned (snd (scan_buckets w object_name exact_match
                      (map bucket_Name buckets) [] 0 []))).
Proof.
  intros Hlist. unfold find_object. rewrite Hlist, bind_request_Ok.
  destruct (scan_buckets w object_name exact_match (map bucket_Name buckets)
              [] 0 []) as [t v].
  reflexivity.
Qed.

Lemma scan_buckets_ext (w w' : Provider) (object_name : string)
    (exact_match : bool) (bucket_names : list string) :
  (forall name, s3_list_objects_v2 (s3 w') name = s3_list_objects_v2 (s3 w) name) ->
  forall matches buckets_searched buckets_with_errors,
    scan_buckets w' object_name exact_match bucket_names matches
      buckets_searched buckets_with_errors
    = scan_buckets w object_name exact_match bucket_names matches
        buckets_searched buckets_with_errors.
Proof.
  intros Hsame. induction bucket_names as [|name bucket_names IH];
    intros matches buckets_searched buckets_with_errors; [reflexivity|].
  cbn [scan_buckets]. rewrite Hsame.
  destruct (scan_pages object_name exact_match name 0
              (pg_pages (s3_list_objects_v2 (s3 w) name))
              (pg_failure (s3_list_objects_v2 (s3 w) name)) matches)
    as [t [found [| |e]]]; [|reflexivity|]; now rewrite IH.
Qed.

(** C4. [find_object] returns at most 50 matches.  A run that reached 50
    matches returned at that moment, with [truncated: true], the message
    and the number of buckets entered so far; a run with fewer than 50
    matches went through every bucket and returns [truncated: false] with
    [buckets_searched] equal to the number of buckets.  The return at the
    limit ends all three loops: what follows the fiftieth match in its
    page, the pages after that page (none of them is fetched: the trace is
    the same) and the buckets after that bucket have no influence on the
    run. *)
Theorem find_object_stops_at_limit (w : Provider) (object_name : string)
    (exact_match : bool) (buckets : list Bucket) :
  s3_list_buckets (s3 w) = Ok buckets ->
  let run := find_object w object_name exact_match in
  (exists env matches,
     envelope run = Some env /\
     field "matches" env = Some (VList matches) /\
     field "match_count" env = Some (VLen matches) /\
     (List.length matches <= 50)%nat /\
     (List.length matches = 50%nat ->
      field "truncated" env = Some (VBool true) /\
      field "message" env = Some (VStr "Results limited to 50 matches") /\
      exists searched,
        field "buckets_searched" env = Some (VInt searched) /\
        1 <= searched <= Z.of_nat (List.length buckets)) /\
     ((List.length matches < 50)%nat ->
      field "truncated" env = Some (VBool false) /\
      field "buckets_searched" env
      = Some (VInt (Z.of_nat (List.length buckets))))) /\
  (forall bucket objects rest matches found,
     scan_objects object_name exact_match bucket objects matches = (found, true) ->
     scan_objects object_name exact_match bucket (objects ++ rest) matches
     = (found, true)) /\
  (forall bucket i pages rest failure failure' matches found t,
     scan_pages object_name exact_match bucket i pages failure matches
     = (t, (found, LimitReached)) ->
     scan_pages object_name exact_match bucket i (pages ++ rest) failure' matches
     = (t, (found, LimitReached))) /\
  (forall w' more,
     s3_list_buckets (s3 w') = Ok (buckets ++ more)%list ->
     (forall name, s3_list_objects_v2 (s3 w') name = s3_list_objects_v2 (s3 w) name) ->
     (exists env, envelope run = Some env /\
                  field "truncated" env = Some (VBool true)) ->
     find_object w' object_name exact_match = run) /\
  (let early := find_object three_buckets "report" false in
   calls early
   = [{| ev_op := ListBuckets; ev_error := None |};
      {| ev_op := ListObjectsV2 "archive" 0; ev_error := None |}] /\
   (exists env, envelope early = Some env /\
      field "match_count" env = Some (VInt 50) /\
      field "truncated" env = Some (VBool true) /\
      field "buckets_searched" env = Some (VInt 1))) /\
  (let full := find_object three_buckets "report-7" true in
   exists env, envelope full = Some env /\
     field "match_count" env = Some (VInt 1) /\
     field "truncated" env = Some (VBool false) /\
     field "buckets_searched" env = Some (VInt 3)).
Proof.
  intros Hlist run. subst run.
  rewrite (find_object_run w object_name exact_match buckets Hlist).
  unfold envelope. cbn [snd].
  split; [|split; [|split; [|split; [|split]]]].
  - pose proof (scan_buckets_result w object_name exact_match
                  (map bucket_Name buckets) [] 0 []
                  ltac:(unfold match_limit; simpl; lia)) as Hresult.
    cbv zeta in Hresult. rewrite length_map in Hresult.
    unfold match_limit in Hresult.
    destruct Hresult as [(found & searched & -> & Hlen & Hs)
                        |(found & errors & -> & Hlen)].
    + eexists. exists found. split; [reflexivity|].
      unfold truncated_result.
      cbn [field assoc String.eqb Ascii.eqb Bool.eqb].
      repeat split; try lia.
      exists searched. split; [reflexivity | lia].
    + eexists. exists found. split; [reflexivity|].
      unfold complete_result.
      cbn [field assoc String.eqb Ascii.eqb Bool.eqb].
      repeat split; try lia; reflexivity.
  - intros. now apply scan_objects_stops.
  - intros. now apply scan_pages_stops with (failure := failure).
  - intros w' more Hlist' Hsame (env & [= <-] & Htrunc).
    rewrite (find_object_run w' object_name exact_match _ Hlist').
    rewrite (scan_buckets_ext w w' object_name exact_match _ Hsame).
    pose proof (scan_buckets_result w object_name exact_match
                  (map bucket_Name buckets) [] 0 []
                  ltac:(unfold match_limit; simpl; lia)) as Hresult.
    cbv zeta in Hresult.
    destruct Hresult as [(found & searched & Hv & _)|(found & errors & Hv & _)].
    + rewrite map_app.
      destruct (scan_buckets w object_name exact_match
                  (map bucket_Name buckets) [] 0 []) as [t v] eqn:E.
      cbn [snd] in Hv. subst v.
      now rewrite (scan_buckets_stops w object_name exact_match _ _ _ _ _ _ _ _ E).
    + rewrite Hv in Htrunc. discriminate Htrunc.
  - vm_compute. split; [reflexivity|]. eexists. repeat split; reflexivity.
  - vm_compute. eexists. repeat split; reflexivity.
Qed.

Lemma find_object_stops_at_limit_witness :
  let run := find_object three_buckets "report" false in
  exists env matches,
    envelope run = Some env /\
    field "matches" env = Some (VList matches) /\
    field "match_count" env = Some (VLen matches) /\
    (List.length matches <= 50)%nat /\
    (List.length matches = 50%nat ->
     field "truncated" env = Some (VBool true) /\
     field "message" env = Some (VStr "Results limited to 50 matches") /\
     exists searched,
       field "buckets_searched" env = Some (VInt searched) /\
       1 <= searched <= Z.of_nat 3) /\
    ((List.length matches < 50)%nat ->
     field "truncated" env = Some (VBool false) /\
     field "buckets_searched" env = Some (VInt (Z.of_nat 3))).
Proof.
  exact (proj1 (find_object_stops_at_limit three_buckets "report" false
                  [named_bucket "archive"; named_bucket "broken";
                   named_bucket "current"]
                  eq_refl)).
Defined.

(** ** Failures and envelopes: the rules *)

Lemma behaves_ret {A : Type} (p : op -> bool) (a : A) (Q : A -> Prop) :
  Q a -> behaves p (ret a) Q.
Proof. intros Ha. split; [exact Ha | constructor]. Qed.

Lemma behaves_bind {A B : Type} (p : op -> bool) (m : M A) (f : A -> M B)
    (P : A -> Prop) (Q : B -> Prop) :
  behaves p m P -> (forall a, P a -> behaves p (f a) Q) ->
  behaves p (bind m f) Q.
Proof.
  intros Hm Hf. destruct m as [t [a|e]]; [|exact Hm].
  destruct Hm as [Ha Ht]. rewrite bind_returned.
  specialize (Hf a Ha). destruct (f a) as [t' [b|e]]; cbn [fst snd].
  - destruct Hf as [Hb Ht']. split; [exact Hb|]. apply Forall_app. now split.
  - destruct Hf as (t0 & o & -> & Ht0). exists (t ++ t0)%list, o.
    split; [now rewrite app_assoc|]. apply Forall_app. now split.
Qed.

Lemma behaves_bind_any {A B : Type} (p : op -> bool) (m : M A) (f : A -> M B)
    (Q : B -> Prop) :
  behaves p m (fun _ => True) -> (forall a, behaves p (f a) Q) ->
  behaves p (bind m f) Q.
Proof. intros Hm Hf. eapply behaves_bind; [exact Hm | auto]. Qed.

Lemma behaves_request {A : Type} (p : op -> bool) (o : op) (r : response A) :
  behaves p (request o r) (fun _ => True).
Proof.
  destruct r as [a|e]; unfold request; simpl.
  - split; [exact I|]. constructor; [now left | constructor].
  - exists [], o. split; [reflexivity | constructor].
Qed.

Lemma behaves_for_each {X St : Type} (p : op -> bool)
    (body : X -> St -> M St) (xs : list X) (s : St) :
  (forall x s, behaves p (body x s) (fun _ => True)) ->
  behaves p (for_each xs body s) (fun _ => True).
Proof.
  intros Hbody. revert s. induction xs as [|x xs IH]; intros s; simpl.
  - now apply behaves_ret.
  - apply behaves_bind_any; [apply Hbody | apply IH].
Qed.

Lemma behaves_paginate_from {P St : Type} (p : op -> bool) (fetch : nat -> op)
    (pages : list P) (failure : option ClientError)
    (body : P -> St -> M St) :
  (forall page s, behaves p (body page s) (fun _ => True)) ->
  forall i s,
    behaves p (paginate_from fetch i pages failure body s) (fun _ => True).
Proof.
  intros Hbody. induction pages as [|page pages IH]; intros i s; simpl.
  - destruct failure as [e|]; [|now apply behaves_ret].
    apply behaves_bind_any; [apply behaves_request|].
    intros _. now apply behaves_ret.
  - apply behaves_bind_any; [apply behaves_request|]. intros _.
    apply behaves_bind_any; [apply Hbody | apply IH].
Qed.

Lemma behaves_paginate {P St : Type} (p : op -> bool) (fetch : nat -> op)
    (pg : paginator P) (body : P -> St -> M St) (s : St) :
  (forall page s, behaves p (body page s) (fun _ => True)) ->
  behaves p (paginate fetch pg body s) (fun _ => True).
Proof. intros Hbody. now apply behaves_paginate_from. Qed.

(** A per-item [try ... except]: one request, whose failure the tool
    tolerates, a continuation and a handler that make no request. *)
Lemma behaves_try_request {A B : Type} (p : op -> bool) (o : op)
    (r : response A) (k : A -> M B) (h : ClientError -> M B) (Q : B -> Prop) :
  p o = true ->
  (forall a, exists b, k a = ret b /\ Q b) ->
  (forall e, exists b, h e = ret b /\ Q b) ->
  behaves p (try_except (bind (request o r) k) h) Q.
Proof.
  intros Hp Hk Hh. destruct r as [a|e].
  - rewrite bind_request_Ok. destruct (Hk a) as (b & -> & Hb).
    unfold try_except, ret. cbn [fst snd].
    split; [exact Hb|]. constructor; [now left | constructor].
  - rewrite bind_request_Err. destruct (Hh e) as (b & Hhe & Hb).
    unfold try_except. rewrite Hhe. unfold ret. cbn [app].
    split; [exact Hb|]. constructor; [now right | constructor].
Qed.

Lemma has_field_keys (k : string) (d : list (string * value)) :
  has_field k (VDict d) = true <-> In k (keys d).
Proof.
  unfold has_field, field. induction d as [|[k' v] d IH]; simpl.
  - split; [discriminate | contradiction].
  - destruct (String.eqb k k') eqn:E.
    + apply String.eqb_eq in E. subst. split; auto.
    + apply String.eqb_neq in E. rewrite IH. split; [auto|].
      intros [Heq|Hin]; [congruence | exact Hin].
Qed.

Lemma mem_In (k : string) (l : list string) : mem k l = true <-> In k l.
Proof.
  unfold mem. rewrite existsb_exists. split.
  - intros (x & Hin & Heq). apply String.eqb_eq in Heq. now subst.
  - intros Hin. exists k. split; [exact Hin | apply String.eqb_refl].
Qed.

Lemma same_keys_eq (l1 l2 : list string) : same_keys l1 l2 = true -> l1 = l2.
Proof.
  revert l2. induction l1 as [|k1 l1 IH]; intros [|k2 l2]; simpl;
    try discriminate; [reflexivity|].
  intros H. apply andb_true_iff in H as [Hk Hl].
  apply String.eqb_eq in Hk. apply IH in Hl. now subst.
Qed.

Lemma has_field_false (k : string) (env : value) :
  has_field k env = false <-> ~ (has_field k env = true).
Proof. destruct (has_field k env); split; congruence. Qed.

(** An envelope of the right shape satisfies the discriminator
    invariant. *)
Lemma shaped_discriminated (fields : list string) (env : value) :
  mem "error" fields = false ->
  mem "suggestion" fields = false ->
  shaped fields env = true ->
  discriminated fields env.
Proof.
  intros Herr Hsug Hshape. unfold shaped in Hshape.
  apply orb_true_iff in Hshape as [Hshape|Hshape].
  - left. destruct env as [| | | | | |d]; try discriminate. simpl in Hshape.
    assert (Hkeys : forall k, In k (keys d) -> k = "error" \/ k = "suggestion").
    { apply orb_true_iff in Hshape as [H|H]; apply same_keys_eq in H;
        rewrite H; simpl; intuition. }
    assert (Hhas : In "error" (keys d)).
    { apply orb_true_iff in Hshape as [H|H]; apply same_keys_eq in H;
        rewrite H; simpl; auto. }
    split; [now apply has_field_keys|].
    intros k Hk. apply has_field_false. intros Hfield.
    apply has_field_keys in Hfield. apply mem_In in Hk.
    destruct (Hkeys k Hfield); subst; congruence.
  - right. destruct env as [| | | | | |d]; try discriminate. simpl in Hshape.
    apply andb_true_iff in Hshape as [Hne Hall].
    rewrite forallb_forall in Hall. split.
    + apply has_field_false. intros Hfield. apply has_field_keys in Hfield.
      apply Hall in Hfield. congruence.
    + destruct d as [|[k v] d]; [discriminate|].
      exists k. split.
      * apply mem_In, Hall. now left.
      * apply has_field_keys. now left.
Qed.

Lemma governed_ret (p : op -> bool) (fields : list string) (env : value) :
  shaped fields env = true -> governed p fields (ret env).
Proof.
  intros Hshape. exists env. split; [reflexivity|]. split; [exact Hshape|].
  intros ev e [].
Qed.

Lemma quiet_failure (p : op -> bool) (t : trace) (ev : event) (e : ClientError) :
  Forall (quiet p) t -> In ev t -> ev_error ev = Some e ->
  p (ev_op ev) = false -> False.
Proof.
  intros Hquiet Hin Herr Hp. rewrite Forall_forall in Hquiet.
  destruct (Hquiet ev Hin) as [H|H]; congruence.
Qed.

(** A tool that wraps its body in [try ... except ClientError as e:
    return {"error": str(e)}]. *)
Lemma governed_try_except (p : op -> bool) (fields : list string)
    (body : M value) :
  behaves p body (fun env => shaped fields env = true) ->
  governed p fields (try_except body return_error).
Proof.
  intros Hbody. destruct body as [t [env|e]]; simpl in Hbody.
  - destruct Hbody as [Hshape Hquiet]. exists env.
    split; [reflexivity|]. split; [exact Hshape|].
    intros ev e Hin Herr Hp. exfalso. eapply quiet_failure; eauto.
  - destruct Hbody as (t0 & o & -> & Hquiet). exists (error_envelope e).
    split; [reflexivity|]. split; [reflexivity|].
    intros ev e' Hin Herr Hp. left.
    unfold calls, try_except, return_error, ret in Hin. cbn [fst] in Hin.
    rewrite app_nil_r in Hin. apply in_app_iff in Hin as [Hin|[<-|[]]].
    + exfalso. eapply quiet_failure; eauto.
    + simpl in Herr. now injection Herr as <-.
Qed.

(** The handler of [list_fargate_retirements], which answers the
    entitlement error with a suggestion. *)
Lemma governed_try_except_entitlement (p : op -> bool) (fields : list string)
    (body : M value) :
  behaves p body (fun env => shaped fields env = true) ->
  governed p fields
    (try_except body
       (fun e =>
          if String.eqb (err_code e) "SubscriptionRequiredException"
          then ret entitlement_envelope
          else return_error e)).
Proof.
  intros Hbody. destruct body as [t [env|e]]; simpl in Hbody.
  - destruct Hbody as [Hshape Hquiet]. exists env.
    split; [reflexivity|]. split; [exact Hshape|].
    intros ev e Hin Herr Hp. exfalso. eapply quiet_failure; eauto.
  - destruct Hbody as (t0 & o & -> & Hquiet).
    unfold governed, calls, try_except.
    destruct (String.eqb (err_code e) "SubscriptionRequiredException") eqn:Hcode.
    + exists entitlement_envelope. split; [reflexivity|]. split; [reflexivity|].
      intros ev e' Hin Herr Hp. right.
      unfold ret in Hin. cbn [fst] in Hin. rewrite app_nil_r in Hin.
      apply in_app_iff in Hin as [Hin|[<-|[]]].
      * exfalso. eapply quiet_failure; eauto.
      * simpl in Herr. injection Herr as <-.
        split; [reflexivity | now apply String.eqb_eq].
    + exists (error_envelope e). split; [reflexivity|]. split; [reflexivity|].
      intros ev e' Hin Herr Hp. left.
      unfold return_error, ret in Hin. cbn [fst] in Hin.
      rewrite app_nil_r in Hin.
      apply in_app_iff in Hin as [Hin|[<-|[]]].
      * exfalso. eapply quiet_failure; eauto.
      * simpl in Herr. now injection Herr as <-.
Qed.

(** ** Every tool is governed *)

Ltac pure_step :=
  intros; eexists; split; [reflexivity | first [exact I | reflexivity]].

Ltac behave_step :=
  lazymatch goal with
  | |- behaves _ (ret _) _ => apply behaves_ret; first [exact I | reflexivity]
  | |- behaves _ (try_except (bind (request _ _) _) _) _ =>
      apply behaves_try_request; [reflexivity | pure_step | pure_step]
  | |- behaves _ (bind _ _) _ => apply behaves_bind_any; [|intros]
  | |- behaves _ (request _ _) _ => apply behaves_request
  | |- behaves _ (for_each _ _ _) _ => apply behaves_for_each; intros
  | |- behaves _ (paginate _ _ _ _) _ => apply behaves_paginate; intros
  | |- behaves _ (if ?b then _ else _) _ => destruct b
  | |- behaves _ (match ?x with _ => _ end) _ => destruct x
  end.

Ltac behave := repeat behave_step.

Ltac govern := apply governed_try_except; behave.

Section Governed.

Variable w : Provider.
Variable now : datetime.

Lemma governed_list_iam_users :
  governed (per_item call_list_iam_users) (success_fields call_list_iam_users)
    (list_iam_users w).
Proof. unfold list_iam_users. govern. Qed.

Lemma governed_stale (days : Z) :
  governed (per_item (call_list_users_with_stale_credentials days))
    (success_fields (call_list_users_with_stale_credentials days))
    (list_users_with_stale_credentials w now days).
Proof. unfold list_users_with_stale_credentials. govern. Qed.

Lemma governed_admin :
  governed (per_item call_list_users_with_admin_access)
    (success_fields call_list_users_with_admin_access)
    (list_users_with_admin_access w).
Proof. unfold list_users_with_admin_access. govern. Qed.

Lemma governed_list_iam_roles (path_prefix : string) :
  governed (per_item (call_list_iam_roles path_prefix))
    (success_fields (call_list_iam_roles path_prefix))
    (list_iam_roles w path_prefix).
Proof. unfold list_iam_roles. govern. Qed.

Lemma governed_get_role_trust_policy (role_name : string) :
  governed (per_item (call_get_role_trust_policy role_name))
    (success_fields (call_get_role_trust_policy role_name))
    (get_role_trust_policy w role_name).
Proof. unfold get_role_trust_policy. govern. Qed.

Lemma governed_list_access_keys (username : option string) :
  governed (per_item (call_list_access_keys username))
    (success_fields (call_list_access_keys username))
    (list_access_keys w now username).
Proof. unfold list_access_keys. govern. Qed.

Lemma governed_list_ecs_clusters :
  governed (per_item call_list_ecs_clusters) (success_fields call_list_ecs_clusters)
    (list_ecs_clusters w).
Proof. unfold list_ecs_clusters. govern. Qed.

Lemma governed_list_ecs_services (cluster_name : string) :
  governed (per_item (call_list_ecs_services cluster_name))
    (success_fields (call_list_ecs_services cluster_name))
    (list_ecs_services w cluster_name).
Proof. unfold list_ecs_services, describe_services_batched. govern. Qed.

Lemma governed_get_ecs_service_status (cluster_name service_name : string) :
  governed (per_item (call_get_ecs_service_status cluster_name service_name))
    (success_fields (call_get_ecs_service_status cluster_name service_name))
    (get_ecs_service_status w cluster_name service_name).
Proof. unfold get_ecs_service_status. govern. Qed.

Lemma governed_list_ecs_tasks (cluster_name : string)
    (service_name : option string) :
  governed (per_item (call_list_ecs_tasks cluster_name service_name))
    (success_fields (call_list_ecs_tasks cluster_name service_name))
    (list_ecs_tasks w cluster_name service_name).
Proof. unfold list_ecs_tasks, describe_tasks_batched. govern. Qed.

Lemma governed_describe_task_definition (task_definition : string) :
  governed (per_item (call_describe_task_definition task_definition))
    (success_fields (call_describe_task_definition task_definition))
    (describe_task_definition w task_definition).
Proof. unfold describe_task_definition. govern. Qed.

Lemma governed_list_s3_buckets :
  governed (per_item call_list_s3_buckets) (success_fields call_list_s3_buckets)
    (list_s3_buckets w).
Proof. unfold list_s3_buckets. govern. Qed.

Lemma governed_get_bucket_size (bucket_name : string) :
  governed (per_item (call_get_bucket_size bucket_name))
    (success_fields (call_get_bucket_size bucket_name))
    (get_bucket_size w bucket_name).
Proof. unfold get_bucket_size. govern. Qed.

Lemma governed_check_bucket_public_access (bucket_name : option string) :
  governed (per_item (call_check_bucket_public_access bucket_name))
    (success_fields (call_check_bucket_public_access bucket_name))
    (check_bucket_public_access w bucket_name).
Proof.
  unfold check_bucket_public_access, buckets_to_check, check_bucket. govern.
Qed.

Lemma governed_get_bucket_encryption (bucket_name : option string) :
  governed (per_item (call_get_bucket_encryption bucket_name))
    (success_fields (call_get_bucket_encryption bucket_name))
    (get_bucket_encryption w bucket_name).
Proof.
  unfold get_bucket_encryption, buckets_to_check, bucket_encryption. govern.
Qed.

Lemma governed_list_lambda_functions (region : option string) :
  governed (per_item (call_list_lambda_functions region))
    (success_fields (call_list_lambda_functions region))
    (list_lambda_functions w region).
Proof. unfold list_lambda_functions. cbv zeta. govern. Qed.

Lemma shaped_deprecated_report (include_approaching_eol : bool) (s : Scan) :
  shaped (success_fields (call_find_deprecated_runtimes include_approaching_eol))
    (deprecated_report include_approaching_eol s) = true.
Proof.
  unfold deprecated_report. cbv zeta.
  destruct (fold_left (fun summary rt => count_runtime rt summary)
              (deprecated_runtimes s) []);
    destruct include_approaching_eol; reflexivity.
Qed.

Lemma governed_find_deprecated_runtimes (include_approaching_eol : bool) :
  governed (per_item (call_find_deprecated_runtimes include_approaching_eol))
    (success_fields (call_find_deprecated_runtimes include_approaching_eol))
    (find_deprecated_runtimes w include_approaching_eol).
Proof.
  unfold find_deprecated_runtimes. apply governed_try_except.
  apply behaves_bind_any; [behave|]. intros s.
  apply behaves_ret, shaped_deprecated_report.
Qed.

Lemma governed_get_lambda_function (function_name : string) :
  governed (per_item (call_get_lambda_function function_name))
    (success_fields (call_get_lambda_function function_name))
    (get_lambda_function w function_name).
Proof. unfold get_lambda_function. govern. Qed.

Lemma governed_list_lambda_runtimes :
  governed (per_item call_list_lambda_runtimes)
    (success_fields call_list_lambda_runtimes) list_lambda_runtimes.
Proof. apply governed_ret. reflexivity. Qed.

Lemma governed_list_fargate_retirements (days : Z) :
  governed (per_item (call_list_fargate_retirements days))
    (success_fields (call_list_fargate_retirements days))
    (list_fargate_retirements w now days).
Proof.
  unfold list_fargate_retirements.
  destruct (health_client_failure w) as [msg|];
    [apply governed_ret; reflexivity|].
  cbv zeta. apply governed_try_except_entitlement.
  apply behaves_bind_any; [behave|]. intros [|event events]; [behave|].
  apply behaves_bind_any; [|intros; behave].
  apply behaves_for_each. intros ev retirements.
  apply behaves_try_request; [reflexivity | | pure_step].
  intros affected. eexists. split; [apply for_each_filter_append | exact I].
Qed.

Lemma scan_pages_listing (object_name : string) (exact_match : bool)
    (bucket_name : string) (pages : list ObjectPage)
    (failure : option ClientError) :
  forall i matches,
    Forall (fun ev => exists j, ev_op ev = ListObjectsV2 bucket_name j)
      (fst (scan_pages object_name exact_match bucket_name i pages failure
              matches)).
Proof.
  induction pages as [|page pages IH]; intros i matches; cbn [scan_pages].
  - destruct failure; simpl; repeat constructor. now exists i.
  - destruct (Contents page) as [objects|].
    + destruct (scan_objects object_name exact_match bucket_name objects matches)
        as [found [|]].
      * simpl. repeat constructor. now exists i.
      * specialize (IH (S i) found).
        destruct (scan_pages object_name exact_match bucket_name (S i) pages
                    failure found) as [t r].
        simpl in *. constructor; [now exists i | exact IH].
    + specialize (IH (S i) matches).
      destruct (scan_pages object_name exact_match bucket_name (S i) pages
                  failure matches) as [t r].
      simpl in *. constructor; [now exists i | exact IH].
Qed.

Lemma scan_buckets_listing (object_name : string) (exact_match : bool)
    (bucket_names : list string) :
  forall matches buckets_searched buckets_with_errors,
    Forall (fun ev => exists bucket j, ev_op ev = ListObjectsV2 bucket j)
      (fst (scan_buckets w object_name exact_match bucket_names matches
              buckets_searched buckets_with_errors)).
Proof.
  induction bucket_names as [|name bucket_names IH];
    intros matches buckets_searched buckets_with_errors; cbn [scan_buckets];
    [constructor|].
  pose proof (scan_pages_listing object_name exact_match name
                (pg_pages (s3_list_objects_v2 (s3 w) name))
                (pg_failure (s3_list_objects_v2 (s3 w) name)) 0 matches) as Hpages.
  assert (Hpages' : Forall (fun ev => exists bucket j,
                                ev_op ev = ListObjectsV2 bucket j)
                      (fst (scan_pages object_name exact_match name 0
                              (pg_pages (s3_list_objects_v2 (s3 w) name))
                              (pg_failure (s3_list_objects_v2 (s3 w) name)) matches))).
  { eapply Forall_impl; [|exact Hpages]. intros ev [j Hj]. now exists name, j. }
  clear Hpages.
  destruct (scan_pages object_name exact_match name 0
              (pg_pages (s3_list_objects_v2 (s3 w) name))
              (pg_failure (s3_list_objects_v2 (s3 w) name)) matches)
    as [t [found [| |e]]]; cbn [fst] in *.
  - specialize (IH found (buckets_searched + 1) buckets_with_errors).
    destruct (scan_buckets w object_name exact_match bucket_names found
                (buckets_searched + 1) buckets_with_errors) as [t' v].
    cbn [fst] in *. apply Forall_app. now split.
  - exact Hpages'.
  - specialize (IH found (buckets_searched + 1)
                  (buckets_with_errors ++ [bucket_error name e])%list).
    destruct (scan_buckets w object_name exact_match bucket_names found
                (buckets_searched + 1)
                (buckets_with_errors ++ [bucket_error name e])%list) as [t' v].
    cbn [fst] in *. apply Forall_app. now split.
Qed.

Lemma governed_find_object (object_name : string) (exact_match : bool) :
  governed (per_item (call_find_object object_name exact_match))
    (success_fields (call_find_object object_name exact_match))
    (find_object w object_name exact_match).
Proof.
  unfold find_object. apply governed_try_except.
  apply behaves_bind_any; [behave|]. intros response.
  pose proof (scan_buckets_listing object_name exact_match
                (map bucket_Name response) [] 0 []) as Hlisting.
  pose proof (scan_buckets_result w object_name exact_match
                (map bucket_Name response) [] 0 []
                ltac:(unfold match_limit; simpl; lia)) as Hresult.
  cbv zeta in Hresult.
  destruct (scan_buckets w object_name exact_match (map bucket_Name response)
              [] 0 []) as [t v].
  cbn [fst snd] in *. split.
  - destruct Hresult as [(found & searched & -> & _)|(found & errors & -> & _)];
      reflexivity.
  - eapply Forall_impl; [|exact Hlisting].
    intros ev (bucket & j & Hop). right. now rewrite Hop.
Qed.

End Governed.

(** Every invocation of every registered tool is governed. *)
Lemma invoke_governed (w : Provider) (now : datetime) (c : invocation) :
  governed (per_item c) (success_fields c) (invoke w now c).
Proof.
  destruct c; cbn [invoke].
  - apply governed_list_iam_users.
  - apply governed_stale.
  - apply governed_admin.
  - apply governed_list_iam_roles.
  - apply governed_get_role_trust_policy.
  - apply governed_list_access_keys.
  - apply governed_list_ecs_clusters.
  - apply governed_list_ecs_services.
  - apply governed_get_ecs_service_status.
  - apply governed_list_ecs_tasks.
  - apply governed_describe_task_definition.
  - apply governed_list_fargate_retirements.
  - apply governed_list_s3_buckets.
  - apply governed_get_bucket_size.
  - apply governed_check_bucket_public_access.
  - apply governed_find_object.
  - apply governed_get_bucket_encryption.
  - apply governed_list_lambda_functions.
  - apply governed_find_deprecated_runtimes.
  - apply governed_get_lambda_function.
  - apply governed_list_lambda_runtimes.
Qed.

(** ** The envelope discriminator *)

(** A tool that no exception leaves returns an envelope. *)
Lemma returned_without_escape (hz : Hazards) (w : Provider) (now : datetime)
    (c : invocation) :
  escapes hz w now c = false ->
  exists env, returned_envelope hz w now c = Some env.
Proof.
  intros Hsafe. unfold returned_envelope. rewrite Hsafe.
  destruct (invoke_governed w now c) as (env & Hrun & _).
  exists env. unfold envelope. now rewrite Hrun.
Qed.

Lemma returned_is_envelope (hz : Hazards) (w : Provider) (now : datetime)
    (c : invocation) (env : value) :
  returned_envelope hz w now c = Some env ->
  escapes hz w now c = false /\ envelope (invoke w now c) = Some env.
Proof.
  unfold returned_envelope. destruct (escapes hz w now c);
    [discriminate | now split].
Qed.

(** Exceptions that leave a tool without an envelope: the empty bucket
    name that botocore refuses, a client that cannot be created, a window
    of more days than [timedelta] holds. *)
Example refused_request_escapes :
  returned_envelope refuses_empty_bucket quiet_provider scenario_now
    (call_get_bucket_size "") = None.
Proof. reflexivity. Qed.

Example missing_client_escapes :
  returned_envelope no_clients_available quiet_provider scenario_now
    call_list_iam_users = None /\
  returned_envelope no_clients_available quiet_provider scenario_now
    call_list_lambda_runtimes
  = envelope list_lambda_runtimes.
Proof. split; reflexivity. Qed.

Example window_overflow_escapes :
  returned_envelope no_hazards quiet_provider scenario_now
    (call_list_fargate_retirements 1000000000) = None /\
  returned_envelope no_hazards quiet_provider scenario_now
    (call_list_fargate_retirements 3000000) = None /\
  exists env,
    returned_envelope no_hazards quiet_provider scenario_now
      (call_list_fargate_retirements 14) = Some env.
Proof. repeat split. eexists. vm_compute. reflexivity. Qed.

(** C1. Every envelope a registered tool returns satisfies the
    discriminator invariant, whatever the provider answers: it has the
    key [error] and none of the tool's success fields, or it has no
    [error] key and at least one success field; never both, never
    neither.  This covers success, any [ClientError], and the entitlement
    error of the maintenance-event query, whose envelope carries [error]
    and [suggestion] and no success field.  An exception that is not a
    [ClientError] leaves the tool, which then returns no envelope. *)
Theorem envelope_discriminator (hz : Hazards) (w : Provider) (now : datetime)
    (c : invocation) (env : value) :
  returned_envelope hz w now c = Some env ->
  discriminated (success_fields c) env /\
  ~ (has_field "error" env = true /\
     exists k, In k (success_fields c) /\ has_field k env = true) /\
  ~ (has_field "error" env = false /\
     forall k, In k (success_fields c) -> has_field k env = false).
Proof.
  intros Hreturned. apply returned_is_envelope in Hreturned as [_ Henv].
  destruct (invoke_governed w now c) as (env' & Hrun & Hshape & _).
  unfold envelope in Henv. rewrite Hrun in Henv. injection Henv as <-.
  assert (Hd : discriminated (success_fields c) env')
    by (apply shaped_discriminated; [destruct c; reflexivity ..| exact Hshape]).
  split; [exact Hd|]. split.
  - intros [Herr (k & Hk & Hfield)].
    destruct Hd as [[_ Hnone]|[Hno _]]; [|congruence].
    rewrite (Hnone k Hk) in Hfield. discriminate.
  - intros [Herr Hnone].
    destruct Hd as [[Hyes _]|[_ (k & Hk & Hfield)]]; [congruence|].
    rewrite (Hnone k Hk) in Hfield. discriminate.
Qed.

Lemma envelope_discriminator_witness :
  discriminated
    (success_fields (call_list_fargate_retirements 14))
    entitlement_envelope /\
  ~ (has_field "error" entitlement_envelope = true /\
     exists k, In k (success_fields (call_list_fargate_retirements 14)) /\
               has_field k entitlement_envelope = true) /\
  ~ (has_field "error" entitlement_envelope = false /\
     forall k, In k (success_fields (call_list_fargate_retirements 14)) ->
               has_field k entitlement_envelope = false).
Proof.
  exact (envelope_discriminator no_hazards
           (listing_fails subscription_required) scenario_now
           (call_list_fargate_retirements 14) entitlement_envelope eq_refl).
Defined.

(** ** The maintenance-event query *)

Lemma paginate_from_pure_ext {P St : Type} (fetch : nat -> op)
    (pages : list P) (failure : option ClientError)
    (body : P -> St -> M St) (g : P -> St -> St) :
  (forall p s, body p s = ret (g p s)) ->
  forall i s,
    paginate_from fetch i pages failure body s
    = (page_events fetch i (List.length pages) failure,
       match failure with
       | None => Returned (fold_left (fun s p => g p s) pages s)
       | Some e => Raised e
       end).
Proof.
  intros Hbody. induction pages as [|p pages IH]; intros i s.
  - simpl. destruct failure; reflexivity.
  - cbn [paginate_from List.length page_events fold_left].
    rewrite Hbody, bind_ret, IH, bind_request_Ok. destruct failure; reflexivity.
Qed.

Lemma window_loop (end_time : Z) (page : list HealthEvent)
    (events : list HealthEvent) :
  for_each page
    (fun event events =>
       match startTime event with
       | Some event_start =>
           if instant event_start <=? end_time
           then ret (events ++ [event])%list
           else ret events
       | None => ret events
       end)
    events
  = ret (events ++ filter (in_window end_time) page)%list.
Proof.
  revert events. induction page as [|event page IH]; intros events.
  - simpl. now rewrite app_nil_r.
  - cbn [for_each filter]. unfold in_window at 1.
    destruct (startTime event) as [event_start|];
      [destruct (instant event_start <=? end_time)|];
      rewrite bind_ret, IH; [now rewrite <- app_assoc | reflexivity..].
Qed.

(** The per-event lookups never interrupt the query. *)
Lemma lookups_return (w : Provider) (events : list HealthEvent)
    (retirements : list Retirement) :
  exists found,
    snd (for_each events
           (fun event retirements =>
              try_except
                (affected <-
                   request (DescribeAffectedEntities (event_arn event))
                     (health_describe_affected_entities (health w) (event_arn event)) ;;
                 for_each (or_empty affected)
                   (fun entity retirements =>
                      if is_fargate_entity event entity
                      then ret (retirements ++ [retirement_of event entity])%list
                      else ret retirements)
                   retirements)
                (fun _ => ret retirements))
           retirements)
    = Returned found.
Proof.
  revert retirements. induction events as [|event events IH];
    intros retirements; [now exists retirements|].
  cbn [for_each].
  destruct (health_describe_affected_entities (health w) (event_arn event)) as [affected|e].
  - rewrite bind_request_Ok, for_each_filter_append.
    unfold try_except, ret. cbn [fst snd]. rewrite bind_returned. apply IH.
  - rewrite bind_request_Err.
    unfold try_except, ret. cbn [fst snd app]. rewrite bind_returned. apply IH.
Qed.

(** The outcomes of the maintenance-event query. *)
Lemma fargate_outcomes (w : Provider) (now : datetime)
    (days : Z) :
  health_client_failure w = None ->
  let run := list_fargate_retirements w now days in
  (forall e,
     pg_failure (health_describe_events (health w)) = Some e ->
     envelope run
     = Some (if String.eqb (err_code e) "SubscriptionRequiredException"
             then entitlement_envelope
             else error_envelope e)) /\
  (pg_failure (health_describe_events (health w)) = None ->
   exists env,
     envelope run = Some env /\
     has_field "error" env = false /\ has_field "suggestion" env = false) /\
  has_field "error" entitlement_envelope = true /\
  has_field "suggestion" entitlement_envelope = true /\
  (forall e, has_field "suggestion" (error_envelope e) = false) /\
  (forall e, entitlement_envelope <> error_envelope e).
Proof.
  intros Hclient run. subst run. unfold list_fargate_retirements.
  rewrite Hclient. cbv zeta. unfold paginate.
  rewrite (paginate_from_pure_ext DescribeEvents
             (pg_pages (health_describe_events (health w)))
             (pg_failure (health_describe_events (health w))) _
             (fun page events =>
                (events ++ filter (in_window (plus_days now days)) page)%list)
             (fun page events => window_loop (plus_days now days) page events)).
  split; [|split; [|repeat split; try reflexivity; discriminate]].
  - intros e He. rewrite He. unfold envelope, bind, try_except. cbn [snd].
    destruct (String.eqb (err_code e) "SubscriptionRequiredException");
      reflexivity.
  - intros Hnone. rewrite Hnone, bind_returned.
    unfold envelope. rewrite outcome_try_except. cbn [snd].
    destruct (fold_left
                (fun s p => (s ++ filter (in_window (plus_days now days)) p)%list)
                (pg_pages (health_describe_events (health w))) []) as [|event events].
    + eexists. split; [reflexivity|]. split; reflexivity.
    + rewrite outcome_bind.
      destruct (lookups_return w (event :: events) []) as [found Hfound].
      rewrite Hfound. eexists. split; [reflexivity|]. split; reflexivity.
Qed.




(** C7, as the code has it.  With the Health client created, a
    [ClientError] raised by the event listing ends the query: with the
    code SubscriptionRequiredException the tool returns the envelope
    [{"error": ..., "suggestion": ...}], an error envelope told apart from
    the generic one by its [suggestion] key; with any other code it
    returns the generic [{"error": str(e)}].  When the event listing does
    not fail the tool returns a success envelope, with neither [error] nor
    [suggestion], whatever the per-event lookups of affected entities
    answer: their errors are skipped. *)
Theorem entitlement_error_of_event_listing (w : Provider) (now : datetime)
    (days : Z) :
  health_client_failure w = None ->
  let run := list_fargate_retirements w now days in
  (forall e,
     pg_failure (health_describe_events (health w)) = Some e ->
     envelope run
     = Some (if String.eqb (err_code e) "SubscriptionRequiredException"
             then entitlement_envelope
             else error_envelope e)) /\
  (pg_failure (health_describe_events (health w)) = None ->
   exists env,
     envelope run = Some env /\
     has_field "error" env = false /\ has_field "suggestion" env = false) /\
  has_field "error" entitlement_envelope = true /\
  has_field "suggestion" entitlement_envelope = true /\
  (forall e, has_field "suggestion" (error_envelope e) = false) /\
  (forall e, entitlement_envelope <> error_envelope e).
Proof. exact (fargate_outcomes w now days). Qed.

Lemma entitlement_error_of_event_listing_witness :
  envelope (list_fargate_retirements (listing_fails subscription_required)
              scenario_now 14)
  = Some (if String.eqb (err_code subscription_required)
                        "SubscriptionRequiredException"
          then entitlement_envelope
          else error_envelope subscription_required).
Proof.
  refine (proj1 (entitlement_error_of_event_listing
                   (listing_fails subscription_required) scenario_now 14 _)
                subscription_required _); reflexivity.
Defined.

(** The claim as stated fails when the error arrives in a per-event
    lookup: SubscriptionRequiredException there does not produce the
    suggestion, and another [ClientError] there does not produce the error
    envelope; both runs return the same success envelope.  And the
    envelope the tool does return for the entitlement error of the event
    listing carries the [error] key: by the discriminator it is an error
    envelope, not one shaped like a success. *)
Lemma lookup_error_yields_success_envelope :
  let lookup :=
    DescribeAffectedEntities
      "arn:aws:health:us-east-1::event/ECS/AWS_ECS_TASK_PATCHING_RETIREMENT/1" in
  let success :=
    VDict [("days_checked", VInt 14);
           ("retirement_count", VInt 0);
           ("retirements_by_cluster", VDict []);
           ("retirements", VList [])] in
  let entitlement_run :=
    list_fargate_retirements (lookup_fails subscription_required) scenario_now 14 in
  let throttled_run :=
    list_fargate_retirements (lookup_fails throttled) scenario_now 14 in
  let listing_run :=
    list_fargate_retirements (listing_fails subscription_required) scenario_now 14 in
  (In {| ev_op := lookup; ev_error := Some subscription_required |}
      (calls entitlement_run) /\
   err_code subscription_required = "SubscriptionRequiredException" /\
   envelope entitlement_run = Some success /\
   has_field "suggestion" success = false) /\
  (In {| ev_op := lookup; ev_error := Some throttled |} (calls throttled_run) /\
   envelope throttled_run = Some success /\
   success <> error_envelope throttled) /\
  (envelope listing_run = Some entitlement_envelope /\
   has_field "error" entitlement_envelope = true).
Proof.
  cbv zeta. split; [|split].
  - split; [vm_compute; auto|]. split; [reflexivity|].
    split; [vm_compute; reflexivity | reflexivity].
  - split; [vm_compute; auto|]. split; [vm_compute; reflexivity | discriminate].
  - split; [vm_compute; reflexivity | reflexivity].
Qed.

(** ** Failures surfacing in the envelope *)




(** The run of the per-bucket tools once the bucket names are known. *)
Lemma check_bucket_public_access_run (w : Provider) (bucket_name : option string)
    (names : list string) :
  snd (buckets_to_check w bucket_name) = Returned names ->
  check_bucket_public_access w bucket_name
  = ((fst (buckets_to_check w bucket_name)
      ++ flat_map (fun name => [answered (GetPublicAccessBlock name)
                                  (s3_get_public_access_block (s3 w) name)]) names)%list,
     Returned
       (VDict [("buckets_checked", VLen (map (check_of w) names));
               ("potentially_public_count",
                VLen (filter (fun r => negb (public_access_blocked r))
                             (map (check_of w) names)));
               ("buckets",
                VList (map bucket_info_value (map (check_of w) names)))])).
Proof.
  intros Hnames. unfold check_bucket_public_access.
  destruct (buckets_to_check w bucket_name) as [t o]. simpl in Hnames. subst o.
  rewrite bind_returned.
  rewrite (for_each_total_append _ (check_of w)
             (fun name => [answered (GetPublicAccessBlock name)
                             (s3_get_public_access_block (s3 w) name)]))
    by (intros x acc; now rewrite check_bucket_run, bind_returned).
  rewrite bind_returned. unfold ret, try_except. cbn [fst snd app].
  now rewrite app_nil_r.
Qed.

Lemma bucket_encryption_run (w : Provider) (name : string) :
  bucket_encryption w name
  = ([answered (GetBucketEncryption name) (s3_get_bucket_encryption (s3 w) name)],
     Returned (encryption_info_of w name)).
Proof.
  unfold bucket_encryption, encryption_info_of, answered.
  destruct (s3_get_bucket_encryption (s3 w) name); reflexivity.
Qed.

Lemma get_bucket_encryption_run (w : Provider) (bucket_name : option string)
    (names : list string) :
  snd (buckets_to_check w bucket_name) = Returned names ->
  exists summary,
    get_bucket_encryption w bucket_name
    = ((fst (buckets_to_check w bucket_name)
        ++ flat_map (fun name => [answered (GetBucketEncryption name)
                                    (s3_get_bucket_encryption (s3 w) name)]) names)%list,
       Returned
         (VDict (summary
                 ++ [("buckets",
                      VList (map encryption_info_value
                               (map (encryption_info_of w) names)))])%list)) /\
    assoc "buckets" summary = None.
Proof.
  intros Hnames. unfold get_bucket_encryption.
  destruct (buckets_to_check w bucket_name) as [t o]. simpl in Hnames. subst o.
  rewrite bind_returned.
  rewrite (for_each_total_append _ (encryption_info_of w)
             (fun name => [answered (GetBucketEncryption name)
                             (s3_get_bucket_encryption (s3 w) name)]))
    by (intros x acc; now rewrite bucket_encryption_run, bind_returned).
  rewrite bind_returned. unfold ret, try_except. cbn [fst snd app].
  rewrite app_nil_r. eexists. split.
  - f_equal. f_equal. f_equal.
    change (?a :: ?b :: ?c :: ?d :: [?x]) with ([a; b; c; d] ++ [x])%list.
    reflexivity.
  - reflexivity.
Qed.


Lemma assoc_app_None {A : Type} (k : string) (d1 d2 : list (string * A)) :
  assoc k d1 = None -> assoc k (d1 ++ d2) = assoc k d2.
Proof.
  induction d1 as [|[k' v] d1 IH]; simpl; [reflexivity|].
  destruct (String.eqb k k'); [discriminate | exact IH].
Qed.












(** * Further properties *)

(** ** Strings: [in], [split] and the last segment *)

Lemma prefix_iff (a b : string) :
  String.prefix a b = true <-> exists post, b = a ++ post.
Proof.
  revert b. induction a as [|c a IH]; intros b.
  - destruct b; simpl; (split; [intros _; eexists; reflexivity | reflexivity]).
  - destruct b as [|c' b]; simpl.
    + split; [discriminate | intros [post H]; discriminate].
    + destruct (ascii_dec c c') as [->|Hne].
      * rewrite IH. split; intros [post H]; exists post; [now rewrite H|].
        now injection H.
      * split; [discriminate|]. intros [post H]. injection H as H _. congruence.
Qed.

(** [needle in hay] holds exactly when [hay] is some text, then [needle],
    then some text. *)
Lemma contains_iff_substring (needle hay : string) :
  contains needle hay = true <->
  exists pre post, hay = pre ++ needle ++ post.
Proof.
  induction hay as [|c hay IH]; cbn [contains].
  - destruct (String.prefix needle "") eqn:E.
    + split; [intros _|intros _; reflexivity]. apply prefix_iff in E as [post H].
      exists "", post. exact H.
    + split; [discriminate|]. intros (pre & post & H).
      destruct pre; [|discriminate].
      assert (String.prefix needle "" = true)
        by (apply prefix_iff; exists post; exact H).
      congruence.
  - destruct (String.prefix needle (String c hay)) eqn:E.
    + split; [intros _|intros _; reflexivity]. apply prefix_iff in E as [post H].
      exists "", post. exact H.
    + rewrite IH. split.
      * intros (pre & post & ->). now exists (String c pre), post.
      * intros (pre & post & H). destruct pre as [|c' pre].
        -- assert (String.prefix needle (String c hay) = true)
             by (apply prefix_iff; exists post; exact H).
           congruence.
        -- injection H as _ H. now exists pre, post.
Qed.

Lemma split_on_nonempty (sep : ascii) (s : string) : split_on sep s <> [].
Proof.
  destruct s as [|c s]; simpl; [discriminate|].
  destruct (Ascii.eqb c sep); [discriminate|].
  destruct (split_on sep s); discriminate.
Qed.

Lemma concat_cons (sep x : string) (xs : list string) :
  xs <> [] ->
  String.concat sep (x :: xs) = x ++ sep ++ String.concat sep xs.
Proof. destruct xs; [contradiction | reflexivity]. Qed.

Lemma join_split_on (sep : ascii) (s : string) : join sep (split_on sep s) = s.
Proof.
  unfold join. induction s as [|c s IH]; [reflexivity|].
  cbn [split_on].
  pose proof (split_on_nonempty sep s) as Hne.
  destruct (Ascii.eqb c sep) eqn:E.
  - apply Ascii.eqb_eq in E. subst c.
    rewrite concat_cons by exact Hne. rewrite IH. reflexivity.
  - destruct (split_on sep s) as [|w ws]; [contradiction|].
    destruct ws as [|w' ws].
    + cbn [String.concat] in *. now rewrite IH.
    + rewrite concat_cons in * by discriminate. rewrite <- IH. reflexivity.
Qed.

Lemma split_on_free (sep : ascii) (s : string) :
  Forall (fun piece => free_of sep piece = true) (split_on sep s).
Proof.
  induction s as [|c s IH]; simpl; [repeat constructor|].
  destruct (Ascii.eqb c sep) eqn:E; [constructor; [reflexivity | exact IH]|].
  destruct (split_on sep s) as [|w ws]; [repeat constructor; simpl; now rewrite E|].
  inversion IH; subst. constructor; [simpl; now rewrite E | assumption].
Qed.

Lemma split_on_length (sep : ascii) (s : string) :
  List.length (split_on sep s) = S (occurrences sep s).
Proof.
  induction s as [|c s IH]; simpl; [reflexivity|].
  destruct (Ascii.eqb c sep); simpl; [now rewrite IH|].
  pose proof (split_on_nonempty sep s) as Hne.
  destruct (split_on sep s) as [|w ws]; [contradiction | exact IH].
Qed.

Lemma free_of_occurrences (sep : ascii) (s : string) :
  free_of sep s = true <-> occurrences sep s = 0%nat.
Proof.
  induction s as [|c s IH]; simpl; [tauto|].
  destruct (Ascii.eqb c sep); simpl; [split; discriminate | exact IH].
Qed.

Lemma split_on_whole (sep : ascii) (s : string) :
  free_of sep s = true -> split_on sep s = [s].
Proof.
  induction s as [|c s IH]; simpl; [reflexivity|].
  destruct (Ascii.eqb c sep); simpl; [discriminate|].
  intros Hfree. now rewrite IH.
Qed.

Lemma last_segment_from_free (sep : ascii) (s acc : string) :
  free_of sep s = true -> last_segment_from sep s acc = acc.
Proof.
  revert acc. induction s as [|c s IH]; intros acc; simpl; [reflexivity|].
  destruct (Ascii.eqb c sep); simpl; [discriminate | apply IH].
Qed.

Lemma last_segment_from_last (sep : ascii) (s acc : string) :
  last_segment_from sep s acc
  = if free_of sep s then acc else last (split_on sep s) EmptyString.
Proof.
  revert acc. induction s as [|c s IH]; intros acc; [reflexivity|].
  cbn [last_segment_from free_of split_on].
  pose proof (split_on_nonempty sep s) as Hne.
  pose proof (split_on_length sep s) as Hlen.
  destruct (Ascii.eqb c sep) eqn:E; cbn [negb andb].
  - rewrite IH. destruct (free_of sep s) eqn:Hfree.
    + now rewrite split_on_whole.
    + destruct (split_on sep s); [contradiction | reflexivity].
  - rewrite IH. destruct (free_of sep s) eqn:Hfree; [reflexivity|].
    destruct (split_on sep s) as [|w [|w' ws]]; [contradiction| |reflexivity].
    exfalso. simpl in Hlen. injection Hlen as Hlen. symmetry in Hlen.
    apply free_of_occurrences in Hlen. congruence.
Qed.

(** X1. [split_on], the model of [s.split(sep)], loses nothing: joining
    the pieces with the separator gives the string back; there is one
    piece more than there are separators, so never an empty list; no piece
    contains the separator; and [last_segment], which the ECS and Lambda
    tools use for [s.split(sep)[-1]], is the last of these pieces. *)
Theorem split_on_round_trip (sep : ascii) (s : string) :
  join sep (split_on sep s) = s /\
  List.length (split_on sep s) = S (occurrences sep s) /\
  Forall (fun piece => free_of sep piece = true) (split_on sep s) /\
  last_segment sep s = last (split_on sep s) EmptyString.
Proof.
  split; [apply join_split_on|]. split; [apply split_on_length|].
  split; [apply split_on_free|].
  unfold last_segment. rewrite last_segment_from_last.
  destruct (free_of sep s) eqn:Hfree; [|reflexivity].
  now rewrite split_on_whole.
Qed.

Lemma last_segment_from_name (sep : ascii) (name : string) :
  free_of sep name = true ->
  forall prefix acc,
    last_segment_from sep (prefix ++ String sep name) acc = name.
Proof.
  intros Hfree. induction prefix as [|c prefix IH]; intros acc; simpl.
  - rewrite Ascii.eqb_refl. now apply last_segment_from_free.
  - destruct (Ascii.eqb c sep); apply IH.
Qed.

Lemma split_on_app (sep : ascii) (a b : string) :
  free_of sep a = true ->
  split_on sep (a ++ String sep b) = a :: split_on sep b.
Proof.
  induction a as [|c a IH]; simpl.
  - intros _. now rewrite Ascii.eqb_refl.
  - destruct (Ascii.eqb c sep); simpl; [discriminate|].
    intros Hfree. now rewrite IH.
Qed.

(** X2. Names are cut out of ARNs as the code intends.  The last segment
    of [<anything>/<name>] is [<name>] when the name has no slash, and a
    string without slash is its own last segment (the role "None", a bare
    task definition).  The cluster of a task ARN
    [<prefix>/<cluster>/<rest>] is [<cluster>]; a string without slash
    has cluster "unknown". *)
Theorem names_cut_out_of_arns (prefix name cluster rest : string) :
  free_of "/" name = true ->
  free_of "/" prefix = true ->
  free_of "/" cluster = true ->
  last_segment "/" (rest ++ String "/" name) = name /\
  last_segment "/" name = name /\
  cluster_of_task_arn (prefix ++ String "/" (cluster ++ String "/" rest))
  = cluster /\
  cluster_of_task_arn name = "unknown".
Proof.
  intros Hname Hprefix Hcluster.
  split; [now apply last_segment_from_name|].
  split; [now apply last_segment_from_free|].
  unfold cluster_of_task_arn. split.
  - rewrite split_on_app by exact Hprefix.
    pose proof (split_on_nonempty "/" (cluster ++ String "/" rest)) as Hne.
    rewrite split_on_app in * by exact Hcluster. reflexivity.
  - now rewrite split_on_whole.
Qed.

Lemma names_cut_out_of_arns_witness :
  cluster_of_task_arn
    ("arn:aws:ecs:us-east-1:123456789012:task"
       ++ String "/" ("prod" ++ String "/" "0123abcd"))
  = "prod".
Proof.
  refine (proj1 (proj2 (proj2
    (names_cut_out_of_arns "arn:aws:ecs:us-east-1:123456789012:task" "web:3"
       "prod" "0123abcd" _ _ _)))); reflexivity.
Defined.

Lemma lower_ascii_idempotent (c : ascii) :
  lower_ascii (lower_ascii c) = lower_ascii c.
Proof.
  destruct c as [[] [] [] [] [] [] [] []]; reflexivity.
Qed.

Lemma lower_idempotent (s : string) : lower (lower s) = lower s.
Proof.
  induction s as [|c s IH]; simpl; [reflexivity|].
  now rewrite lower_ascii_idempotent, IH.
Qed.

Lemma lower_ascii_only (s : string) :
  ascii_only s = true -> ascii_only (lower s) = true.
Proof.
  induction s as [|c s IH]; simpl; [reflexivity|].
  intros H. apply andb_true_iff in H as [Hc Hs].
  rewrite IH by exact Hs. rewrite andb_true_r.
  destruct c as [[] [] [] [] [] [] [] []]; try reflexivity;
    discriminate Hc.
Qed.

(** X3. The key test of [find_object], for a search term and a key of
    ASCII characters, on which [lower] is [str.lower]; a term or a key
    with other letters is outside this statement.  An exact search
    matches the keys equal to the search term.  A partial search matches
    the keys that contain the term once both are lower-cased, so it
    ignores the case of both; it matches every key an exact search
    matches; and with the empty term it matches every key.  Lower-casing
    keeps the key within ASCII. *)
Theorem is_match_cases (object_name key : string) :
  ascii_only object_name = true ->
  ascii_only key = true ->
  (is_match object_name true key = true <-> key = object_name) /\
  (is_match object_name false key = true <->
   exists pre post, lower key = pre ++ lower object_name ++ post) /\
  is_match (lower object_name) false (lower key)
  = is_match object_name false key /\
  (is_match object_name true key = true ->
   is_match object_name false key = true) /\
  is_match "" false key = true /\
  ascii_only (lower key) = true.
Proof.
  intros _ Hkey. unfold is_match. split; [apply String.eqb_eq|].
  split; [apply contains_iff_substring|].
  split; [now rewrite !lower_idempotent|]. split; [|split].
  - intros H. apply String.eqb_eq in H. subst key.
    apply contains_iff_substring. exists "", "". cbn [append].
    clear. induction (lower object_name) as [|c s IH]; simpl;
      [reflexivity | now rewrite <- IH].
  - apply contains_iff_substring. exists "", (lower key). reflexivity.
  - now apply lower_ascii_only.
Qed.

Lemma is_match_cases_witness :
  (is_match "Report" true "Monthly-REPORT.pdf" = true <->
   "Monthly-REPORT.pdf" = "Report") /\
  (is_match "Report" false "Monthly-REPORT.pdf" = true <->
   exists pre post,
     lower "Monthly-REPORT.pdf" = pre ++ lower "Report" ++ post) /\
  is_match (lower "Report") false (lower "Monthly-REPORT.pdf")
  = is_match "Report" false "Monthly-REPORT.pdf" /\
  (is_match "Report" true "Monthly-REPORT.pdf" = true ->
   is_match "Report" false "Monthly-REPORT.pdf" = true) /\
  is_match "" false "Monthly-REPORT.pdf" = true /\
  ascii_only (lower "Monthly-REPORT.pdf") = true.
Proof.
  exact (is_match_cases "Report" "Monthly-REPORT.pdf" eq_refl eq_refl).
Defined.

(** ** The client cache *)

Lemma assoc_dict_set_same {A : Type} (k : string) (v : A)
    (d : list (string * A)) :
  assoc k (dict_set k v d) = Some v.
Proof.
  induction d as [|[k' v'] d IH]; simpl; [now rewrite String.eqb_refl|].
  destruct (String.eqb k k') eqn:E; simpl; rewrite E; [reflexivity | exact IH].
Qed.

Lemma assoc_dict_set_other {A : Type} (k k' : string) (v : A)
    (d : list (string * A)) :
  k' <> k -> assoc k' (dict_set k v d) = assoc k' d.
Proof.
  intros Hne. induction d as [|[k0 v0] d IH]; simpl.
  - apply String.eqb_neq in Hne. now rewrite Hne.
  - destruct (String.eqb k k0) eqn:E; simpl.
    + apply String.eqb_eq in E. subst k0.
      apply String.eqb_neq in Hne. now rewrite Hne.
    + now rewrite IH.
Qed.

Lemma dict_set_fresh {A : Type} (k : string) (v : A) (d : list (string * A)) :
  assoc k d = None -> dict_set k v d = (d ++ [(k, v)])%list.
Proof.
  induction d as [|[k' v'] d IH]; simpl; [reflexivity|].
  destruct (String.eqb k k'); [discriminate|]. intros H. now rewrite IH.
Qed.

Lemma assoc_None_keys {A : Type} (k : string) (d : list (string * A)) :
  assoc k d = None <-> mem k (keys d) = false.
Proof.
  unfold mem. induction d as [|[k' v] d IH]; simpl; [tauto|].
  destruct (String.eqb k k'); simpl; [split; discriminate | exact IH].
Qed.

Lemma assoc_app_Some {A : Type} (k : string) (v : A) (d1 d2 : list (string * A)) :
  assoc k d1 = Some v -> assoc k (d1 ++ d2) = Some v.
Proof.
  induction d1 as [|[k' v'] d1 IH]; simpl; [discriminate|].
  destruct (String.eqb k k'); auto.
Qed.

Lemma filter_filter {A : Type} (p q : A -> bool) (l : list A) :
  filter p (filter q l) = filter (fun x => andb (q x) (p x)) l.
Proof.
  induction l as [|x l IH]; simpl; [reflexivity|].
  destruct (q x); simpl; [destruct (p x); now rewrite IH | exact IH].
Qed.

Lemma mem_app (k : string) (l1 l2 : list string) :
  mem k (l1 ++ l2) = orb (mem k l1) (mem k l2).
Proof. unfold mem. apply existsb_app. Qed.

(** The state of the cache after a sequence of calls. *)
Lemma get_clients_run (boto3_client : string -> bool) (names : list string) :
  forall st,
    exists added,
      _clients (snd (get_clients boto3_client names st))
      = (_clients st ++ added)%list /\
      fst (get_clients boto3_client names st)
      = map (fun name => assoc name (_clients st ++ added)%list) names /\
      keys added
      = filter (fun name => andb (boto3_client name)
                                 (negb (mem name (keys (_clients st)))))
               (distinct names) /\
      clients_created (snd (get_clients boto3_client names st))
      = (clients_created st + List.length added)%nat /\
      map (fun kv => handle_serial (snd kv)) added
      = seq (clients_created st) (List.length added) /\
      Forall (fun kv => handle_service (snd kv) = fst kv) added.
Proof.
  induction names as [|name names IH]; intros st.
  - exists []. cbn. rewrite app_nil_r, Nat.add_0_r. repeat split. constructor.
  - cbn [get_clients distinct]. unfold get_client.
    destruct (assoc name (_clients st)) as [client|] eqn:Hhit.
    + destruct (IH st) as (added & Hcache & Hres & Hkeys & Hcount & Hser & Hsvc).
      destruct (get_clients boto3_client names st) as [clients st2].
      cbn [fst snd] in *. exists added.
      split; [exact Hcache|]. split.
      { cbn [map]. rewrite (assoc_app_Some _ _ _ _ Hhit). now rewrite Hres. }
      split; [|repeat split; assumption].
      rewrite Hkeys. cbn [filter].
      assert (Hmem : mem name (keys (_clients st)) = true).
      { destruct (mem name (keys (_clients st))) eqn:E; [reflexivity|].
        apply assoc_None_keys in E. congruence. }
      rewrite Hmem, andb_false_r, filter_filter.
      apply filter_ext_in. intros n _.
      destruct (String.eqb n name) eqn:E; [|reflexivity].
      apply String.eqb_eq in E. subst n. now rewrite Hmem, andb_false_r.
    + destruct (boto3_client name) eqn:Hcreate.
      * set (client := {| handle_service := name;
                          handle_serial := clients_created st |}).
        set (st1 := {| _clients := dict_set name client (_clients st);
                       clients_created := S (clients_created st) |}).
        destruct (IH st1) as (added & Hcache & Hres & Hkeys & Hcount & Hser & Hsvc).
        destruct (get_clients boto3_client names st1) as [clients st2].
        cbn [fst snd] in *. subst st1. cbn [_clients clients_created] in *.
        rewrite dict_set_fresh in * by exact Hhit.
        exists ((name, client) :: added).
        split; [now rewrite Hcache, <- app_assoc|]. split.
        { cbn [map]. rewrite Hres. f_equal.
          - rewrite assoc_app_None by exact Hhit. simpl.
            now rewrite String.eqb_refl.
          - apply map_ext. intros n. now rewrite <- app_assoc. }
        split.
        { cbn [keys map fst filter]. rewrite Hcreate.
          apply assoc_None_keys in Hhit. rewrite Hhit. cbn [negb andb].
          f_equal. fold (keys added). rewrite Hkeys, filter_filter.
          apply filter_ext. intros n. unfold keys. rewrite map_app.
          fold (keys (_clients st)). rewrite mem_app. cbn [map fst mem existsb].
          rewrite orb_false_r.
          destruct (boto3_client n), (mem n (keys (_clients st))),
            (String.eqb n name); reflexivity. }
        split; [cbn [List.length]; lia|]. split.
        { cbn [map List.length seq snd handle_serial]. now rewrite Hser. }
        constructor; [reflexivity | exact Hsvc].
      * destruct (IH st) as (added & Hcache & Hres & Hkeys & Hcount & Hser & Hsvc).
        destruct (get_clients boto3_client names st) as [clients st2].
        cbn [fst snd] in *. exists added.
        assert (Hfilter :
                  filter (fun n => andb (boto3_client n)
                                        (negb (mem n (keys (_clients st)))))
                         (filter (fun n => negb (String.eqb n name)) (distinct names))
                  = filter (fun n => andb (boto3_client n)
                                          (negb (mem n (keys (_clients st)))))
                           (distinct names)).
        { rewrite filter_filter. apply filter_ext. intros n.
          destruct (String.eqb n name) eqn:E; [|reflexivity].
          apply String.eqb_eq in E. subst n. now rewrite Hcreate. }
        split; [exact Hcache|]. split.
        { cbn [map]. rewrite Hres. f_equal.
          rewrite assoc_app_None by exact Hhit. symmetry.
          apply assoc_None_keys. rewrite Hkeys.
          destruct (mem name (filter _ (distinct names))) eqn:E; [|reflexivity].
          apply mem_In, filter_In in E as [_ E]. rewrite Hcreate in E.
          discriminate. }
        split; [|repeat split; assumption].
        rewrite Hkeys. cbn [filter]. rewrite Hcreate. cbn [andb].
        now rewrite Hfilter.
Qed.

(** X4. [get_client] creates at most one client per service.  After any
    sequence of calls on the empty cache, the cache holds one client for
    each distinct service name for which a client could be created, in
    the order of the first calls; that many clients were created, with
    serial numbers 0, 1, 2, ...; every call returned the client the cache
    holds for its name at the end, so two calls with the same name got the
    same client; and a name whose client cannot be created got none and is
    not in the cache, so the failure was not stored. *)
Theorem get_client_creates_once (boto3_client : string -> bool)
    (names : list string) :
  let run := get_clients boto3_client names no_clients in
  let cache := _clients (snd run) in
  keys cache = filter boto3_client (distinct names) /\
  clients_created (snd run) = List.length (filter boto3_client (distinct names)) /\
  map (fun kv => handle_serial (snd kv)) cache = seq 0 (List.length cache) /\
  Forall (fun kv => handle_service (snd kv) = fst kv) cache /\
  fst run = map (fun name => assoc name cache) names /\
  (forall name, boto3_client name = false -> assoc name cache = None).
Proof.
  cbv zeta.
  destruct (get_clients_run boto3_client names no_clients)
    as (added & Hcache & Hres & Hkeys & Hcount & Hser & Hsvc).
  cbn [no_clients _clients clients_created app keys map mem existsb negb] in *.
  rewrite Hcache.
  assert (Hk : keys added = filter boto3_client (distinct names)).
  { rewrite Hkeys. apply filter_ext. intros n. apply andb_true_r. }
  split; [exact Hk|].
  split; [rewrite Hcount, <- Hk; unfold keys; now rewrite length_map|].
  split; [exact Hser|]. split; [exact Hsvc|]. split; [exact Hres|].
  intros name Hfail. apply assoc_None_keys. rewrite Hk.
  destruct (mem name (filter boto3_client (distinct names))) eqn:E;
    [|reflexivity].
  apply mem_In, filter_In in E as [_ E]. congruence.
Qed.

(** X5. A second call of [get_client] for a service is served from the
    cache: it returns the client of the first call, creates nothing and
    leaves the cache as it is; the first call leaves the clients of the
    other services untouched; and a call that fails changes nothing. *)
Theorem get_client_hit (boto3_client : string -> bool) (service_name : string)
    (st : Clients) :
  let first := get_client boto3_client service_name st in
  (forall client,
     fst first = Some client ->
     get_client boto3_client service_name (snd first) = (Some client, snd first)) /\
  (forall other,
     other <> service_name ->
     assoc other (_clients (snd first)) = assoc other (_clients st)) /\
  (fst first = None -> snd first = st) /\
  (clients_created st <= clients_created (snd first) <= S (clients_created st))%nat.
Proof.
  cbv zeta. unfold get_client.
  destruct (assoc service_name (_clients st)) as [client|] eqn:Hhit.
  - cbn [fst snd]. rewrite Hhit. repeat split; try lia.
    intros c [= <-]. reflexivity.
  - destruct (boto3_client service_name) eqn:Hcreate; cbn [fst snd _clients].
    + rewrite assoc_dict_set_same. repeat split; try (cbn; lia).
      * intros c [= <-]. reflexivity.
      * intros other Hne. now apply assoc_dict_set_other.
      * discriminate.
    + repeat split; try lia. discriminate.
Qed.

(** ** Listings page by page *)

Lemma fold_left_map_pages {X Y : Type} (g : X -> Y) (pages : list (list X))
    (acc : list Y) :
  fold_left (fun acc page => (acc ++ map g page)%list) pages acc
  = (acc ++ map g (List.concat pages))%list.
Proof.
  revert acc. induction pages as [|p pages IH]; intros acc; simpl.
  - now rewrite app_nil_r.
  - now rewrite IH, map_app, app_assoc.
Qed.

(** A paginated listing that appends one entry per item. *)
Lemma paginate_collect {X Y : Type} (fetch : nat -> op)
    (pg : paginator (list X)) (g : X -> Y) :
  paginate fetch pg
    (fun page acc => for_each page (fun x acc => ret (acc ++ [g x])%list) acc) []
  = (page_events fetch 0 (List.length (pg_pages pg)) (pg_failure pg),
     match pg_failure pg with
     | None => Returned (map g (List.concat (pg_pages pg)))
     | Some e => Raised e
     end).
Proof.
  unfold paginate.
  rewrite (paginate_from_pure_ext fetch (pg_pages pg) (pg_failure pg) _
             (fun page acc => (acc ++ map g page)%list))
    by (intros; apply for_each_append).
  now rewrite fold_left_map_pages.
Qed.

(** A tool that shapes the result of a computation and turns its
    exception into the error envelope. *)
Lemma tool_run {A : Type} (t : trace) (o : outcome A) (k : A -> value) :
  try_except (bind (t, o) (fun a => ret (k a))) return_error
  = (t, Returned match o with
                 | Returned a => k a
                 | Raised e => error_envelope e
                 end).
Proof.
  destruct o as [a|e].
  - rewrite bind_returned. unfold ret, try_except. cbn [fst snd].
    now rewrite app_nil_r.
  - unfold bind, try_except, return_error, ret. now rewrite app_nil_r.
Qed.

(** X6. [list_iam_users] fetches the pages of users one by one.  When
    every fetch succeeds it reports every user of every page, in order,
    and their number; when a fetch fails it reports the error alone, and
    the users of the pages read before are not in the envelope. *)
Theorem list_iam_users_all_or_nothing (w : Provider) :
  list_iam_users w
  = (page_events ListUsers 0
       (List.length (pg_pages (iam_list_users (iam w))))
       (pg_failure (iam_list_users (iam w))),
     Returned
       match pg_failure (iam_list_users (iam w)) with
       | None =>
           VDict [("user_count", VLen (all_users w));
                  ("users", VList (map user_entry (all_users w)))]
       | Some e => error_envelope e
       end).
Proof.
  unfold list_iam_users. erewrite paginate_collect. rewrite tool_run.
  destruct (pg_failure (iam_list_users (iam w))); [reflexivity|].
  unfold VLen. now rewrite length_map.
Qed.

(** X7. [list_iam_roles] passes the path prefix to every page request.
    When every fetch succeeds it reports every role of every page, in
    order, and their number; when a fetch fails it reports the error
    alone. *)
Theorem list_iam_roles_all_or_nothing (w : Provider) (path_prefix : string) :
  list_iam_roles w path_prefix
  = (page_events (ListRoles path_prefix) 0
       (List.length (pg_pages (iam_list_roles (iam w) path_prefix)))
       (pg_failure (iam_list_roles (iam w) path_prefix)),
     Returned
       match pg_failure (iam_list_roles (iam w) path_prefix) with
       | None =>
           VDict [("role_count", VLen (all_roles w path_prefix));
                  ("roles", VList (map role_entry (all_roles w path_prefix)))]
       | Some e => error_envelope e
       end).
Proof.
  unfold list_iam_roles. erewrite paginate_collect. rewrite tool_run.
  destruct (pg_failure (iam_list_roles (iam w) path_prefix)); [reflexivity|].
  unfold VLen, all_roles. now rewrite length_map.
Qed.

(** ** Requests of a run *)

Lemma trace_bind {A B : Type} (P : event -> Prop) (m : M A) (f : A -> M B) :
  Forall P (fst m) -> (forall a, Forall P (fst (f a))) ->
  Forall P (fst (bind m f)).
Proof.
  intros Hm Hf. destruct m as [t [a|e]]; [|exact Hm].
  rewrite bind_returned. cbn [fst] in *. apply Forall_app. split; auto.
Qed.

Lemma trace_request {A : Type} (P : event -> Prop) (o : op) (r : response A) :
  P (answered o r) -> Forall P (fst (request o r)).
Proof.
  intros H. unfold request, answered in *.
  destruct r; cbn [fst]; constructor; auto.
Qed.

Lemma trace_for_each {X St : Type} (P : event -> Prop)
    (body : X -> St -> M St) (xs : list X) :
  (forall x s, In x xs -> Forall P (fst (body x s))) ->
  forall s, Forall P (fst (for_each xs body s)).
Proof.
  induction xs as [|x xs IH]; intros Hbody s; cbn [for_each].
  - constructor.
  - apply trace_bind; [apply Hbody; now left|].
    intros s'. apply IH. intros; apply Hbody; now right.
Qed.

Lemma calls_try_except {A : Type} (m : M A) (k : ClientError -> A) :
  fst (try_except m (fun e => ret (k e))) = fst m.
Proof.
  destruct m as [t [a|e]]; unfold try_except, ret; cbn [fst];
    [reflexivity | apply app_nil_r].
Qed.

Lemma calls_return_error (m : M value) :
  fst (try_except m return_error) = fst m.
Proof. apply (calls_try_except m error_envelope). Qed.

Lemma flat_map_singleton {X Y : Type} (g : X -> Y) (xs : list X) :
  flat_map (fun x => [g x]) xs = map g xs.
Proof. induction xs as [|x xs IH]; simpl; [reflexivity | now rewrite IH]. Qed.

Lemma calls_bind_ret {A B : Type} (m : M A) (k : A -> B) :
  fst (bind m (fun a => ret (k a))) = fst m.
Proof.
  destruct m as [t [a|e]]; [|reflexivity].
  rewrite bind_returned. cbn [fst]. apply app_nil_r.
Qed.

Lemma bind_returned_ret {A B : Type} (t : trace) (a : A) (k : A -> B) :
  bind (t, Returned a) (fun a => ret (k a)) = (t, Returned (k a)).
Proof. rewrite bind_returned. cbn [fst snd ret]. now rewrite app_nil_r. Qed.

(** A loop whose body, on the items of the list, issues the requests
    [tr x] and appends [g x]. *)
Lemma for_each_append_in {X Y : Type} (body : X -> list Y -> M (list Y))
    (g : X -> Y) (tr : X -> trace) (xs : list X) :
  (forall x acc, In x xs -> body x acc = (tr x, Returned (acc ++ [g x])%list)) ->
  forall acc,
    for_each xs body acc = (flat_map tr xs, Returned (acc ++ map g xs)%list).
Proof.
  induction xs as [|x xs IH]; intros Hbody acc; cbn [for_each flat_map map].
  - now rewrite app_nil_r.
  - rewrite Hbody by now left. rewrite bind_returned.
    rewrite IH by (intros; apply Hbody; now right).
    cbn [fst snd]. now rewrite <- app_assoc.
Qed.

(** X8. Asked for one user, [list_access_keys] does not list the users:
    its first request lists the keys of that user, and every further
    request looks up the last use of one of those keys.  When these
    requests succeed there is one lookup per key, in order, and the
    envelope has one entry per key. *)
Theorem list_access_keys_named_user (w : Provider) (now : datetime)
    (username : string) :
  username <> "" ->
  let run := list_access_keys w now (Some username) in
  let keys := keys_of_name w username in
  (exists rest,
      calls run
      = answered (ListAccessKeys username)
                 (iam_list_access_keys (iam w) username) :: rest /\
      Forall (last_used_lookup keys) rest) /\
  (iam_list_access_keys (iam w) username = Ok keys ->
   (forall key,
       In key keys ->
       exists r, iam_get_access_key_last_used (iam w) (AccessKeyId key) = Ok r) ->
   run
   = ({| ev_op := ListAccessKeys username; ev_error := None |}
        :: map (fun key => {| ev_op := GetAccessKeyLastUsed (AccessKeyId key);
                              ev_error := None |}) keys,
      Returned (VDict [("key_count", VLen keys);
                       ("access_keys",
                        VList (map (key_entry w now username) keys))]))).
Proof.
  intros Hname. cbv zeta. unfold list_access_keys, keys_of_name.
  assert (Htruthy : truthy (Some username) = true).
  { unfold truthy. apply String.eqb_neq in Hname. now rewrite Hname. }
  rewrite Htruthy, bind_ret. cbn [for_each]. split.
  - unfold calls. rewrite calls_return_error, !calls_bind_ret.
    destruct (iam_list_access_keys (iam w) username) as [keys|e].
    + rewrite bind_request_Ok. cbn [fst].
      eexists. split; [reflexivity|].
      apply trace_for_each. intros key acc Hin.
      apply trace_bind; [|intros; constructor].
      apply trace_request. exists key. now split.
    + rewrite bind_request_Err. cbn [fst].
      eexists. split; [reflexivity | constructor].
  - intros Hkeys Hlookups. rewrite Hkeys in *.
    rewrite bind_request_Ok.
    set (keys := match iam_list_access_keys (iam w) username with
                 | Ok keys => keys | Err _ => [] end) in *.
    rewrite (for_each_append_in _ (key_entry w now username)
               (fun key => [{| ev_op := GetAccessKeyLastUsed (AccessKeyId key);
                               ev_error := None |}])).
    + cbn [fst snd app]. rewrite !bind_returned_ret.
      unfold try_except, VLen.
      now rewrite length_map, flat_map_singleton.
    + intros key acc Hin. destruct (Hlookups key Hin) as [r Hr].
      unfold key_entry. rewrite Hr, bind_request_Ok. unfold ret. cbn [fst snd].
      destruct r; reflexivity.
Qed.

Lemma list_access_keys_named_user_witness :
  list_access_keys stale_scenario scenario_now (Some "A")
  = ([{| ev_op := ListAccessKeys "A"; ev_error := None |};
      {| ev_op := GetAccessKeyLastUsed "AKIA-A"; ev_error := None |}],
     Returned
       (VDict [("key_count", VInt 1);
               ("access_keys",
                VList [key_entry stale_scenario scenario_now "A"
                         (scenario_key "AKIA-A" 91
                            "2024-07-05T00:00:00+00:00")])])).
Proof.
  refine (proj2 (list_access_keys_named_user stale_scenario scenario_now
                   "A" _) eq_refl _).
  - discriminate.
  - intros key Hin. eexists. reflexivity.
Defined.

(** X9. An optional argument given as the empty string is taken as
    absent: the tool lists every user, task, bucket or function of the
    default region, as it does without the argument. *)
Theorem empty_argument_is_absent (w : Provider) (now : datetime)
    (cluster_name : string) :
  list_access_keys w now (Some "") = list_access_keys w now None /\
  list_ecs_tasks w cluster_name (Some "") = list_ecs_tasks w cluster_name None /\
  check_bucket_public_access w (Some "") = check_bucket_public_access w None /\
  get_bucket_encryption w (Some "") = get_bucket_encryption w None /\
  list_lambda_functions w (Some "") = list_lambda_functions w None.
Proof. repeat split. Qed.

(** ** ECS listings *)

(** X10. [list_ecs_clusters] describes all clusters with one request,
    whatever their number, and makes no describe request when the
    listing is empty or fails.  It reports the clusters the describe
    request returns; a failure of either request is the envelope's
    error. *)
Theorem list_ecs_clusters_single_describe (w : Provider) :
  let listed :=
    page_events ListClusters 0
      (List.length (pg_pages (ecs_list_clusters (ecs w))))
      (pg_failure (ecs_list_clusters (ecs w))) in
  let arns := cluster_arns w in
  list_ecs_clusters w
  = match pg_failure (ecs_list_clusters (ecs w)), arns with
    | Some e, _ => (listed, Returned (error_envelope e))
    | None, [] =>
        (listed,
         Returned (VDict [("cluster_count", VInt 0); ("clusters", VList [])]))
    | None, _ :: _ =>
        ((listed ++ [answered (DescribeClusters arns)
                       (ecs_describe_clusters (ecs w) arns)])%list,
         Returned
           match ecs_describe_clusters (ecs w) arns with
           | Ok clusters =>
               VDict [("cluster_count", VLen clusters);
                      ("clusters", VList (map cluster_summary clusters))]
           | Err e => error_envelope e
           end)
    end.
Proof.
  cbv zeta. unfold list_ecs_clusters, paginate, cluster_arns.
  rewrite paginate_from_pure, fold_left_app_pages. cbn [app].
  destruct (pg_failure (ecs_list_clusters (ecs w))) as [e|].
  - unfold bind, try_except, return_error, ret. now rewrite app_nil_r.
  - rewrite bind_returned.
    destruct (List.concat (pg_pages (ecs_list_clusters (ecs w))))
      as [|arn arns].
    + unfold ret, try_except. cbn [fst snd]. now rewrite app_nil_r.
    + destruct (ecs_describe_clusters (ecs w) (arn :: arns)) as [clusters|e].
      * rewrite bind_request_Ok, for_each_append, bind_ret.
        unfold ret, try_except, answered, VLen. cbn [fst snd app].
        now rewrite length_map.
      * rewrite bind_request_Err. unfold try_except, return_error, ret, answered.
        cbn [fst snd]. now rewrite app_nil_r.
Qed.

Lemma for_each_app {X St : Type} (body : X -> St -> M St) (xs ys : list X)
    (s : St) :
  for_each (xs ++ ys)%list body s
  = bind (for_each xs body s) (for_each ys body).
Proof.
  revert s. induction xs as [|x xs IH]; intros s; cbn [for_each app].
  - now rewrite bind_ret.
  - destruct (body x s) as [t [s'|e]]; [|reflexivity].
    rewrite !bind_returned, IH.
    destruct (for_each xs body s') as [t' [s''|e]].
    + cbn [fst snd]. rewrite !bind_returned. cbn [fst snd].
      now rewrite app_assoc.
    + cbn [fst snd]. unfold bind. reflexivity.
Qed.

(** The describe loop when a batch fails: the batches before it are
    requested, then the failing one, and the loop raises its error. *)
Lemma describe_loop_failure {X : Type} (mk : list string -> op)
    (oracle : list string -> response (list X)) (shape : X -> value)
    (arns : list string) (size : nat) (pre post : list (list string))
    (failed : list string) (e : ClientError) :
  batches size arns = (pre ++ failed :: post)%list ->
  (forall batch, In batch pre -> exists r, oracle batch = Ok r) ->
  oracle failed = Err e ->
  for_each (py_range 0 (List.length arns) size)
    (fun i acc =>
       response <- request (mk (slice arns i (i + size)))
                           (oracle (slice arns i (i + size))) ;;
       for_each response (fun x acc => ret (acc ++ [shape x])%list) acc)
    []
  = ((map (fun batch => succeeded (mk batch)) pre
      ++ [failed_with e (mk failed)])%list,
     Raised e).
Proof.
  unfold batches. intros Hsplit Hok Hfail.
  apply map_eq_app in Hsplit as (starts & rest & -> & Hpre & Hrest).
  apply map_eq_cons in Hrest as (i & starts' & -> & Hi & _).
  subst pre failed. rewrite for_each_app, describe_loop.
  - rewrite bind_returned. cbn [for_each].
    rewrite Hfail, bind_request_Err. unfold bind. cbn [fst snd].
    now rewrite map_map.
  - intros j Hj. apply Hok. apply in_map_iff. now exists j.
Qed.

(** X11. When a describe request of [list_ecs_services] fails, no
    further batch is requested and the envelope is the error alone: the
    services of the batches described before are not reported. *)
Theorem list_ecs_services_batch_failure (w : Provider) (cluster : string)
    (pre post : list (list string)) (failed : list string) (e : ClientError) :
  pg_failure (ecs_list_services (ecs w) cluster) = None ->
  batches 10 (service_arns w cluster) = (pre ++ failed :: post)%list ->
  (forall batch,
      In batch pre ->
      exists r, ecs_describe_services (ecs w) cluster batch = Ok r) ->
  ecs_describe_services (ecs w) cluster failed = Err e ->
  list_ecs_services w cluster
  = ((page_events (ListServices cluster) 0
        (List.length (pg_pages (ecs_list_services (ecs w) cluster))) None
      ++ map (fun batch => succeeded (DescribeServices cluster batch)) pre
      ++ [failed_with e (DescribeServices cluster failed)])%list,
     Returned (error_envelope e)).
Proof.
  intros Hlist Hsplit Hok Hfail.
  unfold list_ecs_services, paginate, service_arns in *.
  rewrite Hlist, paginate_from_pure, fold_left_app_pages, bind_returned.
  cbn [app].
  destruct (List.concat (pg_pages (ecs_list_services (ecs w) cluster)))
    as [|arn arns] eqn:E.
  - rewrite batches_nil in Hsplit. now destruct pre.
  - unfold describe_services_batched. cbv zeta.
    rewrite (describe_loop_failure (DescribeServices cluster)
               (ecs_describe_services (ecs w) cluster) service_summary
               (arn :: arns) 10 pre post failed e Hsplit Hok Hfail).
    unfold bind, try_except, return_error, ret. cbn [fst snd].
    now rewrite app_nil_r.
Qed.

Lemma list_ecs_services_batch_failure_witness :
  list_ecs_services short_batch_throttled "prod"
  = ([succeeded (ListServices "prod" 0);
      succeeded (DescribeServices "prod" (firstn 10 twelve_arns));
      failed_with throttled (DescribeServices "prod" (skipn 10 twelve_arns))],
     Returned (error_envelope throttled)).
Proof.
  refine (list_ecs_services_batch_failure short_batch_throttled "prod"
            [firstn 10 twelve_arns] [] (skipn 10 twelve_arns) throttled
            eq_refl eq_refl _ eq_refl).
  intros batch [<-|[]]. eexists. reflexivity.
Defined.

(** X12. When a describe request of [list_ecs_tasks] fails, no further
    batch is requested and the envelope is the error alone: the tasks of
    the batches described before are not reported. *)
Theorem list_ecs_tasks_batch_failure (w : Provider) (cluster : string)
    (service : option string) (pre post : list (list string))
    (failed : list string) (e : ClientError) :
  pg_failure (ecs_list_tasks (ecs w) cluster (task_filter service)) = None ->
  batches 100 (task_arns w cluster (task_filter service))
  = (pre ++ failed :: post)%list ->
  (forall batch,
      In batch pre ->
      exists r, ecs_describe_tasks (ecs w) cluster batch = Ok r) ->
  ecs_describe_tasks (ecs w) cluster failed = Err e ->
  list_ecs_tasks w cluster service
  = ((page_events (ListTasks cluster (task_filter service)) 0
        (List.length
           (pg_pages (ecs_list_tasks (ecs w) cluster (task_filter service))))
        None
      ++ map (fun batch => succeeded (DescribeTasks cluster batch)) pre
      ++ [failed_with e (DescribeTasks cluster failed)])%list,
     Returned (error_envelope e)).
Proof.
  intros Hlist Hsplit Hok Hfail.
  unfold list_ecs_tasks, paginate, task_arns, task_filter in *. cbv zeta.
  rewrite Hlist, paginate_from_pure, fold_left_app_pages, bind_returned.
  cbn [app].
  destruct (List.concat
              (pg_pages (ecs_list_tasks (ecs w) cluster
                           (if truthy service then service else None))))
    as [|arn arns] eqn:E.
  - rewrite batches_nil in Hsplit. now destruct pre.
  - unfold describe_tasks_batched. cbv zeta.
    rewrite (describe_loop_failure (DescribeTasks cluster)
               (ecs_describe_tasks (ecs w) cluster) task_summary
               (arn :: arns) 100 pre post failed e Hsplit Hok Hfail).
    unfold bind, try_except, return_error, ret. cbn [fst snd].
    now rewrite app_nil_r.
Qed.

Lemma list_ecs_tasks_batch_failure_witness :
  envelope (list_ecs_tasks short_batch_throttled "prod" None)
  = Some (error_envelope throttled).
Proof.
  refine (f_equal envelope
            (list_ecs_tasks_batch_failure short_batch_throttled "prod" None
               [firstn 100 (numbered_arns "task-" 102)] []
               (skipn 100 (numbered_arns "task-" 102)) throttled
               eq_refl _ _ eq_refl)).
  - vm_compute. reflexivity.
  - intros batch [<-|[]]. eexists. vm_compute. reflexivity.
Defined.

(** X13. For a service that is found, [get_ecs_service_status] makes one
    request and reports the first service of the answer: all its
    deployments, and the first five of its events at most, in the order
    of the answer.  Further services of the answer are ignored. *)
Theorem service_status_recent_events (w : Provider)
    (cluster_name service_name : string) (service : Service)
    (others : list Service) :
  ecs_describe_services (ecs w) cluster_name [service_name]
  = Ok (service :: others) ->
  exists env,
    get_ecs_service_status w cluster_name service_name
    = ([succeeded (DescribeServices cluster_name [service_name])],
       Returned env) /\
    has_field "error" env = false /\
    field "service_name" env = Some (VStr (serviceName service)) /\
    field "deployments" env
    = Some (VList (map deployment_summary (or_empty (deployments service)))) /\
    field "recent_events" env
    = Some (VList (firstn 5 (map event_summary (or_empty (events service))))) /\
    (List.length (firstn 5 (map event_summary (or_empty (events service))))
     <= 5)%nat.
Proof.
  intros Hfound. unfold get_ecs_service_status.
  rewrite Hfound, bind_request_Ok, !for_each_append, !bind_ret.
  unfold ret, try_except. cbn [fst snd app].
  eexists. split; [reflexivity|].
  repeat split; try (now rewrite firstn_map). apply firstn_le_length.
Qed.

Lemma service_status_recent_events_witness :
  exists env,
    get_ecs_service_status busy_cluster "prod" "web"
    = ([succeeded (DescribeServices "prod" ["web"])], Returned env) /\
    has_field "error" env = false /\
    field "service_name" env = Some (VStr "web") /\
    field "deployments" env
    = Some (VList (map deployment_summary (map numbered_deployment (seq 0 2)))) /\
    field "recent_events" env
    = Some (VList (map event_summary (map numbered_event (seq 0 5)))) /\
    (5 <= 5)%nat.
Proof.
  exact (service_status_recent_events busy_cluster "prod" "web" busy_service
           [service_detail "other"] eq_refl).
Defined.

(** ** Scheduled retirements *)

Lemma assoc_dict_append_same {A : Type} (k : string) (v : A)
    (d : list (string * list A)) :
  assoc k (dict_append k v d)
  = Some (match assoc k d with Some l => l | None => [] end ++ [v])%list.
Proof.
  unfold dict_append. destruct (assoc k d); now rewrite assoc_dict_set_same.
Qed.

Lemma assoc_dict_append_other {A : Type} (k k' : string) (v : A)
    (d : list (string * list A)) :
  k' <> k -> assoc k' (dict_append k v d) = assoc k' d.
Proof.
  intros Hne. unfold dict_append.
  destruct (assoc k d); now apply assoc_dict_set_other.
Qed.

Lemma keys_dict_set_present {A : Type} (k : string) (v v' : A)
    (d : list (string * A)) :
  assoc k d = Some v' -> keys (dict_set k v d) = keys d.
Proof.
  unfold keys. induction d as [|[k0 v0] d IH]; simpl; [discriminate|].
  destruct (String.eqb k k0); simpl; [reflexivity|].
  intros H. now rewrite IH.
Qed.

Lemma keys_dict_append {A : Type} (k : string) (v : A)
    (d : list (string * list A)) :
  keys (dict_append k v d)
  = if mem k (keys d) then keys d else (keys d ++ [k])%list.
Proof.
  unfold dict_append. destruct (assoc k d) as [l|] eqn:E.
  - rewrite (keys_dict_set_present _ _ _ _ E).
    destruct (mem k (keys d)) eqn:M; [reflexivity|].
    apply assoc_None_keys in M. congruence.
  - rewrite dict_set_fresh by exact E.
    apply assoc_None_keys in E. rewrite E.
    unfold keys. now rewrite map_app.
Qed.

Lemma grouped_count_dict_append {A : Type} (k : string) (v : A)
    (d : list (string * list A)) :
  grouped_count (dict_append k v d) = S (grouped_count d).
Proof.
  unfold grouped_count, dict_append.
  destruct (assoc k d) as [l|] eqn:E.
  - revert E. induction d as [|[k0 l0] d IH]; simpl; [discriminate|].
    destruct (String.eqb k k0); simpl.
    + intros [= ->]. rewrite !length_app. simpl. lia.
    + intros E. rewrite !length_app, IH by exact E. lia.
  - rewrite dict_set_fresh by exact E.
    rewrite map_app, concat_app, length_app. simpl. lia.
Qed.

(** The names of a list that are not among [seen], once each. *)
Lemma unseen_after_seen (seen : list string) (k : string) (l : list string) :
  mem k seen = true ->
  filter (fun c => negb (mem c seen))
         (filter (fun c => negb (String.eqb c k)) l)
  = filter (fun c => negb (mem c seen)) l.
Proof.
  intros Hseen. rewrite filter_filter. apply filter_ext. intros c.
  destruct (String.eqb c k) eqn:E; [|reflexivity].
  apply String.eqb_eq in E. subst c. now rewrite Hseen.
Qed.

Lemma unseen_after_new (seen : list string) (k : string) (l : list string) :
  filter (fun c => negb (mem c seen))
         (filter (fun c => negb (String.eqb c k)) l)
  = filter (fun c => negb (mem c (seen ++ [k]))) l.
Proof.
  rewrite filter_filter. apply filter_ext. intros c.
  rewrite mem_app. cbn [mem existsb]. rewrite orb_false_r.
  destruct (String.eqb c k), (mem c seen); reflexivity.
Qed.

(** The grouping loop from any dictionary on. *)
Lemma group_loop (retirements : list Retirement) :
  forall by_cluster : list (string * list value),
    let groups :=
      fold_left
        (fun by_cluster r =>
           dict_append (cluster_of_task_arn (ret_task_arn r))
                       (retirement_value r) by_cluster)
        retirements by_cluster in
    keys groups
    = (keys by_cluster
       ++ filter (fun c => negb (mem c (keys by_cluster)))
                 (distinct (map cluster_of retirements)))%list /\
    (forall cluster,
        assoc cluster groups
        = match assoc cluster by_cluster,
                retirements_in cluster retirements with
          | None, [] => None
          | None, rs => Some (map retirement_value rs)
          | Some l, rs => Some (l ++ map retirement_value rs)%list
          end) /\
    grouped_count groups
    = (grouped_count by_cluster + List.length retirements)%nat.
Proof.
  induction retirements as [|r rs IH]; intros by_cluster; cbv zeta.
  - cbn [fold_left map distinct filter retirements_in List.length].
    rewrite app_nil_r, Nat.add_0_r. repeat split.
    intros cluster. destruct (assoc cluster by_cluster); [|reflexivity].
    now rewrite app_nil_r.
  - cbn [fold_left map distinct List.length].
    fold (cluster_of r).
    destruct (IH (dict_append (cluster_of r) (retirement_value r) by_cluster))
      as (Hkeys & Hassoc & Hcount).
    cbv zeta in *. split; [|split].
    + rewrite Hkeys, keys_dict_append. cbn [filter].
      destruct (mem (cluster_of r) (keys by_cluster)) eqn:Hseen; cbn [negb].
      * now rewrite unseen_after_seen.
      * now rewrite <- app_assoc, unseen_after_new.
    + intros cluster. rewrite Hassoc. unfold retirements_in. cbn [filter].
      destruct (String.eqb (cluster_of r) cluster) eqn:E.
      * apply String.eqb_eq in E. subst cluster.
        rewrite assoc_dict_append_same. cbn [map].
        destruct (assoc (cluster_of r) by_cluster) as [l|].
        -- rewrite <- app_assoc. reflexivity.
        -- reflexivity.
      * apply String.eqb_neq in E.
        rewrite assoc_dict_append_other by congruence. reflexivity.
    + rewrite Hcount, grouped_count_dict_append. lia.
Qed.

(** X14. [retirements_by_cluster] is a partition of the retirements: it
    has one group per cluster named in a task ARN, in order of first
    appearance; the group of a cluster holds the retirements of that
    cluster, in their order; and the groups together have as many entries
    as there are retirements. *)
Theorem group_by_cluster_partition (retirements : list Retirement) :
  let groups := group_by_cluster retirements in
  keys groups = distinct (map cluster_of retirements) /\
  (forall cluster,
      assoc cluster groups
      = match retirements_in cluster retirements with
        | [] => None
        | rs => Some (map retirement_value rs)
        end) /\
  grouped_count groups = List.length retirements.
Proof.
  destruct (group_loop retirements []) as (Hkeys & Hassoc & Hcount).
  cbv zeta in *. unfold group_by_cluster. split; [|split].
  - rewrite Hkeys. cbn [keys map app mem existsb negb].
    clear. induction (distinct (map cluster_of retirements)) as [|c l IH];
      [reflexivity | cbn [filter]; now rewrite IH].
  - intros cluster. rewrite Hassoc. reflexivity.
  - rewrite Hcount. reflexivity.
Qed.

Lemma fold_left_filter_pages {X : Type} (p : X -> bool) (pages : list (list X))
    (acc : list X) :
  fold_left (fun acc page => (acc ++ filter p page)%list) pages acc
  = (acc ++ filter p (List.concat pages))%list.
Proof.
  revert acc. induction pages as [|page pages IH]; intros acc; simpl.
  - now rewrite app_nil_r.
  - now rewrite IH, filter_app, app_assoc.
Qed.

(** A loop whose body issues the requests [tr x] and appends the entries
    [g x]. *)
Lemma for_each_extend {X Y : Type} (body : X -> list Y -> M (list Y))
    (g : X -> list Y) (tr : X -> trace) (xs : list X) :
  (forall x acc, body x acc = (tr x, Returned (acc ++ g x)%list)) ->
  forall acc,
    for_each xs body acc = (flat_map tr xs, Returned (acc ++ flat_map g xs)%list).
Proof.
  intros Hbody. induction xs as [|x xs IH]; intros acc;
    cbn [for_each flat_map].
  - now rewrite app_nil_r.
  - rewrite Hbody, bind_returned, IH. cbn [fst snd].
    now rewrite <- app_assoc.
Qed.

(** X15. With the Health client created and the event listing complete,
    [list_fargate_retirements] looks up the entities of the events that
    start before the end of the window, and of no other event, one
    request per event in the order listed.  It reports the Fargate
    entities of the events whose lookup succeeded; an event whose lookup
    failed contributes nothing, and the envelope is a success envelope
    all the same. *)
Theorem fargate_retirements_of_window_events (w : Provider) (now : datetime)
    (days : Z) :
  health_client_failure w = None ->
  pg_failure (health_describe_events (health w)) = None ->
  let events := events_in_window w now days in
  let retirements := flat_map (retirements_of w) events in
  list_fargate_retirements w now days
  = ((page_events DescribeEvents 0
        (List.length (pg_pages (health_describe_events (health w)))) None
      ++ map (fun event =>
                answered (DescribeAffectedEntities (event_arn event))
                  (health_describe_affected_entities (health w)
                     (event_arn event)))
             events)%list,
     Returned
       match events with
       | [] =>
           VDict [("days_checked", VInt days);
                  ("retirement_count", VInt 0);
                  ("message",
                   VStr "No Fargate task retirements scheduled in the specified time window");
                  ("retirements", VList [])]
       | _ :: _ =>
           VDict [("days_checked", VInt days);
                  ("retirement_count", VLen retirements);
                  ("retirements_by_cluster",
                   VDict (map (fun kv => (fst kv, VList (snd kv)))
                              (group_by_cluster retirements)));
                  ("retirements", VList (map retirement_value retirements))]
       end).
Proof.
  intros Hclient Hlisting. cbv zeta.
  unfold list_fargate_retirements, events_in_window.
  rewrite Hclient. cbv zeta. unfold paginate.
  rewrite (paginate_from_pure_ext DescribeEvents
             (pg_pages (health_describe_events (health w)))
             (pg_failure (health_describe_events (health w))) _
             (fun page events =>
                (events ++ filter (in_window (plus_days now days)) page)%list)
             (fun page events => window_loop (plus_days now days) page events)).
  rewrite Hlisting, fold_left_filter_pages, bind_returned. cbn [app].
  destruct (filter (in_window (plus_days now days))
              (List.concat (pg_pages (health_describe_events (health w)))))
    as [|event events].
  - unfold ret, try_except. cbn [fst snd map]. reflexivity.
  - rewrite (for_each_extend _ (retirements_of w)
               (fun event =>
                  [answered (DescribeAffectedEntities (event_arn event))
                     (health_describe_affected_entities (health w)
                        (event_arn event))])).
    + rewrite bind_returned_ret. unfold try_except. cbn [app].
      now rewrite flat_map_singleton.
    + intros ev acc. unfold retirements_of, answered.
      destruct (health_describe_affected_entities (health w) (event_arn ev))
        as [affected|e].
      * rewrite bind_request_Ok, for_each_filter_append.
        unfold try_except, ret. reflexivity.
      * rewrite bind_request_Err. unfold try_except, ret. cbn [app].
        now rewrite app_nil_r.
Qed.

Lemma fargate_retirements_of_window_events_witness :
  envelope (list_fargate_retirements three_retirements scenario_now 14)
  = Some
      (VDict [("days_checked", VInt 14);
              ("retirement_count", VInt 3);
              ("retirements_by_cluster",
               VDict (map (fun kv => (fst kv, VList (snd kv)))
                        (group_by_cluster
                           (flat_map (retirements_of three_retirements)
                              (events_in_window three_retirements
                                 scenario_now 14)))));
              ("retirements",
               VList (map retirement_value
                        (flat_map (retirements_of three_retirements)
                           (events_in_window three_retirements
                              scenario_now 14))))]).
Proof.
  exact (f_equal envelope
           (fargate_retirements_of_window_events three_retirements
              scenario_now 14 eq_refl eq_refl)).
Defined.

(** ** S3 *)

Lemma total_size_app (l1 l2 : list S3Object) :
  total_size (l1 ++ l2) = total_size l1 + total_size l2.
Proof.
  unfold total_size. induction l1 as [|obj l1 IH]; simpl; [reflexivity|].
  rewrite IH. lia.
Qed.

Lemma size_loop (objects : list S3Object) (t c : Z) :
  for_each objects
    (fun obj '(t, c) => ret (t + Size obj, c + 1))
    (t, c)
  = ret (t + total_size objects, c + Z.of_nat (List.length objects)).
Proof.
  revert t c. induction objects as [|obj objects IH]; intros t c.
  - cbn [for_each total_size fold_right List.length]. do 2 f_equal; lia.
  - cbn [for_each]. rewrite bind_ret, IH.
    cbn [total_size fold_right List.length]. fold (total_size objects).
    do 2 f_equal; lia.
Qed.

Lemma size_pages (pages : list ObjectPage) (t c : Z) :
  fold_left
    (fun (s : Z * Z) page =>
       (fst s + total_size (or_empty (Contents page)),
        snd s + Z.of_nat (List.length (or_empty (Contents page)))))
    pages (t, c)
  = (t + total_size (contents_of pages),
     c + Z.of_nat (List.length (contents_of pages))).
Proof.
  revert t c. induction pages as [|page pages IH]; intros t c.
  - cbn. f_equal; lia.
  - cbn [fold_left fst snd contents_of flat_map]. rewrite IH.
    fold (contents_of pages). rewrite total_size_app, length_app.
    f_equal; lia.
Qed.

(** X16. [get_bucket_size] reads every page of the listing.  When every
    fetch succeeds, [object_count] is the number of objects of all pages
    and [total_size_bytes] the sum of their sizes, a page without
    [Contents] adding nothing; when a fetch fails the envelope is the
    error alone, and the totals of the pages read before are dropped. *)
Theorem get_bucket_size_totals (w : Provider) (bucket_name : string) :
  let objects := objects_listed w bucket_name in
  get_bucket_size w bucket_name
  = (page_events (ListObjectsV2 bucket_name) 0
       (List.length (pg_pages (s3_list_objects_v2 (s3 w) bucket_name)))
       (pg_failure (s3_list_objects_v2 (s3 w) bucket_name)),
     Returned
       match pg_failure (s3_list_objects_v2 (s3 w) bucket_name) with
       | None =>
           VDict [("bucket", VStr bucket_name);
                  ("object_count", VInt (Z.of_nat (List.length objects)));
                  ("total_size_bytes", VInt (total_size objects));
                  ("total_size_human",
                   VStr (_human_readable_size (total_size objects)))]
       | Some e => error_envelope e
       end).
Proof.
  cbv zeta. unfold get_bucket_size, paginate, objects_listed.
  rewrite (paginate_from_pure_ext (ListObjectsV2 bucket_name)
             (pg_pages (s3_list_objects_v2 (s3 w) bucket_name))
             (pg_failure (s3_list_objects_v2 (s3 w) bucket_name)) _
             (fun page (s : Z * Z) =>
                (fst s + total_size (or_empty (Contents page)),
                 snd s + Z.of_nat (List.length (or_empty (Contents page)))))).
  - rewrite size_pages.
    destruct (pg_failure (s3_list_objects_v2 (s3 w) bucket_name)) as [e|].
    + unfold bind, try_except, return_error, ret. now rewrite app_nil_r.
    + rewrite bind_returned. unfold ret, try_except. cbn [fst snd].
      now rewrite app_nil_r.
  - intros page [t c]. cbn [fst snd].
    destruct (Contents page) as [objects|]; cbn [or_empty].
    + apply size_loop.
    + cbn. unfold ret. do 3 f_equal; lia.
Qed.

(** X17. The per-bucket check of [check_bucket_public_access] makes one
    request and always yields an entry.  For a configuration the issues
    are those of the settings that are off or missing, in the order
    checked, and the bucket is reported blocked exactly when there is no
    issue; for a failed lookup there is exactly one issue.  So an entry
    never has more than four issues, and an entry reported as not
    blocked always names at least one. *)
Theorem check_bucket_issues (w : Provider) (name : string) :
  exists info,
    check_bucket w name
    = ([answered (GetPublicAccessBlock name)
          (s3_get_public_access_block (s3 w) name)],
       Returned info) /\
    info_bucket info = name /\
    match s3_get_public_access_block (s3 w) name with
    | Ok config =>
        issues info = settings_off config /\
        public_access_blocked info = is_nil (issues info)
    | Err _ => List.length (issues info) = 1%nat
    end /\
    (List.length (issues info) <= 4)%nat /\
    (public_access_blocked info = false -> issues info <> []).
Proof.
  unfold check_bucket, answered.
  destruct (s3_get_public_access_block (s3 w) name) as [config|e].
  - rewrite bind_request_Ok. unfold try_except, ret. cbn [fst snd].
    eexists. split; [reflexivity|].
    unfold check_config, check_setting, settings_off, issue_of, setting_on.
    destruct config as [[[]|] [[]|] [[]|] [[]|]];
      cbn; repeat split; try lia; discriminate.
  - rewrite bind_request_Err. unfold try_except, ret, check_failed.
    cbn [fst snd app].
    destruct (contains "NoSuchPublicAccessBlockConfiguration" (err_text e));
      eexists; (split; [reflexivity|]); cbn; repeat split; try lia;
      discriminate.
Qed.

Lemma buckets_to_check_named (w : Provider) (bucket_name : string) :
  bucket_name <> "" ->
  buckets_to_check w (Some bucket_name) = ret [bucket_name].
Proof.
  intros Hname. unfold buckets_to_check, truthy.
  apply String.eqb_neq in Hname. now rewrite Hname.
Qed.

(** X18. Asked for one bucket, [check_bucket_public_access] and
    [get_bucket_encryption] do not list the buckets: each makes exactly
    one request, the lookup for that bucket, and reports one bucket
    checked. *)
Theorem named_bucket_one_request (w : Provider) (bucket_name : string) :
  bucket_name <> "" ->
  (calls (check_bucket_public_access w (Some bucket_name))
   = [answered (GetPublicAccessBlock bucket_name)
        (s3_get_public_access_block (s3 w) bucket_name)] /\
   list_field "buckets" (check_bucket_public_access w (Some bucket_name))
   = Some [bucket_info_value (check_of w bucket_name)]) /\
  (calls (get_bucket_encryption w (Some bucket_name))
   = [answered (GetBucketEncryption bucket_name)
        (s3_get_bucket_encryption (s3 w) bucket_name)] /\
   list_field "buckets" (get_bucket_encryption w (Some bucket_name))
   = Some [encryption_info_value (encryption_info_of w bucket_name)]).
Proof.
  intros Hname.
  pose proof (buckets_to_check_named w bucket_name Hname) as Hnames.
  split.
  - rewrite (check_bucket_public_access_run w (Some bucket_name) [bucket_name])
      by now rewrite Hnames.
    rewrite Hnames. split; reflexivity.
  - destruct (get_bucket_encryption_run w (Some bucket_name) [bucket_name])
      as (summary & -> & Hsummary); [now rewrite Hnames|].
    rewrite Hnames. split; [reflexivity|].
    unfold list_field, envelope. cbn [snd field].
    now rewrite assoc_app_None by exact Hsummary.
Qed.

Lemma named_bucket_one_request_witness :
  calls (check_bucket_public_access denied_bucket (Some "logs"))
  = [answered (GetPublicAccessBlock "logs")
       (s3_get_public_access_block (s3 denied_bucket) "logs")] /\
  list_field "buckets" (check_bucket_public_access denied_bucket (Some "logs"))
  = Some [bucket_info_value (check_of denied_bucket "logs")].
Proof.
  refine (proj1 (named_bucket_one_request denied_bucket "logs" _)).
  discriminate.
Defined.

Lemma encryption_info_bucket (w : Provider) (name : string) :
  enc_bucket (encryption_info_of w name) = name.
Proof.
  unfold encryption_info_of, encryption_of, encryption_failed.
  destruct (s3_get_bucket_encryption (s3 w) name) as [encryption|e].
  - destruct (encryption_rules encryption); reflexivity.
  - destruct (contains _ (err_text e)); reflexivity.
Qed.

Lemma encryption_info_enabled (w : Provider) (name : string) :
  encryption_enabled (encryption_info_of w name) = encrypted w name.
Proof.
  unfold encryption_info_of, encrypted, encryption_of, encryption_failed.
  destruct (s3_get_bucket_encryption (s3 w) name) as [encryption|e].
  - destruct (encryption_rules encryption); reflexivity.
  - destruct (contains _ (err_text e)); reflexivity.
Qed.

Lemma encryption_info_unencrypted (w : Provider) (name : string) :
  andb (negb (encryption_enabled (encryption_info_of w name)))
       (negb (is_some (enc_error (encryption_info_of w name))))
  = unencrypted w name.
Proof.
  unfold encryption_info_of, unencrypted, encryption_of, encryption_failed.
  destruct (s3_get_bucket_encryption (s3 w) name) as [encryption|e].
  - destruct (encryption_rules encryption); reflexivity.
  - destruct (contains _ (err_text e)); reflexivity.
Qed.

Lemma three_way_count {A : Type} (p q r : A -> bool) (l : list A) :
  (forall x, In x l ->
             (if p x then 1 else 0) + (if q x then 1 else 0)
             + (if r x then 1 else 0) = 1)%nat ->
  List.length l
  = (List.length (filter p l) + List.length (filter q l)
     + List.length (filter r l))%nat.
Proof.
  induction l as [|x l IH]; intros Hone; [reflexivity|].
  specialize (IH (fun y Hy => Hone y (or_intror Hy))).
  specialize (Hone x (or_introl eq_refl)).
  cbn [filter List.length].
  destruct (p x), (q x), (r x); cbn [List.length]; lia.
Qed.

(** X19. [get_bucket_encryption] sorts every bucket checked into one of
    three kinds: encrypted, when the lookup returns a rule; unencrypted,
    when it returns none or fails because there is no configuration;
    unknown, when it fails otherwise.  [encrypted_count] and
    [unencrypted_count] count the first two kinds and
    [unencrypted_buckets] names the second, so a bucket whose lookup
    failed otherwise is counted in [buckets_checked] only. *)
Theorem encryption_counts (w : Provider) (bucket_name : option string)
    (names : list string) :
  snd (buckets_to_check w bucket_name) = Returned names ->
  exists env,
    envelope (get_bucket_encryption w bucket_name) = Some env /\
    field "buckets_checked" env = Some (VLen names) /\
    field "encrypted_count" env = Some (VLen (filter (encrypted w) names)) /\
    field "unencrypted_count" env
    = Some (VLen (filter (unencrypted w) names)) /\
    field "unencrypted_buckets" env
    = Some (or_none (map VStr (filter (unencrypted w) names))) /\
    List.length names
    = (List.length (filter (encrypted w) names)
       + List.length (filter (unencrypted w) names)
       + List.length (filter (encryption_unknown w) names))%nat.
Proof.
  intros Hnames. unfold get_bucket_encryption.
  destruct (buckets_to_check w bucket_name) as [t o].
  cbn [snd] in Hnames. subst o. rewrite bind_returned.
  rewrite (for_each_total_append _ (encryption_info_of w)
             (fun name => [answered (GetBucketEncryption name)
                             (s3_get_bucket_encryption (s3 w) name)]))
    by (intros x acc; now rewrite bucket_encryption_run, bind_returned).
  rewrite bind_returned. unfold ret, try_except, envelope.
  cbn [fst snd app].
  assert (Hunencrypted :
            map (fun r => VStr (enc_bucket r))
                (filter (fun r => andb (negb (encryption_enabled r))
                                       (negb (is_some (enc_error r))))
                        (map (encryption_info_of w) names))
            = map VStr (filter (unencrypted w) names)).
  { rewrite filter_map_swap, map_map.
    rewrite (filter_ext _ (unencrypted w))
      by (intros; apply encryption_info_unencrypted).
    apply map_ext. intros name. now rewrite encryption_info_bucket. }
  eexists. split; [reflexivity|].
  cbn [field assoc String.eqb Ascii.eqb Bool.eqb]. rewrite Hunencrypted.
  unfold VLen. rewrite !length_map, filter_map_swap, length_map.
  rewrite (filter_ext _ (encrypted w)) by (intros; apply encryption_info_enabled).
  repeat split.
  apply three_way_count. intros name _.
  unfold encrypted, unencrypted, encryption_unknown.
  destruct (s3_get_bucket_encryption (s3 w) name) as [encryption|e].
  - destruct (is_nil (encryption_rules encryption)); reflexivity.
  - destruct (contains _ (err_text e)); reflexivity.
Qed.

Lemma encryption_counts_witness :
  exists env,
    envelope (get_bucket_encryption denied_bucket (Some "logs")) = Some env /\
    field "buckets_checked" env = Some (VInt 1) /\
    field "encrypted_count" env = Some (VInt 0) /\
    field "unencrypted_count" env = Some (VInt 1) /\
    field "unencrypted_buckets" env = Some (VList [VStr "logs"]) /\
    1%nat = 1%nat.
Proof.
  exact (encryption_counts denied_bucket (Some "logs") ["logs"] eq_refl).
Defined.

(** *** The matches of find_object *)








(** ** Lambda *)

Lemma for_each_pure {X St : Type} (h : X -> St -> St) (xs : list X) (s : St) :
  for_each xs (fun x s => ret (h x s)) s
  = ret (fold_left (fun s x => h x s) xs s).
Proof.
  revert s. induction xs as [|x xs IH]; intros s; cbn [for_each fold_left].
  - reflexivity.
  - now rewrite bind_ret, IH.
Qed.

Lemma fold_left_pages {X St : Type} (h : X -> St -> St)
    (pages : list (list X)) (s : St) :
  fold_left (fun s page => fold_left (fun s x => h x s) page s) pages s
  = fold_left (fun s x => h x s) (List.concat pages) s.
Proof.
  revert s. induction pages as [|page pages IH]; intros s; simpl.
  - reflexivity.
  - now rewrite IH, fold_left_app.
Qed.

Lemma scan_function_step (include_approaching_eol : bool)
    (func : LambdaFunction) (s : Scan) :
  scan_function include_approaching_eol func s
  = {| deprecated_functions :=
         (deprecated_functions s
          ++ if is_deprecated func
             then [flagged_entry DEPRECATED_RUNTIMES func] else [])%list;
       deprecated_runtimes :=
         (deprecated_runtimes s
          ++ if is_deprecated func then [runtime_or "" func] else [])%list;
       approaching_eol_functions :=
         (approaching_eol_functions s
          ++ if andb include_approaching_eol (is_approaching_eol func)
             then [flagged_entry APPROACHING_EOL_RUNTIMES func] else [])%list;
       total_functions := total_functions s + 1 |}.
Proof.
  unfold scan_function, is_approaching_eol, is_deprecated, flagged_entry.
  destruct (has_key (runtime_or "" func) DEPRECATED_RUNTIMES); cbn [negb andb].
  - now rewrite andb_false_r, app_nil_r.
  - destruct (include_approaching_eol
              && has_key (runtime_or "" func) APPROACHING_EOL_RUNTIMES)%bool;
      now rewrite ?app_nil_r.
Qed.

(** The scan of [find_deprecated_runtimes] over a list of functions. *)
Lemma scan_functions (include_approaching_eol : bool)
    (functions : list LambdaFunction) (s : Scan) :
  fold_left (fun s func => scan_function include_approaching_eol func s)
            functions s
  = {| deprecated_functions :=
         (deprecated_functions s
          ++ map (flagged_entry DEPRECATED_RUNTIMES)
                 (filter is_deprecated functions))%list;
       deprecated_runtimes :=
         (deprecated_runtimes s
          ++ map (runtime_or "") (filter is_deprecated functions))%list;
       approaching_eol_functions :=
         (approaching_eol_functions s
          ++ if include_approaching_eol
             then map (flagged_entry APPROACHING_EOL_RUNTIMES)
                      (filter is_approaching_eol functions)
             else [])%list;
       total_functions := total_functions s + Z.of_nat (List.length functions) |}.
Proof.
  revert s. induction functions as [|func functions IH]; intros s.
  - cbn [fold_left filter map List.length]. destruct s.
    cbn [deprecated_functions deprecated_runtimes approaching_eol_functions
         total_functions].
    rewrite !app_nil_r, Z.add_0_r.
    now destruct include_approaching_eol; rewrite ?app_nil_r.
  - cbn [fold_left filter]. rewrite IH, scan_function_step.
    cbn [deprecated_functions deprecated_runtimes approaching_eol_functions
         total_functions List.length].
    destruct (is_deprecated func), include_approaching_eol,
      (is_approaching_eol func);
      cbn [andb map]; rewrite <- ?app_assoc; cbn [app]; f_equal; lia.
Qed.

Lemma keys_dict_set {A : Type} (k : string) (v : A) (d : list (string * A)) :
  keys (dict_set k v d)
  = if mem k (keys d) then keys d else (keys d ++ [k])%list.
Proof.
  destruct (assoc k d) as [v'|] eqn:E.
  - rewrite (keys_dict_set_present _ _ _ _ E).
    destruct (mem k (keys d)) eqn:M; [reflexivity|].
    apply assoc_None_keys in M. congruence.
  - rewrite dict_set_fresh by exact E. apply assoc_None_keys in E.
    rewrite E. unfold keys. now rewrite map_app.
Qed.

Lemma sum_counts_app (d1 d2 : list (string * Z)) :
  sum_counts (d1 ++ d2) = sum_counts d1 + sum_counts d2.
Proof.
  unfold sum_counts. induction d1 as [|kv d1 IH]; simpl; [reflexivity|].
  rewrite IH. lia.
Qed.

Lemma sum_counts_count_runtime (rt : string) (summary : list (string * Z)) :
  sum_counts (count_runtime rt summary) = sum_counts summary + 1.
Proof.
  unfold count_runtime. destruct (assoc rt summary) as [n|] eqn:E.
  - revert E. induction summary as [|[k m] summary IH]; simpl; [discriminate|].
    destruct (String.eqb rt k); simpl.
    + intros [= ->]. unfold sum_counts. simpl. lia.
    + intros E. unfold sum_counts in *. simpl. rewrite IH by exact E. lia.
  - rewrite dict_set_fresh by exact E. rewrite sum_counts_app.
    unfold sum_counts. simpl. lia.
Qed.

Lemma occurrences_of_cons (rt r : string) (runtimes : list string) :
  occurrences_of rt (r :: runtimes)
  = (if String.eqb rt r then 1 else 0) + occurrences_of rt runtimes.
Proof.
  unfold occurrences_of. cbn [filter].
  destruct (String.eqb rt r); cbn [List.length]; lia.
Qed.

(** The counting loop from any summary on. *)
Lemma count_loop (runtimes : list string) :
  forall summary : list (string * Z),
    let counted :=
      fold_left (fun summary rt => count_runtime rt summary) runtimes summary in
    keys counted
    = (keys summary
       ++ filter (fun rt => negb (mem rt (keys summary))) (distinct runtimes))%list /\
    (forall rt,
        assoc rt counted
        = if occurrences_of rt runtimes =? 0 then assoc rt summary
          else Some (match assoc rt summary with Some n => n | None => 0 end
                     + occurrences_of rt runtimes)) /\
    sum_counts counted = sum_counts summary + Z.of_nat (List.length runtimes).
Proof.
  induction runtimes as [|r runtimes IH]; intros summary; cbv zeta.
  - cbn [fold_left distinct filter List.length]. rewrite app_nil_r.
    repeat split; lia.
  - cbn [fold_left distinct]. destruct (IH (count_runtime r summary))
      as (Hkeys & Hassoc & Hsum). cbv zeta in *.
    split; [|split].
    + rewrite Hkeys. unfold count_runtime at 1 2. rewrite keys_dict_set.
      cbn [filter].
      destruct (mem r (keys summary)) eqn:Hseen; cbn [negb].
      * now rewrite unseen_after_seen.
      * now rewrite <- app_assoc, unseen_after_new.
    + intros rt. rewrite Hassoc, occurrences_of_cons.
      assert (Hpos : 0 <= occurrences_of rt runtimes)
        by (unfold occurrences_of; lia).
      unfold count_runtime. destruct (String.eqb rt r) eqn:E.
      * apply String.eqb_eq in E. subst r. rewrite assoc_dict_set_same.
        replace (1 + occurrences_of rt runtimes =? 0) with false
          by (symmetry; apply Z.eqb_neq; lia).
        destruct (occurrences_of rt runtimes =? 0) eqn:Z0.
        -- apply Z.eqb_eq in Z0. rewrite Z0. f_equal; lia.
        -- f_equal; lia.
      * apply String.eqb_neq in E.
        rewrite assoc_dict_set_other by exact E.
        now rewrite Z.add_0_l.
    + rewrite Hsum, sum_counts_count_runtime. cbn [List.length]. lia.
Qed.

Lemma distinct_nil (names : list string) : distinct names = [] -> names = [].
Proof. destruct names; [reflexivity | discriminate]. Qed.

Lemma occurrences_of_member (rt : string) (runtimes : list string) :
  In rt runtimes -> 0 < occurrences_of rt runtimes.
Proof.
  induction runtimes as [|r runtimes IH]; intros Hin; [contradiction|].
  rewrite occurrences_of_cons.
  assert (0 <= occurrences_of rt runtimes) by (unfold occurrences_of; lia).
  destruct (String.eqb rt r) eqn:E; [lia|].
  apply String.eqb_neq in E. destruct Hin as [->|Hin]; [congruence|].
  specialize (IH Hin). lia.
Qed.

Lemma distinct_In (name : string) (names : list string) :
  In name (distinct names) -> In name names.
Proof.
  induction names as [|n names IH]; [contradiction|].
  cbn [distinct]. intros [<-|Hin]; [now left|].
  apply filter_In in Hin as [Hin _]. right. now apply IH.
Qed.

(** X21. [find_deprecated_runtimes] scans every function of every page.
    [total_functions_scanned] is their number, [deprecated_count] the
    number of those whose runtime is in the deprecated table, and the two
    approaching-end-of-life fields are present only when asked for.
    [deprecated_runtime_summary] is present only when a deprecated
    function was found; it has one key per deprecated runtime in use, in
    order of first appearance, each with the number of functions on that
    runtime, and its counts add up to [deprecated_count]. *)
Theorem find_deprecated_runtimes_counts (w : Provider)
    (include_approaching_eol : bool) :
  pg_failure (lambda_list_functions (lambda w) None) = None ->
  let functions := all_functions w None in
  let deprecated := filter is_deprecated functions in
  let runtimes := map (runtime_or "") deprecated in
  exists env summary,
    envelope (find_deprecated_runtimes w include_approaching_eol) = Some env /\
    field "total_functions_scanned" env = Some (VLen functions) /\
    field "deprecated_count" env = Some (VLen deprecated) /\
    field "deprecated_functions" env
    = Some (VList (map (flagged_entry DEPRECATED_RUNTIMES) deprecated)) /\
    field "approaching_eol_count" env
    = (if include_approaching_eol
       then Some (VLen (filter is_approaching_eol functions))
       else None) /\
    field "approaching_eol_functions" env
    = (if include_approaching_eol
       then Some (VList (map (flagged_entry APPROACHING_EOL_RUNTIMES)
                           (filter is_approaching_eol functions)))
       else None) /\
    field "deprecated_runtime_summary" env
    = (if is_nil deprecated then None
       else Some (VDict (map (fun kv => (fst kv, VInt (snd kv))) summary))) /\
    keys summary = distinct runtimes /\
    (forall rt, In rt (keys summary) ->
                assoc rt summary = Some (occurrences_of rt runtimes)) /\
    sum_counts summary = Z.of_nat (List.length deprecated).
Proof.
  intros Hlisting. cbv zeta.
  unfold find_deprecated_runtimes, paginate, all_functions.
  rewrite (paginate_from_pure_ext (ListFunctions None)
             (pg_pages (lambda_list_functions (lambda w) None))
             (pg_failure (lambda_list_functions (lambda w) None)) _
             (fun page s =>
                fold_left
                  (fun s func => scan_function include_approaching_eol func s)
                  page s))
    by (intros; apply for_each_pure).
  rewrite Hlisting, fold_left_pages, scan_functions, bind_returned_ret.
  set (functions := List.concat (pg_pages (lambda_list_functions (lambda w) None))).
  unfold try_except, envelope, deprecated_report.
  cbn [snd deprecated_functions deprecated_runtimes approaching_eol_functions
       total_functions app].
  destruct (count_loop (map (runtime_or "") (filter is_deprecated functions)) [])
    as (Hkeys & Hassoc & Hsum).
  cbv zeta in *.
  set (summary := fold_left (fun summary rt => count_runtime rt summary)
                    (map (runtime_or "") (filter is_deprecated functions)) [])
    in *.
  assert (Hkeys' : keys summary
                   = distinct (map (runtime_or "") (filter is_deprecated functions))).
  { rewrite Hkeys. cbn [keys map app mem existsb negb]. clear.
    induction (distinct _) as [|c l IH]; [reflexivity|].
    cbn [filter]. now rewrite IH. }
  exists (VDict
            ([("total_functions_scanned", VInt (0 + Z.of_nat (List.length functions)));
              ("deprecated_count",
               VLen (map (flagged_entry DEPRECATED_RUNTIMES)
                       (filter is_deprecated functions)));
              ("deprecated_functions",
               VList (map (flagged_entry DEPRECATED_RUNTIMES)
                        (filter is_deprecated functions)))]
             ++ (if include_approaching_eol
                 then [("approaching_eol_count",
                        VLen (if include_approaching_eol
                              then map (flagged_entry APPROACHING_EOL_RUNTIMES)
                                     (filter is_approaching_eol functions)
                              else []));
                       ("approaching_eol_functions",
                        VList (if include_approaching_eol
                               then map (flagged_entry APPROACHING_EOL_RUNTIMES)
                                      (filter is_approaching_eol functions)
                               else []))]
                 else [])
             ++ match summary with
                | [] => []
                | _ :: _ =>
                    [("deprecated_runtime_summary",
                      VDict (map (fun kv => (fst kv, VInt (snd kv))) summary))]
                end)%list), summary.
  split; [reflexivity|].
  assert (Hnil : is_nil (filter is_deprecated functions) = is_nil summary).
  { destruct summary as [|kv summary'].
    - cbn [keys map] in Hkeys'. symmetry in Hkeys'.
      apply distinct_nil, map_eq_nil in Hkeys'. now rewrite Hkeys'.
    - destruct (filter is_deprecated functions); [discriminate Hkeys'|].
      reflexivity. }
  rewrite Hnil. unfold VLen. rewrite !length_map.
  split; [reflexivity|]. split; [reflexivity|]. split; [reflexivity|].
  split.
  { destruct include_approaching_eol;
      cbn [field assoc app String.eqb Ascii.eqb Bool.eqb];
      [now rewrite length_map|].
    now destruct summary. }
  split.
  { destruct include_approaching_eol;
      cbn [field assoc app String.eqb Ascii.eqb Bool.eqb]; [reflexivity|].
    now destruct summary. }
  split; [destruct include_approaching_eol, summary; reflexivity|].
  split; [exact Hkeys'|]. split.
  - intros rt Hin. rewrite Hassoc. cbn [assoc].
    rewrite Hkeys' in Hin. apply distinct_In, occurrences_of_member in Hin.
    replace (occurrences_of rt _ =? 0) with false
      by (symmetry; apply Z.eqb_neq; lia).
    reflexivity.
  - rewrite Hsum, length_map. reflexivity.
Qed.

Lemma find_deprecated_runtimes_counts_witness :
  exists env summary,
    envelope (find_deprecated_runtimes mixed_runtimes true) = Some env /\
    field "total_functions_scanned" env = Some (VInt 4) /\
    field "deprecated_count" env = Some (VInt 2) /\
    field "deprecated_functions" env
    = Some (VList (map (flagged_entry DEPRECATED_RUNTIMES)
                     [runtime_function "beta" "python3.7";
                      runtime_function "gamma" "python3.7"])) /\
    field "approaching_eol_count" env = Some (VInt 1) /\
    field "approaching_eol_functions" env
    = Some (VList (map (flagged_entry APPROACHING_EOL_RUNTIMES)
                     [runtime_function "alpha" "python3.9"])) /\
    field "deprecated_runtime_summary" env
    = Some (VDict (map (fun kv => (fst kv, VInt (snd kv))) summary)) /\
    keys summary = ["python3.7"] /\
    (forall rt, In rt (keys summary) ->
                assoc rt summary
                = Some (occurrences_of rt ["python3.7"; "python3.7"])) /\
    sum_counts summary = 2.
Proof.
  exact (find_deprecated_runtimes_counts mixed_runtimes true eq_refl).
Defined.

(** *** The order of list_lambda_functions *)

Lemma ascii_compare_refl (a : ascii) : Ascii.compare a a = Eq.
Proof. unfold Ascii.compare. apply N.compare_refl. Qed.

Lemma ascii_compare_Lt_trans (a b c : ascii) :
  Ascii.compare a b = Lt -> Ascii.compare b c = Lt -> Ascii.compare a c = Lt.
Proof.
  unfold Ascii.compare. rewrite !N.compare_lt_iff. lia.
Qed.

Lemma string_compare_refl (s : string) : String.compare s s = Eq.
Proof.
  induction s as [|a s IH]; simpl; [reflexivity|].
  now rewrite ascii_compare_refl.
Qed.

Lemma string_compare_Lt_trans (s1 : string) :
  forall s2 s3,
    String.compare s1 s2 = Lt -> String.compare s2 s3 = Lt ->
    String.compare s1 s3 = Lt.
Proof.
  induction s1 as [|a s1 IH]; intros [|b s2] [|c s3]; simpl;
    try discriminate; try reflexivity.
  destruct (Ascii.compare a b) eqn:Hab; try discriminate;
    destruct (Ascii.compare b c) eqn:Hbc; try discriminate; intros H12 H23.
  - apply Ascii.compare_eq_iff in Hab, Hbc. subst.
    rewrite ascii_compare_refl. eapply IH; eauto.
  - apply Ascii.compare_eq_iff in Hab. subst. now rewrite Hbc.
  - apply Ascii.compare_eq_iff in Hbc. subst. now rewrite Hab.
  - now rewrite (ascii_compare_Lt_trans a b c).
Qed.

Lemma string_leb_trans (s1 s2 s3 : string) :
  String.leb s1 s2 = true -> String.leb s2 s3 = true ->
  String.leb s1 s3 = true.
Proof.
  unfold String.leb.
  destruct (String.compare s1 s2) eqn:H12; try discriminate;
    destruct (String.compare s2 s3) eqn:H23; try discriminate; intros _ _.
  - apply String.compare_eq_iff in H12, H23. subst.
    now rewrite string_compare_refl.
  - apply String.compare_eq_iff in H12. subst. now rewrite H23.
  - apply String.compare_eq_iff in H23. subst. now rewrite H12.
  - now rewrite (string_compare_Lt_trans s1 s2 s3).
Qed.

Lemma summary_before_total (a b : FunctionSummary) :
  summary_before a b \/ summary_before b a.
Proof.
  unfold summary_before, summary_le.
  destruct (fs_status a), (fs_status b); auto; apply String.leb_total.
Qed.

Lemma summary_before_trans (a b c : FunctionSummary) :
  summary_before a b -> summary_before b c -> summary_before a c.
Proof.
  unfold summary_before, summary_le.
  destruct (fs_status a), (fs_status b), (fs_status c);
    try discriminate; auto; apply string_leb_trans.
Qed.

Lemma insert_summary_permutation (x : FunctionSummary)
    (l : list FunctionSummary) :
  Permutation (insert_summary x l) (x :: l).
Proof.
  induction l as [|y l IH]; simpl; [apply Permutation_refl|].
  destruct (summary_le x y); [apply Permutation_refl|].
  eapply Permutation_trans; [apply perm_skip, IH | apply perm_swap].
Qed.

Lemma sort_summaries_permutation (l : list FunctionSummary) :
  Permutation (sort_summaries l) l.
Proof.
  unfold sort_summaries. induction l as [|x l IH]; simpl; [constructor|].
  eapply Permutation_trans; [apply insert_summary_permutation|].
  now apply perm_skip.
Qed.

Lemma insert_summary_sorted (x : FunctionSummary) (l : list FunctionSummary) :
  Sorted summary_before l -> Sorted summary_before (insert_summary x l).
Proof.
  induction l as [|y l IH]; intros Hsorted; simpl.
  - repeat constructor.
  - destruct (summary_le x y) eqn:Hxy.
    + constructor; [exact Hsorted | constructor; exact Hxy].
    + apply Sorted_inv in Hsorted as [Hl Hhd].
      constructor; [now apply IH|].
      assert (Hyx : summary_before y x).
      { destruct (summary_before_total x y) as [H|H]; [|exact H].
        unfold summary_before in H. congruence. }
      destruct l as [|z l]; simpl.
      * constructor. exact Hyx.
      * destruct (summary_le x z); constructor; [exact Hyx|].
        now apply HdRel_inv in Hhd.
Qed.

Lemma sort_summaries_sorted (l : list FunctionSummary) :
  StronglySorted summary_before (sort_summaries l).
Proof.
  apply Sorted_StronglySorted.
  - intros a b c. apply summary_before_trans.
  - unfold sort_summaries. induction l as [|x l IH]; simpl; [constructor|].
    now apply insert_summary_sorted.
Qed.

(** X22. When the listing of functions is complete,
    [list_lambda_functions] reports every function of every page once:
    the entries are a rearrangement of the functions listed, and their
    number is [function_count].  They are in the order of the sort key:
    every function with a deprecation status comes before every function
    without one, and within each of the two groups the names ascend. *)
Theorem list_lambda_functions_sorted (w : Provider) (region : option string) :
  pg_failure (lambda_list_functions (lambda w) (client_region region)) = None ->
  let functions := all_functions w (client_region region) in
  exists sorted,
    envelope (list_lambda_functions w region)
    = Some (VDict [("function_count", VLen functions);
                   ("functions", VList (map fs_value sorted))]) /\
    Permutation sorted (map function_summary functions) /\
    StronglySorted summary_before sorted /\
    (forall a b,
        summary_before a b ->
        (fs_status a = None -> fs_status b = None) /\
        ((fs_status a = None <-> fs_status b = None) ->
         String.leb (fs_name a) (fs_name b) = true)).
Proof.
  intros Hlisting. cbv zeta.
  unfold list_lambda_functions, all_functions, client_region in *.
  cbv zeta. erewrite paginate_collect. rewrite Hlisting, bind_returned_ret.
  unfold try_except, envelope. cbn [snd].
  eexists. split; [|split; [apply sort_summaries_permutation|
                            split; [apply sort_summaries_sorted|]]].
  - unfold VLen. rewrite !length_map.
    now rewrite (Permutation_length (sort_summaries_permutation _)), length_map.
  - intros a b. unfold summary_before, summary_le.
    destruct (fs_status a), (fs_status b); intros Hle; split;
      try discriminate; try tauto; intros H;
      try (destruct H as [H1 H2]; first [now discriminate H1
                                        | now discriminate H2
                                        | now specialize (H1 eq_refl)
                                        | now specialize (H2 eq_refl)]).
Qed.

Lemma list_lambda_functions_sorted_witness :
  exists sorted,
    envelope (list_lambda_functions mixed_runtimes None)
    = Some (VDict [("function_count", VInt 4);
                   ("functions", VList (map fs_value sorted))]) /\
    Permutation sorted
      (map function_summary
         [runtime_function "zeta" "python3.12";
          runtime_function "beta" "python3.7";
          runtime_function "alpha" "python3.9";
          runtime_function "gamma" "python3.7"]) /\
    StronglySorted summary_before sorted /\
    (forall a b,
        summary_before a b ->
        (fs_status a = None -> fs_status b = None) /\
        ((fs_status a = None <-> fs_status b = None) ->
         String.leb (fs_name a) (fs_name b) = true)).
Proof.
  exact (list_lambda_functions_sorted mixed_runtimes None eq_refl).
Defined.

(** X23. [get_lambda_function] reports the names of the environment
    variables of a function and never their values: two functions that
    differ in the values of their variables only get the same envelope,
    whose [environment_variables] are the names, or [None] when there is
    no variable. *)
Theorem get_lambda_function_hides_values (w w' : Provider)
    (function_name : string) (func : LambdaFunction)
    (tags : option (list (string * string)))
    (variables variables' : list (string * string)) :
  lambda_get_function (lambda w) function_name
  = Ok {| Configuration := with_variables func variables; Tags := tags |} ->
  lambda_get_function (lambda w') function_name
  = Ok {| Configuration := with_variables func variables'; Tags := tags |} ->
  map fst variables = map fst variables' ->
  get_lambda_function w function_name = get_lambda_function w' function_name /\
  exists env,
    envelope (get_lambda_function w function_name) = Some env /\
    field "environment_variables" env
    = Some (or_none (map VStr (map fst variables))).
Proof.
  intros Hw Hw' Hnames. unfold get_lambda_function.
  rewrite Hw, Hw', !bind_request_Ok. cbv zeta.
  cbn [Configuration Tags with_variables FunctionName FunctionArn Runtime
       MemorySize Timeout CodeSize fn_LastModified fn_Description Handler
       fn_Role fn_State Architectures Environment VpcConfig Layers].
  rewrite <- !(map_map fst VStr), Hnames. split; [reflexivity|].
  unfold ret, try_except, envelope. cbn [fst snd].
  eexists. split; reflexivity.
Qed.

Lemma get_lambda_function_hides_values_witness :
  get_lambda_function
    (worker_account [("DB_PASSWORD", "hunter2"); ("API_KEY", "abc")]) "worker"
  = get_lambda_function
      (worker_account [("DB_PASSWORD", "s3cret"); ("API_KEY", "xyz")]) "worker" /\
  exists env,
    envelope
      (get_lambda_function
         (worker_account [("DB_PASSWORD", "hunter2"); ("API_KEY", "abc")])
         "worker") = Some env /\
    field "environment_variables" env
    = Some (VList [VStr "DB_PASSWORD"; VStr "API_KEY"]).
Proof.
  exact (get_lambda_function_hides_values
           (worker_account [("DB_PASSWORD", "hunter2"); ("API_KEY", "abc")])
           (worker_account [("DB_PASSWORD", "s3cret"); ("API_KEY", "xyz")])
           "worker" (worker_function []) None
           [("DB_PASSWORD", "hunter2"); ("API_KEY", "abc")]
           [("DB_PASSWORD", "s3cret"); ("API_KEY", "xyz")]
           eq_refl eq_refl eq_refl).
Defined.

(** ** Task definitions, descriptions and runtime classes *)

(** X24. For a task definition that is found,
    [describe_task_definition] makes one request and reports one entry
    per container definition, in order.  A role is reported by the last
    path segment of its ARN; a role the task definition does not have is
    reported as the text "None". *)
Theorem describe_task_definition_roles (w : Provider)
    (task_definition : string) (task_def : TaskDefinition) :
  ecs_describe_task_definition (ecs w) task_definition = Ok task_def ->
  exists env,
    describe_task_definition w task_definition
    = ([succeeded (DescribeTaskDefinition task_definition)], Returned env) /\
    has_field "error" env = false /\
    field "task_role" env = Some (VStr (role_name (taskRoleArn task_def))) /\
    field "execution_role" env
    = Some (VStr (role_name (executionRoleArn task_def))) /\
    field "containers" env
    = Some (VList (map container_summary (containerDefinitions task_def))).
Proof.
  intros Hfound. unfold describe_task_definition.
  rewrite Hfound, bind_request_Ok, for_each_append, bind_ret.
  unfold ret, try_except. cbn [fst snd app].
  eexists. split; [reflexivity|].
  unfold role_name_of, role_name.
  destruct (taskRoleArn task_def), (executionRoleArn task_def);
    repeat split.
Qed.

Lemma describe_task_definition_roles_witness :
  exists env,
    describe_task_definition web_task_account "web"
    = ([succeeded (DescribeTaskDefinition "web")], Returned env) /\
    has_field "error" env = false /\
    field "task_role" env = Some (VStr "web-task") /\
    field "execution_role" env = Some (VStr "None") /\
    field "containers" env
    = Some (VList (map container_summary
                     (containerDefinitions web_task_definition))).
Proof.
  exact (describe_task_definition_roles web_task_account "web"
           web_task_definition eq_refl).
Defined.

Lemma lower_upper_ascii (c : ascii) :
  lower_ascii (upper_ascii c) = lower_ascii c.
Proof. destruct c as [[] [] [] [] [] [] [] []]; reflexivity. Qed.

Lemma lower_title_from (prev_alpha : bool) (s : string) :
  lower (title_from prev_alpha s) = lower s.
Proof.
  revert prev_alpha. induction s as [|c s IH]; intros prev_alpha; simpl;
    [reflexivity|].
  rewrite IH. destruct prev_alpha;
    now rewrite ?lower_ascii_idempotent, ?lower_upper_ascii.
Qed.

Lemma lower_ascii_underscore (c : ascii) :
  Ascii.eqb (lower_ascii c) "_" = Ascii.eqb c "_".
Proof. destruct c as [[] [] [] [] [] [] [] []]; reflexivity. Qed.

Lemma upper_ascii_underscore (c : ascii) :
  Ascii.eqb (upper_ascii c) "_" = Ascii.eqb c "_".
Proof. destruct c as [[] [] [] [] [] [] [] []]; reflexivity. Qed.

Lemma lower_replace_underscore (s : string) :
  lower (replace_char "_" " " s) = replace_char "_" " " (lower s).
Proof.
  induction s as [|c s IH]; simpl; [reflexivity|].
  rewrite IH, lower_ascii_underscore.
  destruct (Ascii.eqb c "_"); reflexivity.
Qed.

Lemma title_from_free (prev_alpha : bool) (s : string) :
  free_of "_" s = true -> free_of "_" (title_from prev_alpha s) = true.
Proof.
  revert prev_alpha. induction s as [|c s IH]; intros prev_alpha; simpl;
    [reflexivity|].
  intros H. apply andb_true_iff in H as [Hc Hs].
  rewrite IH by exact Hs.
  destruct prev_alpha;
    now rewrite ?lower_ascii_underscore, ?upper_ascii_underscore, Hc.
Qed.

Lemma replace_underscore_free (s : string) :
  free_of "_" (replace_char "_" " " s) = true.
Proof.
  induction s as [|c s IH]; simpl; [reflexivity|].
  rewrite IH. destruct (Ascii.eqb c "_") eqn:E; [reflexivity|].
  now rewrite E.
Qed.

Lemma title_from_length (prev_alpha : bool) (s : string) :
  String.length (title_from prev_alpha s) = String.length s.
Proof.
  revert prev_alpha. induction s as [|c s IH]; intros prev_alpha; simpl;
    [reflexivity | now rewrite IH].
Qed.

Lemma replace_char_length (a b : ascii) (s : string) :
  String.length (replace_char a b s) = String.length s.
Proof. induction s as [|c s IH]; simpl; [reflexivity | now rewrite IH]. Qed.

(** X25. The description of a retirement is the event type code with
    only the case of letters changed and every underscore replaced by a
    space: it has the length of the code, contains no underscore, and
    lower-cased it is the lower-cased code with spaces for underscores.
    An event without a type code gets the empty description. *)
Theorem retirement_description (event : HealthEvent) (entity : AffectedEntity) :
  let code := str_default (eventTypeCode event) in
  let description := ret_description (retirement_of event entity) in
  String.length description = String.length code /\
  free_of "_" description = true /\
  lower description = replace_char "_" " " (lower code) /\
  (eventTypeCode event = None -> description = "").
Proof.
  cbv zeta. unfold retirement_of, title. cbn [ret_description].
  split; [now rewrite title_from_length, replace_char_length|].
  split; [apply title_from_free, replace_underscore_free|].
  split; [now rewrite lower_title_from, lower_replace_underscore|].
  now intros ->.
Qed.

Lemma has_key_deprecation (runtime : string) :
  deprecation_status runtime
  = if has_key runtime DEPRECATED_RUNTIMES then Some "DEPRECATED"
    else if has_key runtime APPROACHING_EOL_RUNTIMES
         then Some "APPROACHING_EOL" else None.
Proof. reflexivity. Qed.

(** X26. The three Lambda tools class a function alike, although they
    read a missing runtime differently ("N/A (container or custom)" in
    the listing and the detail view, the empty text in the scan): the
    listing marks a function DEPRECATED exactly when the scan counts it
    as deprecated, APPROACHING_EOL exactly when the scan would report it
    as approaching end of life, and the detail view has deprecation
    information exactly when the listing has a status. *)
Theorem lambda_tools_agree (func : LambdaFunction) :
  let status := fs_status (function_summary func) in
  (status = Some "DEPRECATED" <-> is_deprecated func = true) /\
  (status = Some "APPROACHING_EOL" <-> is_approaching_eol func = true) /\
  (status = None <->
   is_deprecated func = false /\ is_approaching_eol func = false) /\
  (deprecation_info (runtime_or "N/A (container or custom)" func) = VNone <->
   status = None).
Proof.
  cbv zeta. unfold function_summary, is_approaching_eol, is_deprecated.
  cbn [fs_status]. unfold deprecation_info, runtime_or.
  rewrite has_key_deprecation.
  destruct (Runtime func) as [runtime|].
  - destruct (has_key runtime DEPRECATED_RUNTIMES),
      (has_key runtime APPROACHING_EOL_RUNTIMES); cbn [negb andb];
      repeat split; intros; try discriminate; try reflexivity;
      try (destruct H; discriminate).
  - vm_compute. repeat split; intros; try discriminate; try reflexivity;
      try (destruct H; discriminate).
Qed.
